(** * Reranker Ollama: a shallow embedding of the n8n node and its properties

    The repository holds three near-identical variants of one n8n node:

    - the classification variant ([Qwen], RerankerOllama.node.ts, first
      listing): one [/api/chat] request per document, a yes/no verdict
      turned into a 0/1 score, a descending sort and a cut to [topN];
    - the list-ranking variant ([Generate], RerankerOllama.node.ts,
      second listing): one [/api/generate] request, a JSON array pulled
      out of the reply with a regular expression;
    - the OpenAI-style variant ([OpenAI], the third listing): the same
      list-ranking reranker with a [/models] model lister.

    JavaScript values live in a store of mutable objects addressed by
    locations, so that object identity and in-place mutation of the
    caller's documents are visible.  Calls to the host (credentials, HTTP
    helper, [fetch]) are answered by an oracle and recorded in a log. *)

From Stdlib Require Import ZArith QArith Qreduction Ascii String DecimalString List Lia.
From stdpp Require Import base option list strings gmap fin_maps.

Local Open Scope Z_scope.

(** ** The JavaScript runtime: strings *)

Module JS.

Local Open Scope string_scope.

(** White space as [String.prototype.trim] sees it, on the ASCII range:
    TAB, LF, VT, FF, CR and SPACE. *)
Definition is_space (c : ascii) : bool :=
  let n := N_of_ascii c in
  ((9 <=? n) && (n <=? 13) || (n =? 32))%N.

Fixpoint trimStart (s : string) : string :=
  match s with
  | String c r => if is_space c then trimStart r else s
  | EmptyString => EmptyString
  end.

Definition trim (s : string) : string :=
  String.rev (trimStart (String.rev (trimStart s))).

(** [String.prototype.toLowerCase], on strings held as UTF-8.  The
    letters A to Z are lowered; U+212A KELVIN SIGN (bytes E2 84 AA)
    becomes the letter k; U+0130 LATIN CAPITAL LETTER I WITH DOT ABOVE
    (bytes C4 B0) becomes the letter i followed by U+0307 (bytes CC 87).
    These two are the only characters outside ASCII whose lower case has
    an ASCII character in it.  The other characters outside ASCII keep
    their bytes here; their lower case is outside ASCII as well, so that
    the search for an ASCII word in the result, which is all this
    program does with it, finds what it finds in the string of the
    engine. *)
Definition lower_char (c : ascii) : ascii :=
  let n := N_of_ascii c in
  if ((65 <=? n) && (n <=? 90))%N then ascii_of_N (n + 32) else c.

Fixpoint toLowerCase (s : string) : string :=
  match s with
  | EmptyString => EmptyString
  | String c r =>
      match r with
      | EmptyString => String (lower_char c) EmptyString
      | String d r2 =>
          if Ascii.eqb c (ascii_of_N 196) && Ascii.eqb d (ascii_of_N 176)
          then String "i" (String (ascii_of_N 204) (String (ascii_of_N 135)
                 (toLowerCase r2)))
          else
            match r2 with
            | String e r3 =>
                if Ascii.eqb c (ascii_of_N 226) && Ascii.eqb d (ascii_of_N 132)
                   && Ascii.eqb e (ascii_of_N 170)
                then String "k" (toLowerCase r3)
                else String (lower_char c) (toLowerCase r)
            | EmptyString => String (lower_char c) (toLowerCase r)
            end
      end
  end.

Fixpoint startsWith (p s : string) : bool :=
  match p, s with
  | EmptyString, _ => true
  | String a p', String b s' => Ascii.eqb a b && startsWith p' s'
  | String _ _, EmptyString => false
  end.

(** [s.includes(p)] *)
Fixpoint includes (p s : string) : bool :=
  startsWith p s ||
  match s with
  | String _ r => includes p r
  | EmptyString => false
  end.

(** [s.replace(/\/+$/, '')]: the only match of the pattern is the maximal
    run of slashes that ends the string. *)
Fixpoint stripTrailingSlashes (s : string) : string :=
  match s with
  | EmptyString => EmptyString
  | String c r =>
      match stripTrailingSlashes r with
      | EmptyString => if Ascii.eqb c "/" then EmptyString else String c EmptyString
      | r' => String c r'
      end
  end.

(** [s.match(/\[[\s\S]*\]/)]: the match starts at the first opening
    bracket and, the star being greedy, runs to the last closing bracket
    after it; there is no match when no closing bracket follows the first
    opening one. *)
Fixpoint fromFirstOpen (s : string) : option string :=
  match s with
  | EmptyString => None
  | String c r => if Ascii.eqb c "[" then Some s else fromFirstOpen r
  end.

Fixpoint throughLastClose (s : string) : option string :=
  match s with
  | EmptyString => None
  | String c r =>
      match throughLastClose r with
      | Some p => Some (String c p)
      | None => if Ascii.eqb c "]" then Some (String c EmptyString) else None
      end
  end.

Definition matchArray (s : string) : option string :=
  match fromFirstOpen s with
  | Some t => throughLastClose t
  | None => None
  end.

(** ** The JavaScript runtime: values

    Numbers are exact rationals kept in lowest terms (the rounding of
    IEEE doubles is outside the model; integers and short decimals, which
    is what indexes and scores are, are represented exactly).  [VArr] and
    [VObj] are structured values that this program only reads, such as
    the result of [JSON.parse]; they behave as frozen objects.  [VRef]
    is a reference to a mutable object of the store. *)

Definition loc := positive.

#[local] Set Warnings "-register-all".

Inductive value :=
| VUndef
| VNull
| VBool (b : bool)
| VNum (q : Q)
| VStr (s : string)
| VArr (items : list value)
| VObj (fields : list (string * value))
| VRef (l : loc).

(** The result of an arithmetic conversion. *)
Inductive number :=
| NaN
| Fin (q : Q).

Definition ofZ (z : Z) : Q := inject_Z z.

(** A mutable object: its own properties. *)
Abbreviation object := (gmap string value).
Abbreviation heap := (gmap loc object).

(** ToBoolean *)
Definition truthy (v : value) : bool :=
  match v with
  | VUndef | VNull => false
  | VBool b => b
  | VNum q => negb (Z.eqb (Qnum q) 0)
  | VStr s => negb (String.eqb s EmptyString)
  | VArr _ | VObj _ | VRef _ => true
  end.

Definition nullish (v : value) : bool :=
  match v with
  | VUndef | VNull => true
  | _ => false
  end.

(** The last binding of a key wins, as when [JSON.parse] meets a
    duplicate member name. *)
Fixpoint field (k : string) (fields : list (string * value)) : value :=
  match fields with
  | [] => VUndef
  | (k', v) :: rest =>
      match field k rest with
      | VUndef => if String.eqb k k' then v else VUndef
      | w => w
      end
  end.

(** ** The JavaScript runtime: [JSON.parse]

    A lexer that is a state machine over the characters and a parser that
    is a pushdown automaton over the tokens, following the JSON grammar
    (ECMA-404).  Both are structurally recursive: no fuel is involved. *)

Inductive token :=
| TLBracket | TRBracket | TLBrace | TRBrace | TComma | TColon
| TString (s : string)
| TWord (w : string).

Definition is_digit (c : ascii) : bool :=
  let n := N_of_ascii c in ((48 <=? n) && (n <=? 57))%N.

Definition is_letter (c : ascii) : bool :=
  let n := N_of_ascii c in
  ((65 <=? n) && (n <=? 90) || (97 <=? n) && (n <=? 122))%N.

(** Characters of numbers and of the three literal names. *)
Definition is_word_char (c : ascii) : bool :=
  is_digit c || is_letter c || Ascii.eqb c "-" || Ascii.eqb c "+" || Ascii.eqb c ".".

(** JSON white space: SPACE, TAB, LF, CR. *)
Definition is_json_space (c : ascii) : bool :=
  let n := N_of_ascii c in
  ((n =? 32) || (n =? 9) || (n =? 10) || (n =? 13))%N.

Definition hex_digit (c : ascii) : option N :=
  let n := N_of_ascii c in
  if ((48 <=? n) && (n <=? 57))%N then Some (n - 48)%N
  else if ((65 <=? n) && (n <=? 70))%N then Some (n - 55)%N
  else if ((97 <=? n) && (n <=? 102))%N then Some (n - 87)%N
  else None.

(** The bytes of the UTF-8 encoding of a code unit, last byte first. *)
Definition utf8_rev (u : N) : list ascii :=
  (if u <? 128 then [ascii_of_N u]
   else if u <? 2048 then
     [ascii_of_N (128 + u mod 64); ascii_of_N (192 + u / 64)]
   else
     [ascii_of_N (128 + u mod 64); ascii_of_N (128 + (u / 64) mod 64);
      ascii_of_N (224 + u / 4096)])%N.

Definition string_of_rev (cs : list ascii) : string :=
  fold_left (fun acc c => String c acc) cs EmptyString.

Inductive lex_mode :=
| LStart
| LWord (acc : list ascii)
| LString (acc : list ascii)
| LEscape (acc : list ascii)
| LUnicode (acc : list ascii) (code : N) (todo : nat).

Definition lex_start (c : ascii) : option (lex_mode * list token) :=
  if is_json_space c then Some (LStart, [])
  else if Ascii.eqb c "[" then Some (LStart, [TLBracket])
  else if Ascii.eqb c "]" then Some (LStart, [TRBracket])
  else if Ascii.eqb c "{" then Some (LStart, [TLBrace])
  else if Ascii.eqb c "}" then Some (LStart, [TRBrace])
  else if Ascii.eqb c "," then Some (LStart, [TComma])
  else if Ascii.eqb c ":" then Some (LStart, [TColon])
  else if Ascii.eqb c (ascii_of_N 34) then Some (LString [], [])
  else if is_word_char c then Some (LWord [c], [])
  else None.

Definition unescape (c : ascii) : option ascii :=
  if Ascii.eqb c (ascii_of_N 34) then Some c
  else if Ascii.eqb c "\" then Some c
  else if Ascii.eqb c "/" then Some c
  else if Ascii.eqb c "b" then Some (ascii_of_N 8)
  else if Ascii.eqb c "f" then Some (ascii_of_N 12)
  else if Ascii.eqb c "n" then Some (ascii_of_N 10)
  else if Ascii.eqb c "r" then Some (ascii_of_N 13)
  else if Ascii.eqb c "t" then Some (ascii_of_N 9)
  else None.

Definition lex_step (m : lex_mode) (c : ascii) : option (lex_mode * list token) :=
  match m with
  | LStart => lex_start c
  | LWord acc =>
      if is_word_char c then Some (LWord (c :: acc), [])
      else
        match lex_start c with
        | Some (m', ts) => Some (m', TWord (string_of_rev acc) :: ts)
        | None => None
        end
  | LString acc =>
      if Ascii.eqb c (ascii_of_N 34) then Some (LStart, [TString (string_of_rev acc)])
      else if Ascii.eqb c "\" then Some (LEscape acc, [])
      else if (N_of_ascii c <? 32)%N then None
      else Some (LString (c :: acc), [])
  | LEscape acc =>
      if Ascii.eqb c "u" then Some (LUnicode acc 0 4, [])
      else
        match unescape c with
        | Some e => Some (LString (e :: acc), [])
        | None => None
        end
  | LUnicode acc code todo =>
      match hex_digit c, todo with
      | Some d, 1%nat => Some (LString (utf8_rev (16 * code + d) ++ acc)%list, [])
      | Some d, S todo' => Some (LUnicode acc (16 * code + d) todo', [])
      | _, _ => None
      end
  end.

Definition lex_end (m : lex_mode) : option (list token) :=
  match m with
  | LStart => Some []
  | LWord acc => Some [TWord (string_of_rev acc)]
  | _ => None
  end.

Fixpoint lex (m : lex_mode) (s : string) : option (list token) :=
  match s with
  | EmptyString => lex_end m
  | String c r =>
      match lex_step m c with
      | Some (m', ts) =>
          match lex m' r with
          | Some rest => Some (ts ++ rest)%list
          | None => None
          end
      | None => None
      end
  end.

(** Numbers: [-? int frac? exp?], no leading zero before further
    digits, at least one digit after the point and in the exponent. *)
Fixpoint span_digits (s : string) : string * string :=
  match s with
  | String c r =>
      if is_digit c then let '(d, t) := span_digits r in (String c d, t)
      else (EmptyString, s)
  | EmptyString => (EmptyString, EmptyString)
  end.

Fixpoint digits_value (acc : Z) (s : string) : Z :=
  match s with
  | String c r => digits_value (10 * acc + Z.of_N (N_of_ascii c - 48)) r
  | EmptyString => acc
  end.

Definition pow10 (e : Z) : Q :=
  if (0 <=? e)%Z then inject_Z (10 ^ e) else 1 # Z.to_pos (10 ^ (- e)).

Definition well_formed_int (d : string) : bool :=
  match d with
  | EmptyString => false
  | String c EmptyString => true
  | String c _ => negb (Ascii.eqb c "0")
  end.

Definition parse_exponent (s : string) : option Z :=
  match s with
  | EmptyString => Some 0%Z
  | String c r =>
      if Ascii.eqb c "e" || Ascii.eqb c "E" then
        let '(neg, r1) :=
          match r with
          | String s' r' =>
              if Ascii.eqb s' "-" then (true, r')
              else if Ascii.eqb s' "+" then (false, r')
              else (false, r)
          | EmptyString => (false, r)
          end in
        match span_digits r1 with
        | (EmptyString, _) => None
        | (d, EmptyString) =>
            Some (if neg then - digits_value 0 d else digits_value 0 d)%Z
        | (_, String _ _) => None
        end
      else None
  end.

Definition parse_number (s : string) : option Q :=
  let '(neg, s1) :=
    match s with
    | String c r => if Ascii.eqb c "-" then (true, r) else (false, s)
    | EmptyString => (false, s)
    end in
  let '(ip, s2) := span_digits s1 in
  if negb (well_formed_int ip) then None
  else
    let frac :=
      match s2 with
      | String c r =>
          if Ascii.eqb c "." then
            match span_digits r with
            | (EmptyString, _) => None
            | (fp, s3) => Some (fp, s3)
            end
          else Some (EmptyString, s2)
      | EmptyString => Some (EmptyString, s2)
      end in
    match frac with
    | None => None
    | Some (fp, s3) =>
        match parse_exponent s3 with
        | None => None
        | Some e =>
            let m := digits_value 0 (ip ++ fp) in
            let q := Qmult (inject_Z (if neg then - m else m)%Z)
                           (pow10 (e - Z.of_nat (String.length fp))) in
            Some (Qred q)
        end
    end.

Definition word_value (w : string) : option value :=
  if String.eqb w "true" then Some (VBool true)
  else if String.eqb w "false" then Some (VBool false)
  else if String.eqb w "null" then Some VNull
  else
    match parse_number w with
    | Some q => Some (VNum q)
    | None => None
    end.

(** The parser: a stack of the containers that are still open. *)
Inductive frame :=
| FArr (done : list value)
| FObj (done : list (string * value)) (key : string).

Inductive pstate :=
| SValue (stack : list frame)
| SArrFirst (stack : list frame)
| SArrAfter (done : list value) (stack : list frame)
| SObjFirst (stack : list frame)
| SObjAfter (done : list (string * value)) (stack : list frame)
| SKey (done : list (string * value)) (stack : list frame)
| SColon (done : list (string * value)) (key : string) (stack : list frame)
| SDone (v : value).

(** A value is complete: hand it to the innermost open container. *)
Definition complete (v : value) (stack : list frame) : pstate :=
  match stack with
  | [] => SDone v
  | FArr done :: stack' => SArrAfter (done ++ [v])%list stack'
  | FObj done key :: stack' => SObjAfter (done ++ [(key, v)])%list stack'
  end.

Definition value_start (t : token) (stack : list frame) : option pstate :=
  match t with
  | TLBracket => Some (SArrFirst stack)
  | TLBrace => Some (SObjFirst stack)
  | TString s => Some (complete (VStr s) stack)
  | TWord w =>
      match word_value w with
      | Some v => Some (complete v stack)
      | None => None
      end
  | _ => None
  end.

Definition parse_step (st : pstate) (t : token) : option pstate :=
  match st with
  | SValue stack => value_start t stack
  | SArrFirst stack =>
      match t with
      | TRBracket => Some (complete (VArr []) stack)
      | _ => value_start t (FArr [] :: stack)
      end
  | SArrAfter done stack =>
      match t with
      | TComma => Some (SValue (FArr done :: stack))
      | TRBracket => Some (complete (VArr done) stack)
      | _ => None
      end
  | SObjFirst stack =>
      match t with
      | TRBrace => Some (complete (VObj []) stack)
      | TString k => Some (SColon [] k stack)
      | _ => None
      end
  | SObjAfter done stack =>
      match t with
      | TComma => Some (SKey done stack)
      | TRBrace => Some (complete (VObj done) stack)
      | _ => None
      end
  | SKey done stack =>
      match t with
      | TString k => Some (SColon done k stack)
      | _ => None
      end
  | SColon done k stack =>
      match t with
      | TColon => Some (SValue (FObj done k :: stack))
      | _ => None
      end
  | SDone _ => None
  end.

Fixpoint parse_tokens (st : pstate) (ts : list token) : option value :=
  match ts with
  | [] => match st with SDone v => Some v | _ => None end
  | t :: rest =>
      match parse_step st t with
      | Some st' => parse_tokens st' rest
      | None => None
      end
  end.

(** [JSON.parse(s)]: [None] stands for the thrown [SyntaxError]. *)
Definition JSON_parse (s : string) : option value :=
  match lex LStart s with
  | Some ts => parse_tokens (SValue []) ts
  | None => None
  end.

(** ** The JavaScript runtime: arrays and arithmetic *)

(** [l.slice(0, end)] for an integer [end]: a negative [end] counts from
    the end of the array. *)
Definition slice0 {A} (l : list A) (e : Z) : list A :=
  let len := Z.of_nat (length l) in
  let fin := if (e <? 0)%Z then Z.max (len + e) 0 else Z.min e len in
  take (Z.to_nat fin) l.

(** [Array.prototype.sort(cmp)]: the sort is stable (ECMAScript 2019 and
    later).  [before y x] says that [cmp(y, x) < 0]: [y] has to come
    first.  An element goes behind the ones that have to come first and
    ahead of everything else that followed it in the input. *)
Section Sort.
Context {A : Type} (before : A -> A -> bool).

Fixpoint insert_sorted (x : A) (l : list A) : list A :=
  match l with
  | [] => [x]
  | y :: r => if before y x then y :: insert_sorted x r else x :: y :: r
  end.

Fixpoint sort (l : list A) : list A :=
  match l with
  | [] => []
  | x :: r => insert_sorted x (sort r)
  end.
End Sort.

Definition number_sub (a b : number) : number :=
  match a, b with
  | Fin x, Fin y => Fin (Qred (x - y))
  | _, _ => NaN
  end.

Definition number_div (a b : number) : number :=
  match a, b with
  | Fin x, Fin y => if Z.eqb (Qnum y) 0 then NaN else Fin (Qred (x / y))
  | _, _ => NaN
  end.

(** [n < 0]; a comparison with NaN is false. *)
Definition number_neg (n : number) : bool :=
  match n with
  | Fin q => (Qnum q <? 0)%Z
  | NaN => false
  end.

(** [arr[n]] on an array without holes or extra properties: an element
    for an integer in range, [undefined] for anything else. *)
Definition element (arr : list value) (n : number) : value :=
  match n with
  | Fin q =>
      if Z.eqb (Qnum q mod Zpos (Qden q)) 0 && (0 <=? Qnum q)%Z
      then nth (Z.to_nat (Qnum q / Zpos (Qden q))) arr VUndef
      else VUndef
  | NaN => VUndef
  end.

(** What the embedding takes from the runtime without defining it: the
    conversion to string of a value that converts to a primitive, the
    conversion from string to number, and the two formatting methods
    used for the model list.  The query and the page content of a
    document, which the host hands over as strings, go to [ToString] as
    they are; a value read from a reply is converted to a primitive
    first ([ToPrimitive] below). *)
Class Runtime := {
  ToString : value -> string;
  StringToNumber : string -> number;
  toFixed1 : number -> string;
  toLocaleString : value -> string
}.

(** The conversion of a value to a number, when the conversion of the
    value to a primitive does not throw (see [ToNumber] below). *)
Definition number_of `{Runtime} (v : value) : number :=
  match v with
  | VUndef => NaN
  | VNull => Fin 0
  | VBool b => Fin (if b then 1 else 0)
  | VNum q => Fin q
  | VStr s => StringToNumber s
  | VArr _ => StringToNumber (ToString v)
  | VObj _ | VRef _ => NaN
  end.

(** [fields] has an own property [k], whatever its value. *)
Definition has_own (k : string) (fields : list (string * value)) : bool :=
  existsb (fun p => String.eqb (fst p) k) fields.

(** ToPrimitive throws a [TypeError] on [v].  An object is converted by
    its [valueOf], which for a plain object returns the object itself,
    and then by its [toString]; the values of the embedding hold no
    functions, so that an own [toString] property hides the one of
    [Object.prototype] with something that cannot be called, and the
    conversion has nothing left to try.  An array is converted by
    joining the conversions of its elements. *)
Fixpoint unconvertible (h : heap) (v : value) : bool :=
  match v with
  | VArr items => existsb (unconvertible h) items
  | VObj fields => has_own "toString" fields
  | VRef l =>
      match h !! l with
      | Some o => bool_decide (is_Some (o !! "toString"))
      | None => true
      end
  | _ => false
  end.
End JS.

Import JS.

Local Open Scope string_scope.

(** ** The host: errors, credentials, requests *)

Inductive error :=
| NodeOperationError (message : string) (itemIndex : option Z)
| TypeError
| SyntaxError
| HostError (message : string).

Record credentials := {
  baseUrl : option string;
  apiKey : option string
}.

(** The body of a request, before [JSON.stringify]. *)
Inductive payload :=
| NoBody
| ChatPayload (model prompt : string)       (* temperature 0, num_predict 200, stream false *)
| GeneratePayload (model prompt : string).  (* stream false *)

Record http_request := {
  method : string;
  url : string;
  headers : list (string * string);
  body : payload
}.

(** What [fetch] resolves to; [json = None] when the body is not JSON. *)
Record response := {
  ok : bool;
  status : Z;
  statusText : string;
  json : option value
}.

(** The host functions.  The answer to a request may depend on the
    request and on how many requests were made before it.  [fetch]
    resolves to a response or throws an error with a message. *)
Class Host := {
  getCredentials : string -> error + credentials;
  getNodeParameter_string : string -> Z -> string;
  getNodeParameter_number : string -> Z -> Z;
  httpRequest : nat -> http_request -> error + value;
  fetch : nat -> http_request -> string + response
}.

(** ** Computations: the store, the log of requests, and exceptions *)

Record world := {
  store : heap;
  requests : list http_request
}.

Definition M (A : Type) : Type := world -> (error + A) * world.

Definition ret {A} (a : A) : M A := fun w => (inr a, w).

Definition throw {A} (e : error) : M A := fun w => (inl e, w).

Definition bind {A B} (m : M A) (k : A -> M B) : M B :=
  fun w =>
    match m w with
    | (inr a, w') => k a w'
    | (inl e, w') => (inl e, w')
    end.

Notation "'do' x <- m ; k" := (bind m (fun x => k))
  (at level 10, x name, m at level 100, k at level 200).
Notation "m ;;; k" := (bind m (fun _ => k))
  (at level 100, k at level 200, right associativity).

Definition lift {A} (r : error + A) : M A := fun w => (r, w).

(** Run a computation and hand back its outcome instead of raising. *)
Definition attempt {A} (m : M A) : M (error + A) :=
  fun w => let '(r, w') := m w in (inr r, w').

Fixpoint mapM {A B} (f : A -> M B) (l : list A) : M (list B) :=
  match l with
  | [] => ret []
  | x :: r => do y <- f x; do ys <- mapM f r; ret (y :: ys)
  end.

(** [obj.key].  Reading through [undefined] or [null] is a [TypeError];
    strings, numbers and booleans have none of the properties this
    program asks for.  A reference to no object of the store does not
    arise in JavaScript; it is treated like [undefined]. *)
Definition get_prop (v : value) (key : string) : M value :=
  fun w =>
    match v with
    | VUndef | VNull => (inl TypeError, w)
    | VObj fields => (inr (field key fields), w)
    | VRef l =>
        match store w !! l with
        | Some o => (inr (default VUndef (o !! key)), w)
        | None => (inl TypeError, w)
        end
    | _ => (inr VUndef, w)
    end.

(** [obj.key = x] in strict mode: only a mutable object takes it. *)
Definition set_prop (v : value) (key : string) (x : value) : M unit :=
  fun w =>
    match v with
    | VRef l =>
        match store w !! l with
        | Some o =>
            (inr tt, {| store := <[l := <[key := x]> o]> (store w);
                        requests := requests w |})
        | None => (inl TypeError, w)
        end
    | _ => (inl TypeError, w)
    end.

(** [{}] *)
Definition new_object : M value :=
  fun w =>
    let l := fresh (dom (store w)) in
    (inr (VRef l), {| store := <[l := ∅]> (store w); requests := requests w |}).

Definition call_httpRequest `{Host} (r : http_request) : M value :=
  fun w =>
    (httpRequest (length (requests w)) r,
     {| store := store w; requests := requests w ++ [r] |}).

Definition call_fetch `{Host} (r : http_request) : M response :=
  fun w =>
    (match fetch (length (requests w)) r with
     | inr resp => inr resp
     | inl message => inl (HostError message)
     end,
     {| store := store w; requests := requests w ++ [r] |}).

(** ToPrimitive, as far as it can fail. *)
Definition ToPrimitive (v : value) : M value :=
  fun w =>
    if unconvertible (store w) v then (inl TypeError, w) else (inr v, w).

(** ToNumber: the operand of an arithmetic operator is converted to a
    primitive first. *)
Definition ToNumber `{Runtime} (v : value) : M number :=
  do p <- ToPrimitive v;
  ret (number_of p).

(** ** What the three listings share *)

Definition dquote : string := String (ascii_of_N 34) EmptyString.
Definition newline : string := String (ascii_of_N 10) EmptyString.
Definition tab : string := String (ascii_of_N 9) EmptyString.

(** [{ index, relevanceScore }] *)
Record RerankResult := {
  index : number;
  relevanceScore : value
}.

(** An entry of the model drop-down. *)
Record INodePropertyOptions := {
  name : value;
  value_ : value;
  description : option string
}.

(** [s || d] on a possibly missing string. *)
Definition or_else (s : option string) (d : string) : string :=
  match s with
  | Some x => if String.eqb x EmptyString then d else x
  | None => d
  end.

Definition default_baseUrl : string := "http://localhost:11434".

(** [(credentials.baseUrl || 'http://localhost:11434').replace(/\/+$/, '')] *)
Definition rerank_baseUrl (c : credentials) : string :=
  stripTrailingSlashes (or_else (baseUrl c) default_baseUrl).

(** Content-Type, and Authorization when there is a key. *)
Definition request_headers (c : credentials) : list (string * string) :=
  ("Content-Type", "application/json") ::
  match apiKey c with
  | Some k => if String.eqb k EmptyString then [] else [("Authorization", "Bearer " ++ k)]
  | None => []
  end.

Fixpoint join (sep : string) (l : list string) : string :=
  match l with
  | [] => EmptyString
  | [x] => x
  | x :: r => x ++ sep ++ join sep r
  end.

Section Shared.
Context `{Runtime} `{Host}.

(** The body of [results.map((result) => { ... })] in
    [compressDocuments], the same in the three listings:
<<
    const doc = documents[result.index];
    doc.metadata = doc.metadata || {};
    doc.metadata.relevanceScore = result.relevanceScore;
    return doc;
>> *)
Definition attach (documents : list value) (result : RerankResult) : M value :=
  let doc := element documents (index result) in
  do old <- get_prop doc "metadata";
  do metadata <- (if truthy old then ret old else new_object);
  set_prop doc "metadata" metadata ;;;
  do metadata' <- get_prop doc "metadata";
  set_prop metadata' "relevanceScore" (relevanceScore result) ;;;
  ret doc.

(** [`Document ${i + 1}: ${doc.pageContent}`] *)
Definition passage (i : nat) (doc : value) : M string :=
  do content <- get_prop doc "pageContent";
  ret ("Document " ++ ToString (VNum (ofZ (Z.of_nat i + 1))) ++ ": " ++ ToString content).

Definition ranking_prompt (query : value) (passagesText : string) : string :=
  let indent := tab ++ tab ++ tab ++ tab in
  newline ++
  indent ++ "You are a reranker model. Rank the following documents by relevance to the query." ++ newline ++
  newline ++
  indent ++ "Query: " ++ dquote ++ ToString query ++ dquote ++ newline ++
  newline ++
  indent ++ "Documents:" ++ newline ++
  indent ++ passagesText ++ newline ++
  newline ++
  indent ++ "Return a JSON array of objects: [{" ++ dquote ++ "index" ++ dquote ++ ": number, "
         ++ dquote ++ "score" ++ dquote ++ ": number}] with highest scores first." ++ newline ++
  tab ++ tab ++ tab.

(** [response.response || response.output || response] *)
Definition reply_text (response : value) : M value :=
  do r <- get_prop response "response";
  if truthy r then ret r
  else
    do o <- get_prop response "output";
    if truthy o then ret o else ret response.

(** [(r) => ({ index: r.index - 1, relevanceScore: r.score })] *)
Definition ranking (r : value) : M RerankResult :=
  do i <- get_prop r "index";
  do n <- ToNumber i;
  do s <- get_prop r "score";
  ret {| index := number_sub n (Fin 1); relevanceScore := s |}.

(** The list-ranking reranker; the second and the third listing have
    the same text.  [parse_rankings] is what [rerank] does with the
    answer of its request: the text of the reply, the bracketed part,
    [JSON.parse], the cut to [topN] and the conversion of the entries. *)
Definition parse_rankings (itemIndex topN : Z) (response : value)
  : M (list RerankResult) :=
  do text <- reply_text response;
  match text with
  | VStr s =>
      match matchArray s with
      | None =>
          throw (NodeOperationError "Failed to parse reranker output." (Some itemIndex))
      | Some jsonMatch =>
          match JSON_parse jsonMatch with
          | None =>
              throw (NodeOperationError "Invalid JSON in reranker response." (Some itemIndex))
          | Some (VArr results) =>
              let rankings := slice0 results (Z.min topN (Z.of_nat (length results))) in
              mapM ranking rankings
          | Some _ => throw TypeError
          end
      end
  | _ => throw TypeError
  end.

Definition rerank_request (itemIndex : Z) (credentials : credentials)
    (query : value) (passages : list string) : http_request :=
  {| method := "POST";
     url := rerank_baseUrl credentials ++ "/api/generate";
     headers := request_headers credentials;
     body := GeneratePayload (getNodeParameter_string "model" itemIndex)
               (ranking_prompt query (join (newline ++ newline) passages)) |}.

Definition rerank (itemIndex : Z) (documents : list value) (query : value)
  : M (list RerankResult) :=
  do credentials <- lift (getCredentials "rerankerOllamaApi");
  let topN := getNodeParameter_number "topN" itemIndex in
  do passages <- mapM (fun p => passage (fst p) (snd p)) (imap pair documents);
  do response <- call_httpRequest (rerank_request itemIndex credentials query passages);
  parse_rankings itemIndex topN response.

(** [compressDocuments], the same text in the three listings but for the
    reranker it calls.  [None] is a missing ([undefined] or [null])
    argument. *)
Definition compressDocuments_with
    (reranker : list value -> value -> M (list RerankResult))
    (documents : option (list value)) (query : value) : M (list value) :=
  match documents with
  | None | Some [] => ret []
  | Some docs =>
      do results <- reranker docs query;
      mapM (attach docs) results
  end.
End Shared.

(** ** The model lister of the two [/api/tags] listings *)

Section Tags.
Context `{Runtime} `{Host}.

(** [(credentials.baseUrl || '').replace(/\/+$/, '') || 'http://localhost:11434'] *)
Definition tags_baseUrl (c : credentials) : string :=
  or_else (Some (stripTrailingSlashes (or_else (baseUrl c) EmptyString))) default_baseUrl.

(** The callback of [data.models.map].  The size is divided, the date
    handed to [new Date] and the name put into a template: each of them
    is converted to a primitive first. *)
Definition model_option (model : value) : M INodePropertyOptions :=
  do size <- get_prop model "size";
  do sizeGB <-
    (if truthy size
     then do n <- ToNumber size;
          ret (toFixed1 (number_div n (Fin (ofZ 1073741824))) ++ " GB")
     else ret "Unknown size");
  do modified_at <- get_prop model "modified_at";
  do modified <-
    (if truthy modified_at
     then do date <- ToPrimitive modified_at; ret (toLocaleString date)
     else ret "Unknown date");
  do nm <- get_prop model "name";
  do text <- ToPrimitive nm;
  ret {| name := VStr (ToString text ++ " (" ++ sizeGB ++ ")");
         value_ := nm;
         description := Some ("Last updated: " ++ modified) |}.

(** The message of the error for a reply without a list of models. *)
Definition missing_models : string :=
  "Unexpected response: missing " ++ dquote ++ "models" ++ dquote
  ++ " array from Ollama API.".

(** The request of the model list. *)
Definition tags_request (c : credentials) : http_request :=
  {| method := "GET"; url := tags_baseUrl c ++ "/api/tags";
     headers := request_headers c; body := NoBody |}.

(** Steps 1 to 4 of [getModels]: credentials, request, validation and
    mapping. *)
Definition list_tags : M (list INodePropertyOptions) :=
  do credentials <- lift (getCredentials "ollamaApi");
  let baseUrl := tags_baseUrl credentials in
  do response <- (fun w =>
    match call_fetch (tags_request credentials) w with
    | (inl (HostError message), w') =>
        (inl (NodeOperationError
                ("Network error connecting to Ollama at " ++ baseUrl ++ ": " ++ message)
                None), w')
    | other => other
    end);
  if negb (ok response) then
    throw (NodeOperationError
             ("Failed to fetch Ollama models (" ++ ToString (VNum (ofZ (status response)))
              ++ " " ++ statusText response ++ ") from " ++ baseUrl) None)
  else
    do data <- lift (match json response with
                     | Some v => inr v
                     | None => inl SyntaxError
                     end);
    do models <- get_prop data "models";
    match models with
    | VArr items => mapM model_option items
    | _ => throw (NodeOperationError missing_models None)
    end.
End Tags.

(** ** First listing: the classification variant *)

Module Qwen.
Section Node.
Context `{Runtime} `{Host}.

Definition whitelist : list string := ["qwen3-reranker"].

(** [option.value?.toLowerCase?.() || ''] followed by the test against
    the whitelist. *)
Definition allowed (option : INodePropertyOptions) : M bool :=
  do lowered <-
    match value_ option with
    | VStr s => ret (toLowerCase s)
    | VObj fields =>
        if nullish (field "toLowerCase" fields) then ret EmptyString else throw TypeError
    | VRef l =>
        do m <- get_prop (VRef l) "toLowerCase";
        if nullish m then ret EmptyString else throw TypeError
    | _ => ret EmptyString
    end;
  ret (existsb (fun a => includes a lowered) whitelist).

Fixpoint filterM {A} (f : A -> M bool) (l : list A) : M (list A) :=
  match l with
  | [] => ret []
  | x :: r =>
      do keep <- f x;
      do rest <- filterM f r;
      ret (if keep then x :: rest else rest)
  end.

Definition getModels : M (list INodePropertyOptions) :=
  do options <- list_tags;
  filterM allowed options.

Definition grading_prompt (query : value) (content : value) : string :=
  "You are an expert relevance grader. For each document, determine whether it is relevant to the query. Respond with a simple 'Yes' or 'No'."
  ++ newline ++ newline ++ " Query: " ++ dquote ++ ToString query ++ dquote ++ newline
  ++ "Document: " ++ ToString content.

(** [response?.message?.content?.trim()?.toLowerCase()]; [None] is
    [undefined]. *)
Definition answer_of (response : value) : M (option string) :=
  if nullish response then ret None
  else
    do message <- get_prop response "message";
    if nullish message then ret None
    else
      do content <- get_prop message "content";
      if nullish content then ret None
      else
        match content with
        | VStr s => ret (Some (toLowerCase (trim s)))
        | _ => throw TypeError
        end.

(** [answer?.includes('yes') ? 1 : 0] *)
Definition score_of (answer : option string) : Z :=
  match answer with
  | Some a => if includes "yes" a then 1 else 0
  | None => 0
  end.

(** The asynchronous callback of [documents.map]. *)
Definition rerankCall (model url : string) (headers : list (string * string))
    (query : value) (i : nat) (doc : value) : M RerankResult :=
  do content <- get_prop doc "pageContent";
  do response <- call_httpRequest
    {| method := "POST"; url := url; headers := headers;
       body := ChatPayload model (grading_prompt query content) |};
  do answer <- answer_of response;
  ret {| index := Fin (ofZ (Z.of_nat i));
         relevanceScore := VNum (ofZ (score_of answer)) |}.

(** [Promise.all]: all the results in the order of the promises, or a
    rejection.  Which rejection is reported when several calls fail
    depends on timing; the model reports the one of the first failed
    call in the order of the documents. *)
Fixpoint all {A} (outcomes : list (error + A)) : error + list A :=
  match outcomes with
  | [] => inr []
  | inl e :: _ => inl e
  | inr a :: rest =>
      match all rest with
      | inr l => inr (a :: l)
      | inl e => inl e
      end
  end.

(** [(a, b) => b.relevanceScore - a.relevanceScore] is negative.  The
    scores compared are the numbers that [rerankCall] has made, which
    the subtraction takes as they are. *)
Definition before (a b : RerankResult) : bool :=
  number_neg (number_sub (number_of (relevanceScore b)) (number_of (relevanceScore a))).

Definition rerankQwen (itemIndex : Z) (documents : list value) (query : value)
  : M (list RerankResult) :=
  do credentials <- lift (getCredentials "ollamaApi");
  let model := getNodeParameter_string "model" itemIndex in
  let topN := getNodeParameter_number "topN" itemIndex in
  let headers := request_headers credentials in
  let baseUrl := rerank_baseUrl credentials in
  let url := baseUrl ++ "/api/chat" in
  do outcomes <-
    mapM (fun p => attempt (rerankCall model url headers query (fst p) (snd p)))
         (imap pair documents);
  do results <- lift (all outcomes);
  let sorted := sort before results in
  ret (slice0 sorted (Z.min topN (Z.of_nat (length sorted)))).

Definition compressDocuments (itemIndex : Z)
  : option (list value) -> value -> M (list value) :=
  compressDocuments_with (rerankQwen itemIndex).
End Node.
End Qwen.

(** ** Second listing: the list-ranking variant *)

Module Generate.
Section Node.
Context `{Runtime} `{Host}.

Definition getModels : M (list INodePropertyOptions) := list_tags.

Definition compressDocuments (itemIndex : Z)
  : option (list value) -> value -> M (list value) :=
  compressDocuments_with (rerank itemIndex).
End Node.
End Generate.

(** ** Third listing: the list-ranking variant with the [/models] lister *)

Module OpenAI.
Section Node.
Context `{Runtime} `{Host}.

(** [(credentials.baseUrl || '').replace(/\/+$/, '')] *)
Definition models_baseUrl (c : credentials) : string :=
  stripTrailingSlashes (or_else (baseUrl c) EmptyString).

(** The request of the model list. *)
Definition models_request (c : credentials) : http_request :=
  {| method := "GET"; url := models_baseUrl c ++ "/models";
     headers := request_headers c; body := NoBody |}.

(** [(m) => ({ name: m.id, value: m.id })] *)
Definition model_entry (m : value) : M INodePropertyOptions :=
  do id <- get_prop m "id";
  ret {| name := id; value_ := id; description := None |}.

Definition getModels : M (list INodePropertyOptions) :=
  do credentials <- lift (getCredentials "ollamaApi");
  do resp <- call_fetch (models_request credentials);
  if negb (ok resp) then
    throw (NodeOperationError
             ("Failed to fetch models: " ++ ToString (VNum (ofZ (status resp)))
              ++ " " ++ statusText resp) (Some 0))
  else
    do result <- lift (match json resp with
                       | Some v => inr v
                       | None => inl SyntaxError
                       end);
    do data <- get_prop result "data";
    match data with
    | VUndef | VNull => ret []
    | VArr items => mapM model_entry items
    | _ => throw TypeError
    end.

Definition compressDocuments (itemIndex : Z)
  : option (list value) -> value -> M (list value) :=
  compressDocuments_with (rerank itemIndex).
End Node.
End OpenAI.

(** * Sample runs

    A runtime and hosts to run the embedding on concrete inputs.  The
    conversions of [sample_runtime] stand in for the ones of the engine:
    they agree with it on strings, booleans and whole numbers, which is
    all that the sample runs convert. *)

Definition decimal (z : Z) : string := NilZero.string_of_int (Z.to_int z).

Definition sample_ToString (v : value) : string :=
  match v with
  | VUndef => "undefined"
  | VNull => "null"
  | VBool b => if b then "true" else "false"
  | VNum q =>
      if Z.eqb (Qnum q mod Zpos (Qden q)) 0 then decimal (Qnum q / Zpos (Qden q))
      else decimal (Qnum q) ++ "/" ++ decimal (Zpos (Qden q))
  | VStr s => s
  | VArr _ => "[array]"
  | VObj _ | VRef _ => "[object Object]"
  end.

Definition sample_StringToNumber (s : string) : number :=
  match trim s with
  | EmptyString => Fin 0
  | t =>
      match parse_number t with
      | Some q => Fin q
      | None => NaN
      end
  end.

Definition sample_toFixed1 (n : number) : string :=
  match n with
  | NaN => "NaN"
  | Fin q =>
      let tenths := ((2 * 10 * Qnum q + Zpos (Qden q)) / (2 * Zpos (Qden q)))%Z in
      decimal (tenths / 10) ++ "." ++ decimal (tenths mod 10)
  end.

Definition sample_runtime : Runtime := {|
  ToString := sample_ToString;
  StringToNumber := sample_StringToNumber;
  toFixed1 := sample_toFixed1;
  toLocaleString := sample_ToString
|}.

(** A host that answers the n-th request with the n-th scripted reply. *)
Definition scripted_host (c : credentials) (topN : Z)
    (replies : list value) (pages : list response) : Host := {|
  getCredentials := fun _ => inr c;
  getNodeParameter_string := fun _ _ => "dengcao/Qwen3-Reranker-8B:Q3_K_M";
  getNodeParameter_number := fun _ _ => topN;
  httpRequest := fun n _ =>
    match replies !! n with
    | Some v => inr v
    | None => inl (HostError "connect ECONNREFUSED")
    end;
  fetch := fun n _ =>
    match pages !! n with
    | Some p => inr p
    | None => inl "fetch failed"
    end
|}.

Definition local_credentials : credentials :=
  {| baseUrl := Some "http://localhost:11434/"; apiKey := None |}.

Definition empty_credentials : credentials :=
  {| baseUrl := Some EmptyString; apiKey := None |}.

(** Text written with apostrophes where the JSON has double quotes. *)
Fixpoint json_text (s : string) : string :=
  match s with
  | String c r => String (if Ascii.eqb c "'" then ascii_of_N 34 else c) (json_text r)
  | EmptyString => EmptyString
  end.

(** A reply of [/api/chat] and a reply of [/api/generate]. *)
Definition chat_reply (content : string) : value :=
  VObj [("model", VStr "dengcao/Qwen3-Reranker-8B:Q3_K_M");
        ("message", VObj [("role", VStr "assistant"); ("content", VStr content)]);
        ("done", VBool true)].

Definition generate_reply (text : string) : value :=
  VObj [("model", VStr "dengcao/Qwen3-Reranker-8B:Q3_K_M");
        ("response", VStr text);
        ("done", VBool true)].

(** The reply of the specification's example and its bracketed part. *)
Definition sample_ranking_text : string :=
  json_text "Some text [{'index':2,'score':0.9},{'index':1,'score':0.4}] trailing".

Definition sample_array : string :=
  json_text "[{'index':2,'score':0.9},{'index':1,'score':0.4}]".

(** A reply of [/api/generate] without text. *)
Definition sample_silent_host : Host :=
  scripted_host local_credentials 3 [generate_reply EmptyString] [].

(** Three documents: the first without metadata, the second with a
    metadata object of its own, the third with [null] for metadata. *)
Definition sample_store : heap :=
  {[ 1%positive := {[ "pageContent" := VStr "Beijing is the capital of China." ]};
     2%positive := {[ "pageContent" := VStr "Gravity is a force that attracts masses.";
                      "metadata" := VRef 4%positive ]};
     3%positive := {[ "pageContent" := VStr "China is a country in East Asia.";
                      "metadata" := VNull ]};
     4%positive := {[ "source" := VStr "physics.txt" ]} ]}.

Definition sample_documents : list value :=
  [VRef 1%positive; VRef 2%positive; VRef 3%positive].

Definition sample_world : world := {| store := sample_store; requests := [] |}.

Definition sample_query : value := VStr "What is the capital of China?".

(** A successful reply of a model list with the body [data]. *)
Definition page (data : value) : response :=
  {| ok := true; status := 200; statusText := "OK"; json := Some data |}.

(** A host that answers every request with the same reply. *)
Definition steady_host (c : credentials) (topN : Z) (reply : value) : Host := {|
  getCredentials := fun _ => inr c;
  getNodeParameter_string := fun _ _ => "dengcao/Qwen3-Reranker-4B:Q5_K_M";
  getNodeParameter_number := fun _ _ => topN;
  httpRequest := fun _ _ => inr reply;
  fetch := fun _ _ => inr (page reply)
|}.

(** A host whose model list is the page [data]. *)
Definition sample_page_host (data : value) : Host :=
  scripted_host local_credentials 3 [] [page data].

(** A host whose credentials have an empty base URL. *)
Definition sample_nowhere_host : Host :=
  scripted_host empty_credentials 3 []
    [page (VObj [("models", VArr []); ("data", VArr [])])].

(** The replies say no, yes, yes; at most two documents are asked for. *)
Definition sample_chat_host : Host :=
  scripted_host local_credentials 2
    [chat_reply "No."; chat_reply "Yes, relevant."; chat_reply " yes "] [].

Definition sample_generate_host : Host :=
  scripted_host local_credentials 3 [generate_reply sample_ranking_text] [].

(** A reply of [/api/generate] that ranks document 1 and a document 7. *)
Definition sample_stray_host : Host :=
  scripted_host local_credentials 3
    [generate_reply (json_text "[{'index':1,'score':0.8},{'index':7,'score':0.5}]")] [].




(** A host without credentials. *)
Definition sample_locked_host : Host := {|
  getCredentials := fun _ => inl (HostError "Credentials not found");
  getNodeParameter_string := fun _ _ => "dengcao/Qwen3-Reranker-8B:Q3_K_M";
  getNodeParameter_number := fun _ _ => 3%Z;
  httpRequest := fun _ _ => inr VNull;
  fetch := fun _ _ => inl "fetch failed"
|}.

(** Credentials whose base URL is nothing but slashes. *)
Definition slash_credentials : credentials :=
  {| baseUrl := Some "//"; apiKey := None |}.

(** Hosts whose [topN] is -1: every document is answered Yes; the
    reply of the specification's example. *)
Definition sample_minus_one_chat_host : Host :=
  steady_host local_credentials (-1) (chat_reply "Yes").

Definition sample_minus_one_generate_host : Host :=
  scripted_host local_credentials (-1) [generate_reply sample_ranking_text] [].

(** * What is observed of a run

    The vocabulary of the statements below: relations between the world
    before and after a computation, and what a caller can see of a
    document in the store. *)

(** A property of the world that every step of a computation keeps. *)
Definition keeps {A} (P : world -> world -> Prop) (m : M A) : Prop :=
  forall w, P w (snd (m w)).

(** The store is as it was. *)
Definition same_store (w w' : world) : Prop := store w' = store w.

(** The log of requests is as it was. *)
Definition same_log (w w' : world) : Prop := requests w' = requests w.

(** [d.metadata], for a document that is an object of the store. *)
Definition metadata_of (h : heap) (d : value) : option value :=
  match d with
  | VRef l =>
      match h !! l with
      | Some o => o !! "metadata"
      | None => None
      end
  | _ => None
  end.

(** [d.metadata] is an object of the store that has a [relevanceScore]
    property. *)
Definition has_relevanceScore (h : heap) (d : value) : bool :=
  match metadata_of h d with
  | Some (VRef m) =>
      match h !! m with
      | Some mo => bool_decide (is_Some (mo !! "relevanceScore"))
      | None => false
      end
  | _ => false
  end.

(** What a call that returned the documents [out] may have done to the
    objects that existed before it: every property of every such object
    is as it was, unless it is

    - the [relevanceScore] of the object that is the metadata of a
      returned document, or
    - the [metadata] of a returned document that had none (nothing
      truthy), which is now a reference to an object that did not exist. *)
Definition frame (h : heap) (out : list value) (h' : heap) : Prop :=
  forall (l : loc) (o : object), h !! l = Some o ->
    exists o' : object, h' !! l = Some o' /\
      forall k : string,
        o' !! k = o !! k
        \/ (k = "relevanceScore" /\ is_Some (o' !! k) /\
            exists d, d ∈ out /\ metadata_of h' d = Some (VRef l))
        \/ (k = "metadata" /\ VRef l ∈ out /\
            truthy (default VUndef (o !! k)) = false /\
            exists m, o' !! k = Some (VRef m) /\ h !! m = None).

(** The relevance score of a result is the whole number [z]. *)
Definition scored (z : Z) (r : RerankResult) : bool :=
  match relevanceScore r with
  | VNum q => Qeq_bool q (ofZ z)
  | _ => false
  end.

(** Between [w] and [w'] requests were added to the log, all of them to
    the URL [u]. *)
Definition logged (u : string) (w w' : world) : Prop :=
  exists added,
    requests w' = (requests w ++ added)%list /\
    Forall (fun r => url r = u) added.

(** A run of [n] slashes. *)
Fixpoint slashes (n : nat) : string :=
  match n with
  | O => EmptyString
  | S n' => String "/" (slashes n')
  end.

(** A document as [compressDocuments] expects it: an object of the
    store whose [metadata] is missing (or falsy) or is an object of the
    store. *)
Definition well_formed_document (h : heap) (d : value) : Prop :=
  exists (l : loc) (o : object),
    d = VRef l /\ h !! l = Some o /\
    (truthy (default VUndef (o !! "metadata")) = false \/
     exists m : loc, o !! "metadata" = Some (VRef m) /\ is_Some (h !! m)).


(** [n] is a position of [arr]: a whole number from 0 to the length
    minus one. *)
Definition valid_index (arr : list value) (n : number) : bool :=
  match n with
  | Fin q =>
      Z.eqb (Qnum q mod Zpos (Qden q)) 0 && (0 <=? Qnum q)%Z
      && (Qnum q / Zpos (Qden q) <? Z.of_nat (length arr))%Z
  | NaN => false
  end.

(** Every object of the store is still there and has, for each property
    other than [metadata] and [relevanceScore], the value it had. *)
Definition content_kept (w w' : world) : Prop :=
  forall (l : loc) (o : object), store w !! l = Some o ->
    exists o' : object, store w' !! l = Some o' /\
      forall k : string, k <> "metadata" -> k <> "relevanceScore" -> o' !! k = o !! k.

(** [doc.pageContent] read in the store [h]; [None] when the read
    throws. *)
Definition read_pageContent (h : heap) (doc : value) : option value :=
  match fst (get_prop doc "pageContent" {| store := h; requests := [] |}) with
  | inr content => Some content
  | inl _ => None
  end.

(** The request that the classification variant makes for a document
    with the page content [content]. *)
Definition chat_request `{Runtime} `{Host} (itemIndex : Z) (c : credentials)
    (query content : value) : http_request :=
  {| method := "POST";
     url := rerank_baseUrl c ++ "/api/chat";
     headers := request_headers c;
     body := ChatPayload (getNodeParameter_string "model" itemIndex)
               (Qwen.grading_prompt query content) |}.

(** What [JSON.parse] can put into an array: anything but [undefined]
    and references to objects of the store. *)
Definition json_entry (v : value) : bool :=
  match v with
  | VUndef | VRef _ => false
  | _ => true
  end.

(** Converting the entry [e] of a reply throws: the entry is [null], so
    that its [index] cannot be read, or its [index] does not convert to
    a primitive, so that [r.index - 1] throws. *)
Definition entry_throws (h : heap) (e : value) : bool :=
  match e with
  | VNull => true
  | VObj fields => unconvertible h (field "index" fields)
  | _ => false
  end.

(** The outermost open container is an array. *)
Definition rooted (stack : list JS.frame) : bool :=
  match last stack with
  | Some (FArr _) => true
  | _ => false
  end.

(** The entries gathered so far in the open arrays. *)
Definition gathered (stack : list JS.frame) : list value :=
  concat (map (fun f => match f with FArr done => done | FObj _ _ => [] end) stack).

(** What holds of the parser's state once the first token was an opening
    bracket: the outermost container is an array, or the value is
    complete and is an array; and the entries of arrays are JSON
    values. *)
Definition array_rooted (st : pstate) : Prop :=
  match st with
  | SValue stack | SObjFirst stack | SObjAfter _ stack | SKey _ stack
  | SColon _ _ stack =>
      rooted stack = true /\ Forall (fun v => json_entry v = true) (gathered stack)
  | SArrFirst stack =>
      (stack = [] \/ rooted stack = true) /\
      Forall (fun v => json_entry v = true) (gathered stack)
  | SArrAfter done stack =>
      (stack = [] \/ rooted stack = true) /\
      Forall (fun v => json_entry v = true) (done ++ gathered stack)
  | SDone v =>
      exists items, v = VArr items /\ Forall (fun e => json_entry e = true) items
  end.


(** Whatever was a well-formed document still is one. *)
Definition documents_kept (w w' : world) : Prop :=
  forall d : value,
    well_formed_document (store w) d -> well_formed_document (store w') d.

(** The letters A to Z lowered and every other byte kept: what
    [toLowerCase] does where the two special characters do not occur. *)
Fixpoint lower_letters (s : string) : string :=
  match s with
  | String c r => String (lower_char c) (lower_letters r)
  | EmptyString => EmptyString
  end.

(** A byte of U+0130, of the Kelvin sign or of their lower case. *)
Definition special_byte (a : ascii) : bool :=
  Ascii.eqb a "i" || Ascii.eqb a "k"
  || Ascii.eqb a (ascii_of_N 196) || Ascii.eqb a (ascii_of_N 176)
  || Ascii.eqb a (ascii_of_N 204) || Ascii.eqb a (ascii_of_N 135)
  || Ascii.eqb a (ascii_of_N 226) || Ascii.eqb a (ascii_of_N 132)
  || Ascii.eqb a (ascii_of_N 170).

(** A word without such bytes. *)
Fixpoint plain (p : string) : bool :=
  match p with
  | String a r => negb (special_byte a) && plain r
  | EmptyString => true
  end.

(** [v?.k]: the property [k] of [v], and [undefined] where [v] is
    [undefined] or [null] or has no such property. *)
Definition optional_prop (h : heap) (v : value) (k : string) : value :=
  match v with
  | VObj fields => field k fields
  | VRef l =>
      match h !! l with
      | Some o => default VUndef (o !! k)
      | None => VUndef
      end
  | _ => VUndef
  end.

(** The reply text of the classification variant: [message.content] of
    the reply, where there is one and it is a string. *)
Definition reply_message (h : heap) (reply : value) : option string :=
  match optional_prop h (optional_prop h reply "message") "content" with
  | VStr s => Some s
  | _ => None
  end.

(** The score in the words of the specification: 1 when the reply text,
    trimmed and in lower case, contains [yes], and 0 otherwise; a reply
    without text contains nothing. *)
Definition spec_score (text : option string) : Z :=
  match text with
  | Some s => if includes "yes" (toLowerCase (trim s)) then 1 else 0
  | None => 0
  end.

(** A reply that has a text or none: it is no object of the store, and
    its [message], where it is an object, has a string for [content], or
    [null], or nothing. *)
Definition text_or_nothing (reply : value) : bool :=
  match reply with
  | VRef _ => false
  | VObj fields =>
      match field "message" fields with
      | VRef _ => false
      | VObj message =>
          match field "content" message with
          | VUndef | VNull | VStr _ => true
          | _ => false
          end
      | _ => true
      end
  | _ => true
  end.

(** * Properties *)

Local Open Scope list_scope.

(** ** Reasoning about computations *)

Lemma bind_inr {A B} (m : M A) (k : A -> M B) w b w' :
  bind m k w = (inr b, w') ->
  exists a w1, m w = (inr a, w1) /\ k a w1 = (inr b, w').
Proof.
  unfold bind. destruct (m w) as [[e|a] w1]; intros E.
  - discriminate.
  - eauto.
Qed.

Lemma bind_run {A B} (m : M A) (k : A -> M B) w a w1 :
  m w = (inr a, w1) -> bind m k w = k a w1.
Proof. unfold bind. intros ->. reflexivity. Qed.

Lemma bind_fail {A B} (m : M A) (k : A -> M B) w e w1 :
  m w = (inl e, w1) -> bind m k w = (inl e, w1).
Proof. unfold bind. intros ->. reflexivity. Qed.

Lemma mapM_inr {A B} (f : A -> M B) l w out w' :
  mapM f l w = (inr out, w') ->
  length out = length l.
Proof.
  revert w out. induction l as [|x l IH]; simpl; intros w out E.
  - inversion E. reflexivity.
  - apply bind_inr in E as (y & w1 & _ & E).
    apply bind_inr in E as (ys & w2 & E & E').
    inversion E'; subst. simpl. f_equal. eauto.
Qed.

Section Keeps.
Context (P : relation world) `{!PreOrder P}.

Lemma keeps_ret {A} (a : A) : keeps P (ret a).
Proof. intros w. reflexivity. Qed.

Lemma keeps_throw {A} e : keeps P (@throw A e).
Proof. intros w. reflexivity. Qed.

Lemma keeps_lift {A} (r : error + A) : keeps P (lift r).
Proof. intros w. reflexivity. Qed.

Lemma keeps_bind {A B} (m : M A) (k : A -> M B) :
  keeps P m -> (forall a, keeps P (k a)) -> keeps P (bind m k).
Proof.
  intros Hm Hk w. unfold bind. specialize (Hm w).
  destruct (m w) as [[e|a] w1]; simpl in *.
  - exact Hm.
  - etransitivity; [exact Hm | apply Hk].
Qed.

Lemma keeps_attempt {A} (m : M A) : keeps P m -> keeps P (attempt m).
Proof.
  intros Hm w. unfold attempt. specialize (Hm w).
  destruct (m w) as [r w1]. exact Hm.
Qed.

Lemma keeps_mapM {A B} (f : A -> M B) l :
  (forall x, keeps P (f x)) -> keeps P (mapM f l).
Proof.
  intros Hf. induction l as [|x l IH]; simpl.
  - apply keeps_ret.
  - apply keeps_bind; [apply Hf | intros y].
    apply keeps_bind; [exact IH | intros ys]. apply keeps_ret.
Qed.

Lemma keeps_get_prop v k : keeps P (get_prop v k).
Proof.
  intros w. unfold get_prop.
  destruct v; simpl; try reflexivity.
  destruct (store w !! l); reflexivity.
Qed.

Lemma keeps_ToPrimitive v : keeps P (ToPrimitive v).
Proof.
  intros w. unfold ToPrimitive.
  destruct (unconvertible (store w) v); reflexivity.
Qed.

Lemma keeps_ToNumber `{Runtime} v : keeps P (ToNumber v).
Proof.
  unfold ToNumber. apply keeps_bind; [apply keeps_ToPrimitive | intros p].
  apply keeps_ret.
Qed.
End Keeps.

#[export] Instance same_store_preorder : PreOrder same_store.
Proof. split; unfold same_store; [intros w | intros w1 w2 w3]; congruence. Qed.

#[export] Instance same_log_preorder : PreOrder same_log.
Proof. split; unfold same_log; [intros w | intros w1 w2 w3]; congruence. Qed.

Ltac keeps_step :=
  first
    [ apply keeps_ret; exact _
    | apply keeps_throw; exact _
    | apply keeps_lift; exact _
    | apply keeps_get_prop; exact _
    | apply keeps_ToPrimitive; exact _
    | apply keeps_ToNumber; exact _
    | apply keeps_attempt
    | apply keeps_mapM; [exact _ | intros ?]
    | apply keeps_bind; [exact _ | | intros ?] ].

Section StoreFacts.
Context `{Runtime} `{Host}.

Lemma call_httpRequest_store r : keeps same_store (call_httpRequest r).
Proof. intros w. reflexivity. Qed.

Lemma reply_text_store response : keeps same_store (reply_text response).
Proof.
  unfold reply_text. keeps_step; [keeps_step|].
  destruct (truthy a); [keeps_step|].
  keeps_step; [keeps_step|]. destruct (truthy a0); keeps_step.
Qed.

Lemma ranking_store r : keeps same_store (ranking r).
Proof. unfold ranking. repeat keeps_step. Qed.

Lemma parse_rankings_store itemIndex topN response :
  keeps same_store (parse_rankings itemIndex topN response).
Proof.
  unfold parse_rankings. keeps_step; [apply reply_text_store|].
  destruct a; try keeps_step.
  destruct (matchArray s); [|keeps_step].
  destruct (JSON_parse s0) as [[]|]; try keeps_step.
  apply ranking_store.
Qed.

Lemma passage_store i doc : keeps same_store (passage i doc).
Proof. unfold passage. repeat keeps_step. Qed.

Lemma rerank_store itemIndex documents query :
  keeps same_store (rerank itemIndex documents query).
Proof.
  unfold rerank. keeps_step; [keeps_step|].
  keeps_step; [keeps_step; apply passage_store|].
  keeps_step; [apply call_httpRequest_store|].
  apply parse_rankings_store.
Qed.

Lemma answer_of_store response : keeps same_store (Qwen.answer_of response).
Proof.
  unfold Qwen.answer_of. destruct (nullish response); [keeps_step|].
  keeps_step; [keeps_step|]. destruct (nullish a); [keeps_step|].
  keeps_step; [keeps_step|]. destruct (nullish a0); [keeps_step|].
  destruct a0; keeps_step.
Qed.

Lemma rerankCall_store model url headers query i doc :
  keeps same_store (Qwen.rerankCall model url headers query i doc).
Proof.
  unfold Qwen.rerankCall. keeps_step; [keeps_step|].
  keeps_step; [apply call_httpRequest_store|].
  keeps_step; [apply answer_of_store|]. keeps_step.
Qed.

Lemma rerankQwen_store itemIndex documents query :
  keeps same_store (Qwen.rerankQwen itemIndex documents query).
Proof.
  unfold Qwen.rerankQwen. keeps_step; [keeps_step|].
  keeps_step; [|keeps_step; keeps_step].
  keeps_step. keeps_step. apply rerankCall_store.
Qed.
End StoreFacts.

(** ** The store: what [attach] does *)

Lemma get_prop_inr v k w x w' :
  get_prop v k w = (inr x, w') ->
  w' = w /\
  match v with
  | VUndef | VNull => False
  | VObj fields => x = field k fields
  | VRef l => exists o, store w !! l = Some o /\ x = default VUndef (o !! k)
  | _ => x = VUndef
  end.
Proof.
  unfold get_prop. destruct v; intros E; try (inversion E; subst; auto; fail).
  destruct (store w !! l) as [o|] eqn:El; inversion E; subst. eauto.
Qed.

Lemma set_prop_inr v k x w u w' :
  set_prop v k x w = (inr u, w') ->
  exists l o,
    v = VRef l /\ store w !! l = Some o /\
    w' = {| store := <[l := <[k := x]> o]> (store w); requests := requests w |}.
Proof.
  unfold set_prop. destruct v; intros E; try discriminate.
  destruct (store w !! l) as [o|] eqn:El; inversion E; subst. eauto.
Qed.

Lemma fresh_store_None (h : heap) : h !! fresh (dom h) = None.
Proof. apply not_elem_of_dom. apply is_fresh. Qed.

Section AttachFacts.
Context `{Runtime} `{Host}.

Lemma attach_inr docs r w d w' :
  attach docs r w = (inr d, w') ->
  exists l o,
    d = VRef l /\ element docs (index r) = VRef l /\
    store w !! l = Some o /\ requests w' = requests w /\
    ((exists m mo,
        o !! "metadata" = Some (VRef m) /\ store w !! m = Some mo /\
        store w' = <[m := <["relevanceScore" := relevanceScore r]> mo]> (store w))
     \/ (truthy (default VUndef (o !! "metadata")) = false /\
         store w' =
           <[fresh (dom (store w)) := {["relevanceScore" := relevanceScore r]}]>
             (<[l := <["metadata" := VRef (fresh (dom (store w)))]> o]> (store w)))).
Proof.
  unfold attach. intros E.
  apply bind_inr in E as (old & w1 & E1 & E).
  apply bind_inr in E as (md & w2 & E2 & E).
  apply bind_inr in E as ([] & w3 & E3 & E).
  apply bind_inr in E as (md' & w4 & E4 & E).
  apply bind_inr in E as ([] & w5 & E5 & E).
  apply get_prop_inr in E1 as [Ew E1]. subst w1.
  apply set_prop_inr in E3 as (l & o2 & Edoc & El2 & Ew). subst w3.
  rewrite Edoc in *. destruct E1 as (o & El & Eold). subst old.
  apply get_prop_inr in E4 as [Ew (o3 & El3 & Emd)]. subst w4 md'. simpl in El3.
  rewrite lookup_insert_eq in El3. inversion El3; subst o3; clear El3.
  rewrite lookup_insert_eq in E5. simpl in E5.
  apply set_prop_inr in E5 as (m & mo & Emd & Em & Ew). subst md w5. simpl in *.
  unfold ret in E. inversion E; subst d w'; clear E. simpl.
  exists l, o. split; [reflexivity|]. split; [reflexivity|]. split; [exact El|].
  destruct (truthy (default VUndef (o !! "metadata"))) eqn:Et.
  - unfold ret in E2. inversion E2 as [[Emd Ew]]. subst w2. clear E2.
    rewrite El in El2. inversion El2; subst o2. clear El2.
    assert (Eo : o !! "metadata" = Some (VRef m)).
    { destruct (o !! "metadata") as [v|]; simpl in *; [congruence | discriminate]. }
    rewrite ?Eo in Em. simpl in Em.
    rewrite (insert_id o "metadata" (VRef m) Eo) in Em.
    rewrite (insert_id (store w) l o El) in Em.
    split; [reflexivity|]. left. exists m, mo.
    split; [exact Eo|]. split; [exact Em|].
    rewrite ?Eo. simpl.
    rewrite (insert_id o "metadata" (VRef m) Eo).
    rewrite (insert_id (store w) l o El). reflexivity.
  - unfold new_object in E2. inversion E2 as [[Emd Ew]]. subst w2 m. clear E2. simpl in *.
    pose proof (fresh_store_None (store w)) as Hf.
    assert (l <> fresh (dom (store w))) by congruence.
    rewrite lookup_insert_ne in El2 by congruence.
    rewrite El in El2. inversion El2; subst o2. clear El2.
    rewrite lookup_insert_ne in Em by congruence.
    rewrite lookup_insert_eq in Em. inversion Em; subst mo. clear Em.
    split; [reflexivity|]. right. split; [reflexivity|].
    apply map_eq. intros j.
    destruct (decide (j = fresh (dom (store w)))) as [->|Hj].
    + rewrite !lookup_insert_eq. reflexivity.
    + rewrite !(lookup_insert_ne _ (fresh (dom (store w)))) by congruence.
      destruct (decide (j = l)) as [->|Hl].
      * rewrite !lookup_insert_eq. reflexivity.
      * rewrite !(lookup_insert_ne _ l) by congruence.
        rewrite lookup_insert_ne by congruence. reflexivity.
Qed.
End AttachFacts.

Lemma frame_refl h : frame h [] h.
Proof. intros l o Hl. exists o. split; [exact Hl|]. intros k. left. reflexivity. Qed.

Lemma frame_dom h out h' (m : loc) : frame h out h' -> h' !! m = None -> h !! m = None.
Proof.
  intros F Hm. destruct (h !! m) as [o|] eqn:E; [|reflexivity].
  destruct (F m o E) as (o' & Ho' & _). congruence.
Qed.

Lemma metadata_of_frame h out h' d (m : loc) :
  frame h out h' ->
  metadata_of h d = Some (VRef m) -> metadata_of h' d = Some (VRef m).
Proof.
  intros F. destruct d as [| | | | | | |ld]; simpl; try discriminate.
  destruct (h !! ld) as [od|] eqn:Eld; [|discriminate]. intros Emd.
  destruct (F ld od Eld) as (od' & -> & Hk).
  destruct (Hk "metadata") as [E | [(E & _) | (_ & _ & E & _)]].
  - congruence.
  - discriminate.
  - rewrite Emd in E. discriminate.
Qed.

Lemma frame_trans h1 a h2 b h3 :
  frame h1 a h2 -> frame h2 b h3 -> frame h1 (a ++ b) h3.
Proof.
  intros F1 F2 l o Hl.
  destruct (F1 l o Hl) as (o1 & Hl1 & K1).
  destruct (F2 l o1 Hl1) as (o2 & Hl2 & K2).
  exists o2. split; [exact Hl2|]. intros k.
  destruct (K2 k) as [E2 | [(-> & S2 & d & Hd & Md) | (-> & Hin & T2 & m & Em & Hm)]].
  - destruct (K1 k) as [E1 | [(-> & S1 & d & Hd & Md) | (-> & Hin & T1 & m & Em & Hm)]].
    + left. congruence.
    + right; left. split; [reflexivity|]. split; [congruence|].
      exists d. split; [apply elem_of_app; auto|].
      eapply metadata_of_frame; eauto.
    + right; right. split; [reflexivity|]. split; [apply elem_of_app; auto|].
      split; [exact T1|]. exists m. split; congruence.
  - right; left. split; [reflexivity|]. split; [exact S2|].
    exists d. split; [apply elem_of_app; auto | exact Md].
  - destruct (K1 "metadata") as [E1 | [(E & _) | (_ & _ & _ & m1 & Em1 & _)]].
    + right; right. split; [reflexivity|]. split; [apply elem_of_app; auto|].
      split; [congruence|]. exists m. split; [exact Em|].
      eapply frame_dom; eauto.
    + discriminate.
    + rewrite Em1 in T2. discriminate.
Qed.

Lemma has_relevanceScore_frame h out h' d :
  frame h out h' ->
  has_relevanceScore h d = true -> has_relevanceScore h' d = true.
Proof.
  intros F. unfold has_relevanceScore.
  destruct (metadata_of h d) as [[| | | | | | |m]|] eqn:Emd; try discriminate.
  rewrite (metadata_of_frame _ _ _ _ _ F Emd).
  destruct (h !! m) as [mo|] eqn:Em; [|discriminate].
  destruct (F m mo Em) as (mo' & -> & K).
  rewrite !bool_decide_eq_true. intros S.
  destruct (K "relevanceScore") as [E | [(_ & S' & _) | (E & _)]].
  - congruence.
  - exact S'.
  - discriminate.
Qed.

Lemma element_defined arr n v :
  element arr n = v -> v <> VUndef -> v ∈ arr /\ valid_index arr n = true.
Proof.
  unfold element, valid_index. destruct n as [|q]; [congruence|].
  destruct (Z.eqb (Qnum q mod Zpos (Qden q)) 0 && (0 <=? Qnum q)%Z) eqn:E; [|congruence].
  simpl. intros Hn Hv.
  apply andb_true_iff in E as [_ Hpos]. apply Z.leb_le in Hpos.
  assert (Hd : (0 <= Qnum q / Z.pos (Qden q))%Z) by (apply Z.div_pos; lia).
  destruct (Nat.lt_ge_cases (Z.to_nat (Qnum q / Z.pos (Qden q))) (length arr)) as [Hlt|Hge].
  - split.
    + rewrite <- Hn. apply list_elem_of_In. apply nth_In. exact Hlt.
    + apply Z.ltb_lt. lia.
  - rewrite nth_overflow in Hn by lia. congruence.
Qed.

Section AttachFrame.
Context `{Runtime} `{Host}.

Lemma attach_frame docs r w d w' :
  attach docs r w = (inr d, w') -> frame (store w) [d] (store w').
Proof.
  intros E. apply attach_inr in E as (l & o & -> & _ & El & _ & [(m & mo & Eo & Em & ->) | (Et & ->)]).
  - intros l0 o0 Hl0. destruct (decide (l0 = m)) as [->|Hne].
    + rewrite lookup_insert_eq. eexists. split; [reflexivity|]. intros k.
      assert (o0 = mo) by congruence. subst o0.
      destruct (decide (k = "relevanceScore")) as [->|Hk].
      * right; left. split; [reflexivity|]. rewrite lookup_insert_eq.
        split; [eauto|]. exists (VRef l). split; [apply list_elem_of_singleton; reflexivity|].
        simpl. destruct (decide (l = m)) as [->|Hlm].
        -- rewrite lookup_insert_eq. rewrite lookup_insert_ne by discriminate.
           congruence.
        -- rewrite lookup_insert_ne by congruence. rewrite El. exact Eo.
      * left. rewrite lookup_insert_ne by congruence. reflexivity.
    + rewrite lookup_insert_ne by congruence. exists o0. split; [exact Hl0|].
      intros k. left. reflexivity.
  - pose proof (fresh_store_None (store w)) as Hf.
    intros l0 o0 Hl0.
    rewrite lookup_insert_ne by congruence.
    destruct (decide (l0 = l)) as [->|Hne].
    + rewrite lookup_insert_eq. eexists. split; [reflexivity|]. intros k.
      assert (o0 = o) by congruence. subst o0.
      destruct (decide (k = "metadata")) as [->|Hk].
      * right; right. split; [reflexivity|].
        split; [apply list_elem_of_singleton; reflexivity|].
        split; [exact Et|]. eexists. rewrite lookup_insert_eq. split; [reflexivity | exact Hf].
      * left. rewrite lookup_insert_ne by congruence. reflexivity.
    + rewrite lookup_insert_ne by congruence. exists o0. split; [exact Hl0|].
      intros k. left. reflexivity.
Qed.

Lemma attach_has_relevanceScore docs r w d w' :
  attach docs r w = (inr d, w') -> has_relevanceScore (store w') d = true.
Proof.
  intros E. apply attach_inr in E as (l & o & -> & _ & El & _ & [(m & mo & Eo & Em & ->) | (Et & ->)]).
  - unfold has_relevanceScore, metadata_of.
    destruct (decide (l = m)) as [->|Hlm].
    + rewrite !lookup_insert_eq. rewrite lookup_insert_ne by discriminate.
      assert (o = mo) by congruence. subst o. rewrite Eo.
      rewrite lookup_insert_eq. rewrite lookup_insert_eq. apply bool_decide_eq_true. eauto.
    + rewrite lookup_insert_ne by congruence. rewrite El, Eo.
      rewrite lookup_insert_eq. rewrite lookup_insert_eq. apply bool_decide_eq_true. eauto.
  - pose proof (fresh_store_None (store w)) as Hf.
    unfold has_relevanceScore, metadata_of.
    rewrite lookup_insert_ne by congruence. rewrite lookup_insert_eq.
    rewrite lookup_insert_eq. rewrite lookup_insert_eq.
    rewrite lookup_singleton_eq. apply bool_decide_eq_true. eauto.
Qed.

Lemma attach_element docs r w d w' :
  attach docs r w = (inr d, w') ->
  d = element docs (index r) /\ d ∈ docs /\ valid_index docs (index r) = true /\
  requests w' = requests w.
Proof.
  intros E. apply attach_inr in E as (l & o & -> & Ed & _ & Er & _).
  split; [congruence|].
  destruct (element_defined docs (index r) (VRef l) Ed) as [? ?]; [discriminate|]. auto.
Qed.

Lemma mapM_attach docs results w out w' :
  mapM (attach docs) results w = (inr out, w') ->
  out = map (fun r => element docs (index r)) results /\
  Forall (fun d => d ∈ docs) out /\
  Forall (fun r => valid_index docs (index r) = true) results /\
  Forall (fun d => has_relevanceScore (store w') d = true) out /\
  frame (store w) out (store w') /\
  requests w' = requests w.
Proof.
  revert w out. induction results as [|r rs IH]; simpl; intros w out E.
  - inversion E; subst. repeat split; auto using frame_refl.
  - apply bind_inr in E as (d & w1 & E1 & E).
    apply bind_inr in E as (ds & w2 & E2 & E).
    inversion E; subst out w'; clear E.
    destruct (IH _ _ E2) as (Eds & Hin & Hval & Hsc & Hfr & Hrq).
    pose proof (attach_frame _ _ _ _ _ E1) as F1.
    pose proof (attach_has_relevanceScore _ _ _ _ _ E1) as S1.
    destruct (attach_element _ _ _ _ _ E1) as (Ed & Hd & Hv & Hr1).
    split; [simpl; congruence|].
    split; [constructor; assumption|].
    split; [constructor; assumption|].
    split; [constructor; [eapply has_relevanceScore_frame; eauto | assumption]|].
    split; [apply (frame_trans _ [d] _ ds _ F1 Hfr) | congruence].
Qed.
End AttachFrame.

(** ** Cutting to [topN] *)

Lemma slice0_min_take {A} (l : list A) (topN : Z) :
  (0 <= topN)%Z ->
  slice0 l (Z.min topN (Z.of_nat (length l))) = take (Z.to_nat topN) l.
Proof.
  intros Hn. unfold slice0.
  destruct (Z.ltb_spec (Z.min topN (Z.of_nat (length l))) 0) as [Hlt|Hge]; [lia|].
  destruct (Z.le_ge_cases topN (Z.of_nat (length l))) as [Hle|Hle].
  - f_equal. lia.
  - rewrite !take_ge by lia. reflexivity.
Qed.

Lemma slice0_length {A} (l : list A) (topN : Z) :
  (0 <= topN)%Z ->
  (Z.of_nat (length (slice0 l (Z.min topN (Z.of_nat (length l))))) <= topN)%Z.
Proof.
  intros Hn. rewrite slice0_min_take by exact Hn.
  rewrite length_take. lia.
Qed.

Lemma slice0_prefix {A} (l : list A) (e : Z) : exists n, slice0 l e = take n l.
Proof. unfold slice0. eauto. Qed.

Lemma slice0_more {A} (l : list A) (topN : Z) :
  (Z.of_nat (length l) <= topN)%Z ->
  slice0 l (Z.min topN (Z.of_nat (length l))) = l.
Proof.
  intros Hn. rewrite slice0_min_take by lia. apply take_ge. lia.
Qed.

Section CountFacts.
Context `{Runtime} `{Host}.

Lemma parse_rankings_length itemIndex topN response w results w' :
  (0 <= topN)%Z ->
  parse_rankings itemIndex topN response w = (inr results, w') ->
  (Z.of_nat (length results) <= topN)%Z.
Proof.
  intros Hn E. unfold parse_rankings in E.
  apply bind_inr in E as (text & w1 & _ & E).
  destruct text; try discriminate.
  destruct (matchArray s); [|discriminate].
  destruct (JSON_parse s0) as [[]|]; try discriminate.
  apply mapM_inr in E. rewrite E. apply slice0_length. exact Hn.
Qed.

Lemma rerank_length itemIndex documents query w results w' :
  (0 <= getNodeParameter_number "topN" itemIndex)%Z ->
  rerank itemIndex documents query w = (inr results, w') ->
  (Z.of_nat (length results) <= getNodeParameter_number "topN" itemIndex)%Z.
Proof.
  intros Hn E. unfold rerank in E.
  apply bind_inr in E as (c & w1 & _ & E).
  apply bind_inr in E as (ps & w2 & _ & E).
  apply bind_inr in E as (resp & w3 & _ & E).
  eapply parse_rankings_length; eauto.
Qed.

Lemma sort_length {A} (before : A -> A -> bool) (l : list A) :
  length (sort before l) = length l.
Proof.
  induction l as [|x l IH]; simpl; [reflexivity|].
  rewrite <- IH. generalize (sort before l). intros s.
  induction s as [|y s IHs]; simpl; [reflexivity|].
  destruct (before y x); simpl; congruence.
Qed.

Lemma rerankQwen_length itemIndex documents query w results w' :
  (0 <= getNodeParameter_number "topN" itemIndex)%Z ->
  Qwen.rerankQwen itemIndex documents query w = (inr results, w') ->
  (Z.of_nat (length results) <= getNodeParameter_number "topN" itemIndex)%Z.
Proof.
  intros Hn E. unfold Qwen.rerankQwen in E.
  apply bind_inr in E as (c & w1 & _ & E).
  apply bind_inr in E as (os & w2 & _ & E).
  apply bind_inr in E as (rs & w3 & _ & E).
  inversion E; subst. apply slice0_length. exact Hn.
Qed.
End CountFacts.

(** ** [compressDocuments] *)

Section CompressFacts.
Context `{Runtime} `{Host}.

Lemma compressDocuments_with_inr reranker docs query w out w' :
  compressDocuments_with reranker (Some docs) query w = (inr out, w') ->
  (docs = [] /\ out = [] /\ w' = w) \/
  (docs <> [] /\ exists results w1,
     reranker docs query w = (inr results, w1) /\
     mapM (attach docs) results w1 = (inr out, w')).
Proof.
  destruct docs as [|d docs]; simpl; intros E.
  - left. inversion E. auto.
  - right. split; [discriminate|].
    apply bind_inr in E as (results & w1 & E1 & E2). eauto.
Qed.

Lemma frame_unchanged h out h' (l : loc) (o : object) :
  frame h out h' ->
  h !! l = Some o ->
  VRef l ∉ out ->
  (forall d, d ∈ out -> metadata_of h' d <> Some (VRef l)) ->
  h' !! l = Some o.
Proof.
  intros F Hl Hout Hmd. destruct (F l o Hl) as (o' & -> & K).
  f_equal. apply map_eq. intros k.
  destruct (K k) as [E | [(_ & _ & d & Hd & Md) | (_ & Hin & _)]].
  - exact E.
  - destruct (Hmd d Hd Md).
  - destruct (Hout Hin).
Qed.
End CompressFacts.

(** C4. For an empty or missing list of documents, [compressDocuments]
    of each of the three listings returns the empty list and leaves the
    world as it was: the store is untouched and the log of requests has
    not grown, where every call of the HTTP helper or of [fetch],
    answered or not, adds its request to the log. *)
Theorem compressDocuments_empty_no_request `{Runtime} `{Host}
    (itemIndex : Z) (query : value) (w : world) :
  (Qwen.compressDocuments itemIndex None query w = (inr [], w) /\
   Qwen.compressDocuments itemIndex (Some []) query w = (inr [], w) /\
   Generate.compressDocuments itemIndex None query w = (inr [], w) /\
   Generate.compressDocuments itemIndex (Some []) query w = (inr [], w) /\
   OpenAI.compressDocuments itemIndex None query w = (inr [], w) /\
   OpenAI.compressDocuments itemIndex (Some []) query w = (inr [], w)) /\
  (forall r w0,
     requests (snd (call_httpRequest r w0)) = requests w0 ++ [r] /\
     requests (snd (call_fetch r w0)) = requests w0 ++ [r]).
Proof. split; [repeat split | intros r w0; split; reflexivity]. Qed.

(** C10. What [compressDocuments] returns are the input documents
    themselves: the k-th returned value is the element of the input list
    at the index of the k-th result of the reranker, the reranker having
    left the store alone.  On the objects that existed before the call,
    the only changes are the [relevanceScore] property of the metadata
    object of a returned document and the [metadata] property of a
    returned document that had none, which then refers to a new object
    ([frame]).  In particular an object that is neither a returned
    document nor the metadata object of one is exactly as it was. *)
Theorem compressDocuments_frame `{Runtime} `{Host}
    (itemIndex : Z) (docs : list value) (query : value) (w w' : world)
    (out : list value)
    (reranker : list value -> value -> M (list RerankResult))
    (compress : option (list value) -> value -> M (list value)) :
  In (reranker, compress)
     [(Qwen.rerankQwen itemIndex, Qwen.compressDocuments itemIndex);
      (rerank itemIndex, Generate.compressDocuments itemIndex);
      (rerank itemIndex, OpenAI.compressDocuments itemIndex)] ->
  docs <> [] ->
  compress (Some docs) query w = (inr out, w') ->
  (exists results w1,
     reranker docs query w = (inr results, w1) /\ store w1 = store w /\
     out = map (fun r => element docs (index r)) results) /\
  Forall (fun d => d ∈ docs) out /\
  frame (store w) out (store w') /\
  (forall (l : loc) (o : object),
     store w !! l = Some o ->
     VRef l ∉ out ->
     (forall d, d ∈ out -> metadata_of (store w') d <> Some (VRef l)) ->
     store w' !! l = Some o).
Proof.
  intros Hin Hne E.
  assert (compress = compressDocuments_with reranker /\
          keeps same_store (reranker docs query)) as [-> Hkeep].
  { simpl in Hin. destruct Hin as [Hp|[Hp|[Hp|[]]]]; inversion Hp; subst;
      (split; [reflexivity|]); auto using rerankQwen_store, rerank_store. }
  apply compressDocuments_with_inr in E as [(? & _) | (_ & results & w1 & E1 & E2)];
    [contradiction|].
  pose proof (Hkeep w) as Hs. rewrite E1 in Hs. simpl in Hs. unfold same_store in Hs.
  apply mapM_attach in E2 as (Eout & Hdocs & _ & _ & Hfr & _).
  rewrite Hs in Hfr.
  split; [exists results, w1; auto|].
  split; [exact Hdocs|]. split; [exact Hfr|].
  intros l o Hl Hn Hm. eapply frame_unchanged; eauto.
Qed.

Lemma compressDocuments_frame_witness :
  exists out w',
    @Generate.compressDocuments sample_runtime sample_generate_host 0
      (Some sample_documents) sample_query sample_world = (inr out, w') /\
    out = [VRef 2%positive; VRef 1%positive] /\
    frame sample_store out (store w') /\
    store w' !! 3%positive = sample_store !! 3%positive.
Proof.
  eexists _, _. split; [vm_compute; reflexivity|].
  split; [reflexivity|].
  pose proof (@compressDocuments_frame sample_runtime sample_generate_host 0
           sample_documents sample_query sample_world _ _
           (@rerank sample_runtime sample_generate_host 0)
           (@Generate.compressDocuments sample_runtime sample_generate_host 0)
           ltac:(simpl; auto) ltac:(discriminate) ltac:(vm_compute; reflexivity))
    as (_ & _ & F & U).
  split; [exact F|].
  apply (U 3%positive).
  - reflexivity.
  - intros Hin. repeat (apply elem_of_cons in Hin as [Hin|Hin]; [discriminate|]).
    inversion Hin.
  - intros d Hd.
    repeat (apply elem_of_cons in Hd as [->|Hd]; [vm_compute; discriminate|]).
    inversion Hd.
Defined.

(** ** Sorting results whose scores are 0 or 1 *)

Section SortFacts.
Context {A : Type} (before : A -> A -> bool).

Lemma insert_sorted_head x l :
  (forall y, head l = Some y -> before y x = false) ->
  insert_sorted before x l = x :: l.
Proof.
  destruct l as [|y l]; simpl; [reflexivity|].
  intros Hy. rewrite (Hy y eq_refl). reflexivity.
Qed.

Lemma insert_sorted_skip x a b :
  (forall y, y ∈ a -> before y x = true) ->
  insert_sorted before x (a ++ b) = a ++ insert_sorted before x b.
Proof.
  induction a as [|y a IH]; simpl; intros Hy; [reflexivity|].
  rewrite (Hy y) by (apply elem_of_cons; auto).
  f_equal. apply IH. intros z Hz. apply Hy. apply elem_of_cons. auto.
Qed.

Lemma sort_two_classes (one zero : A -> bool) (l : list A) :
  (forall x, x ∈ l -> one x = negb (zero x)) ->
  (forall x y, x ∈ l -> y ∈ l -> before x y = one x && zero y) ->
  sort before l = List.filter one l ++ List.filter zero l.
Proof.
  induction l as [|x l IH]; simpl; intros Hc Hb; [reflexivity|].
  rewrite IH.
  2: { intros y Hy. apply Hc. apply elem_of_cons. auto. }
  2: { intros y z Hy Hz. apply Hb; apply elem_of_cons; auto. }
  assert (Hx : x ∈ x :: l) by (apply elem_of_cons; auto).
  pose proof (Hc x Hx) as Hcx.
  destruct (zero x) eqn:Hz; simpl in Hcx; rewrite Hcx.
  - rewrite insert_sorted_skip.
    + f_equal. apply insert_sorted_head. intros y Hy.
      assert (Hin : y ∈ l).
      { destruct (List.filter zero l) as [|z t] eqn:Ef; [discriminate|].
        simpl in Hy. inversion Hy; subst z.
        assert (Hf : In y (List.filter zero l)) by (rewrite Ef; left; reflexivity).
        apply filter_In in Hf as [Hf _]. apply list_elem_of_In. exact Hf. }
      assert (Hzy : zero y = true).
      { destruct (List.filter zero l) as [|z t] eqn:Ef; [discriminate|].
        simpl in Hy. inversion Hy; subst z.
        assert (Hf : In y (List.filter zero l)) by (rewrite Ef; left; reflexivity).
        apply filter_In in Hf as [_ Hf]. exact Hf. }
      rewrite Hb by (try assumption; apply elem_of_cons; auto).
      rewrite (Hc y) by (apply elem_of_cons; auto). rewrite Hzy. reflexivity.
    + intros y Hy. apply list_elem_of_In in Hy. apply filter_In in Hy as [Hin Hone].
      rewrite Hb by (try assumption; apply elem_of_cons; right; apply list_elem_of_In; assumption).
      rewrite Hone, Hz. reflexivity.
  - simpl. apply insert_sorted_head. intros y Hy.
    assert (Hin : y ∈ l).
    { destruct (List.filter one l) as [|z t] eqn:Ef.
      - simpl in Hy. destruct (List.filter zero l) as [|z t] eqn:Eg; [discriminate|].
        simpl in Hy. inversion Hy; subst z.
        assert (Hf : In y (List.filter zero l)) by (rewrite Eg; left; reflexivity).
        apply filter_In in Hf as [Hf _]. apply list_elem_of_In. exact Hf.
      - simpl in Hy. inversion Hy; subst z.
        assert (Hf : In y (List.filter one l)) by (rewrite Ef; left; reflexivity).
        apply filter_In in Hf as [Hf _]. apply list_elem_of_In. exact Hf. }
    rewrite Hb by (try assumption; apply elem_of_cons; auto).
    rewrite Hz. apply andb_false_r.
Qed.
End SortFacts.

(** ** The classification reranker *)

Lemma all_inr {A} (outcomes : list (error + A)) (results : list A) :
  Qwen.all outcomes = inr results -> outcomes = map inr results.
Proof.
  revert results. induction outcomes as [|[e|a] os IH]; simpl; intros rs E.
  - inversion E. reflexivity.
  - discriminate.
  - destruct (Qwen.all os) as [e|l]; [discriminate|].
    inversion E; subst. simpl. f_equal. apply IH. reflexivity.
Qed.

Lemma mapM_attempt {A B} (f : A -> M B) (l : list A) w os w' (rs : list B) :
  mapM (fun x => attempt (f x)) l w = (inr os, w') ->
  os = map inr rs ->
  Forall2 (fun x r => exists wa wb, f x wa = (inr r, wb)) l rs.
Proof.
  revert w os rs. induction l as [|x l IH]; simpl; intros w os rs E Eo.
  - inversion E; subst. destruct rs; [constructor | discriminate].
  - apply bind_inr in E as (o & w1 & E1 & E).
    apply bind_inr in E as (os' & w2 & E2 & E).
    inversion E as [[Eos Ew]]; clear E. rewrite <- Eos in Eo.
    destruct rs as [|r rs]; [discriminate|]. simpl in Eo. inversion Eo; subst o os'.
    unfold attempt in E1. destruct (f x w) as [res w1'] eqn:Ef.
    inversion E1; subst.
    constructor; [eauto | eapply IH; [exact E2 | reflexivity]].
Qed.

Lemma score_of_cases answer : Qwen.score_of answer = 1%Z \/ Qwen.score_of answer = 0%Z.
Proof.
  unfold Qwen.score_of. destruct answer as [a|]; [destruct (includes "yes" a)|]; auto.
Qed.

Section QwenFacts.
Context `{Runtime} `{Host}.

Lemma rerankCall_inr model url headers query i doc w r w' :
  Qwen.rerankCall model url headers query i doc w = (inr r, w') ->
  exists content response answer,
    let request :=
      {| method := "POST"; url := url; headers := headers;
         body := ChatPayload model (Qwen.grading_prompt query content) |} in
    get_prop doc "pageContent" w = (inr content, w) /\
    httpRequest (length (requests w)) request = inr response /\
    Qwen.answer_of response
      {| store := store w; requests := requests w ++ [request] |} = (inr answer, w') /\
    r = {| index := Fin (ofZ (Z.of_nat i));
           relevanceScore := VNum (ofZ (Qwen.score_of answer)) |}.
Proof.
  unfold Qwen.rerankCall. intros E.
  apply bind_inr in E as (content & w1 & E1 & E).
  apply bind_inr in E as (response & w2 & E2 & E).
  apply bind_inr in E as (answer & w3 & E3 & E).
  inversion E as [[Er Ew]]; clear E. subst w3.
  pose proof (get_prop_inr _ _ _ _ _ E1) as [Ew _]. subst w1.
  unfold call_httpRequest in E2. inversion E2 as [[Eh Ew]]; clear E2.
  exists content, response, answer. simpl. subst w2 r. auto.
Qed.

Lemma before_scores (a b : RerankResult) (x y : Z) :
  relevanceScore a = VNum (ofZ x) -> relevanceScore b = VNum (ofZ y) ->
  (x = 1 \/ x = 0)%Z -> (y = 1 \/ y = 0)%Z ->
  Qwen.before a b = scored 1 a && scored 0 b /\ scored 1 a = negb (scored 0 a).
Proof.
  unfold Qwen.before, scored. intros -> -> [->| ->] [->| ->]; split; reflexivity.
Qed.

Lemma rerankQwen_inr itemIndex docs query w rs w' :
  Qwen.rerankQwen itemIndex docs query w = (inr rs, w') ->
  exists credentials results,
    getCredentials "ollamaApi" = inr credentials /\
    Forall2 (fun p r => exists wa wb,
      Qwen.rerankCall (getNodeParameter_string "model" itemIndex)
        (rerank_baseUrl credentials ++ "/api/chat")%string
        (request_headers credentials) query (fst p) (snd p) wa = (inr r, wb))
      (imap pair docs) results /\
    rs = slice0 (sort Qwen.before results)
           (Z.min (getNodeParameter_number "topN" itemIndex)
                  (Z.of_nat (length (sort Qwen.before results)))).
Proof.
  unfold Qwen.rerankQwen. intros E.
  apply bind_inr in E as (credentials & w1 & E1 & E).
  apply bind_inr in E as (outcomes & w2 & E2 & E).
  apply bind_inr in E as (results & w3 & E3 & E).
  inversion E as [[Ers Ew]]; clear E.
  unfold lift in E1, E3. inversion E1 as [[Ec Ew1]]. inversion E3 as [[Ea Ew3]].
  exists credentials, results. split; [exact Ec|]. split; [|congruence].
  eapply mapM_attempt; [exact E2 | apply all_inr; exact Ea].
Qed.

Lemma results_shape (P : nat * value -> RerankResult -> Prop) docs results :
  Forall2 P (imap pair docs) results ->
  length results = length docs /\
  forall j r, results !! j = Some r ->
    exists doc, docs !! j = Some doc /\ P (j, doc) r.
Proof.
  intros F. split.
  - apply Forall2_length in F. rewrite length_imap in F. congruence.
  - intros j r Hr. destruct (Forall2_lookup_r _ _ _ _ _ F Hr) as (p & Hp & HP).
    rewrite list_lookup_imap in Hp.
    destruct (docs !! j) as [doc|]; [|discriminate].
    inversion Hp; subst p. eauto.
Qed.

Lemma rerankQwen_ranked itemIndex docs query w rs w' :
  Qwen.rerankQwen itemIndex docs query w = (inr rs, w') ->
  exists c results,
    getCredentials "ollamaApi" = inr c /\
    length results = length docs /\
    (forall j r, results !! j = Some r ->
       exists doc wa wb,
         docs !! j = Some doc /\
         Qwen.rerankCall (getNodeParameter_string "model" itemIndex)
           (rerank_baseUrl c ++ "/api/chat")%string (request_headers c)
           query j doc wa = (inr r, wb)) /\
    (forall j r, results !! j = Some r ->
       index r = Fin (ofZ (Z.of_nat j)) /\
       (relevanceScore r = VNum 1 \/ relevanceScore r = VNum 0)) /\
    rs = slice0 (List.filter (scored 1) results ++ List.filter (scored 0) results)
           (Z.min (getNodeParameter_number "topN" itemIndex)
                  (Z.of_nat (length docs))).
Proof.
  intros E. apply rerankQwen_inr in E as (c & results & Ec & F & ->).
  apply results_shape in F as [Hlen Hj].
  assert (Hshape : forall j r, results !! j = Some r ->
            index r = Fin (ofZ (Z.of_nat j)) /\
            exists z, relevanceScore r = VNum (ofZ z) /\ (z = 1 \/ z = 0)%Z).
  { intros j r Hr. destruct (Hj j r Hr) as (doc & _ & wa & wb & Ecall).
    apply rerankCall_inr in Ecall as (? & ? & answer & _ & _ & _ & ->). simpl.
    split; [reflexivity|]. exists (Qwen.score_of answer).
    split; [reflexivity | apply score_of_cases]. }
  exists c, results. split; [exact Ec|]. split; [exact Hlen|]. split; [|split].
  - intros j r Hr. destruct (Hj j r Hr) as (doc & Hd & wa & wb & Ecall).
    exists doc, wa, wb. auto.
  - intros j r Hr. destruct (Hshape j r Hr) as (Hi & z & -> & [->| ->]); auto.
  - rewrite sort_length, Hlen. f_equal.
    apply sort_two_classes.
    + intros x Hx. apply list_elem_of_lookup in Hx as [j Hx].
      destruct (Hshape j x Hx) as (_ & z & Ez & Hz).
      eapply (before_scores x x z z); eauto.
    + intros x y Hx Hy.
      apply list_elem_of_lookup in Hx as [j Hx]. apply list_elem_of_lookup in Hy as [k Hy].
      destruct (Hshape j x Hx) as (_ & z & Ez & Hz).
      destruct (Hshape k y Hy) as (_ & z' & Ez' & Hz').
      eapply (before_scores x y z z'); eauto.
Qed.

Lemma rerankQwen_results itemIndex docs query w rs w' :
  Qwen.rerankQwen itemIndex docs query w = (inr rs, w') ->
  exists results,
    length results = length docs /\
    (forall j r, results !! j = Some r ->
       index r = Fin (ofZ (Z.of_nat j)) /\
       (relevanceScore r = VNum 1 \/ relevanceScore r = VNum 0)) /\
    rs = slice0 (List.filter (scored 1) results ++ List.filter (scored 0) results)
           (Z.min (getNodeParameter_number "topN" itemIndex)
                  (Z.of_nat (length docs))).
Proof.
  intros E. apply rerankQwen_ranked in E as (c & results & _ & Hlen & _ & Hshape & E).
  eauto.
Qed.
End QwenFacts.

(** ** Indexes *)

Lemma Qred_inject_Z (a : Z) : Qred (inject_Z a) = inject_Z a.
Proof.
  unfold Qred, inject_Z.
  generalize (Z.ggcd_gcd a 1) (Z.ggcd_correct_divisors a 1).
  destruct (Z.ggcd a 1) as (g, (aa, bb)). simpl.
  intros Hg [Ha Hb]. rewrite Z.gcd_1_r in Hg. subst g.
  replace aa with a by lia. replace bb with 1%Z by lia. reflexivity.
Qed.

Lemma number_sub_ofZ (a b : Z) :
  number_sub (Fin (ofZ a)) (Fin (ofZ b)) = Fin (ofZ (a - b)).
Proof.
  unfold number_sub, ofZ. f_equal.
  rewrite <- (Qred_inject_Z (a - b)). apply Qred_complete.
  unfold inject_Z, Qminus, Qplus, Qopp, Qeq. simpl. lia.
Qed.

Lemma valid_index_ofZ (arr : list value) (z : Z) :
  valid_index arr (Fin (ofZ z)) = true <-> (0 <= z < Z.of_nat (length arr))%Z.
Proof.
  unfold valid_index, ofZ, inject_Z. simpl.
  rewrite Z.mod_1_r, Z.div_1_r. simpl.
  rewrite andb_true_iff, Z.leb_le, Z.ltb_lt. reflexivity.
Qed.

Lemma valid_index_sub_one (arr : list value) (q : Q) :
  valid_index arr (number_sub (Fin q) (Fin 1)) = true <->
  exists z : Z, Qeq q (inject_Z z) /\ (1 <= z <= Z.of_nat (length arr))%Z.
Proof.
  split.
  - unfold number_sub, valid_index.
    pose proof (Qred_correct (q - 1)) as Hq.
    destruct (Qred (q - 1)) as [a' b']. destruct q as [a b].
    simpl. rewrite !andb_true_iff, Z.eqb_eq, Z.leb_le, Z.ltb_lt.
    intros [[Hmod Hpos] Hlt].
    exists (a' / Z.pos b' + 1)%Z.
    apply Z.div_exact in Hmod; [|lia].
    unfold Qeq, Qminus, Qplus, Qopp in *. simpl in *.
    assert (Hd : (0 <= a' / Z.pos b')%Z) by (apply Z.div_pos; lia).
    split; [nia | lia].
  - intros (z & Hz & Hrange).
    change (Fin 1) with (Fin (ofZ 1)).
    assert (E : number_sub (Fin q) (Fin (ofZ 1)) = Fin (ofZ (z - 1))).
    { unfold number_sub, ofZ. f_equal.
      rewrite <- (Qred_inject_Z (z - 1)). apply Qred_complete.
      rewrite Hz. unfold inject_Z, Qminus, Qplus, Qopp, Qeq. simpl. lia. }
    rewrite E. apply valid_index_ofZ. lia.
Qed.

Lemma element_ofZ (arr : list value) (j : nat) (d : value) :
  arr !! j = Some d -> element arr (Fin (ofZ (Z.of_nat j))) = d.
Proof.
  intros Hj. unfold element, ofZ, inject_Z. simpl.
  rewrite Z.mod_1_r, Z.div_1_r. simpl.
  destruct (Z.leb_spec 0 (Z.of_nat j)); [|lia].
  rewrite Nat2Z.id. apply nth_lookup_Some with (d := VUndef) in Hj. exact Hj.
Qed.

Lemma elem_of_slice0 {A} (l : list A) (e : Z) (x : A) : x ∈ slice0 l e -> x ∈ l.
Proof.
  destruct (slice0_prefix l e) as [n ->]. intros Hx.
  apply list_elem_of_lookup in Hx as [i Hx]. apply lookup_take_Some in Hx as [Hx _].
  apply list_elem_of_lookup. eauto.
Qed.

Lemma elem_of_filters {A} (f g : A -> bool) (l : list A) (x : A) :
  x ∈ List.filter f l ++ List.filter g l -> x ∈ l.
Proof.
  rewrite elem_of_app, !list_elem_of_In, !filter_In. tauto.
Qed.

(** C9. The classification variant collects the results of its
    per-document calls in the order of the input (the j-th result is what
    the call for the j-th document returned, and carries the index j) and
    ranks them by a stable sort: the results with score 1 in input order,
    then the ones with score 0 in input order, cut to [topN];
    [compressDocuments] returns the documents of these results in that
    order. *)
Theorem classification_order_is_stable `{Runtime} `{Host}
    (itemIndex : Z) (docs : list value) (query : value) (w w' : world)
    (out : list value) :
  docs <> [] ->
  Qwen.compressDocuments itemIndex (Some docs) query w = (inr out, w') ->
  exists (c : credentials) (results : list RerankResult),
    getCredentials "ollamaApi" = inr c /\
    length results = length docs /\
    (forall j r, results !! j = Some r ->
       exists doc wa wb,
         docs !! j = Some doc /\
         Qwen.rerankCall (getNodeParameter_string "model" itemIndex)
           (rerank_baseUrl c ++ "/api/chat")%string (request_headers c)
           query j doc wa = (inr r, wb) /\
         index r = Fin (ofZ (Z.of_nat j)) /\
         element docs (index r) = doc /\
         (relevanceScore r = VNum 1 \/ relevanceScore r = VNum 0)) /\
    let ranked :=
      slice0 (List.filter (scored 1) results ++ List.filter (scored 0) results)
        (Z.min (getNodeParameter_number "topN" itemIndex) (Z.of_nat (length docs))) in
    (exists w1, Qwen.rerankQwen itemIndex docs query w = (inr ranked, w1)) /\
    out = map (fun r => element docs (index r)) ranked.
Proof.
  intros Hne E.
  apply compressDocuments_with_inr in E as [(? & _) | (_ & rs & w1 & E1 & E2)];
    [contradiction|].
  apply mapM_attach in E2 as (-> & _).
  pose proof E1 as E1'.
  apply rerankQwen_ranked in E1 as (c & results & Ec & Hlen & Hcall & Hshape & ->).
  exists c, results. split; [exact Ec|]. split; [exact Hlen|]. split.
  - intros j r Hr. destruct (Hshape j r Hr) as [Hi Hs].
    destruct (Hcall j r Hr) as (doc & wa & wb & Hd & Ecall).
    exists doc, wa, wb. split; [exact Hd|]. split; [exact Ecall|].
    split; [exact Hi|]. split; [|exact Hs].
    rewrite Hi. apply element_ofZ. exact Hd.
  - simpl. split; [eauto | reflexivity].
Qed.

Lemma classification_order_is_stable_witness :
  exists out w' results,
    @Qwen.compressDocuments sample_runtime sample_chat_host 0
      (Some sample_documents) sample_query sample_world = (inr out, w') /\
    map relevanceScore results = [VNum 0; VNum 1; VNum 1] /\
    out = map (fun r => element sample_documents (index r))
            (slice0 (List.filter (scored 1) results ++ List.filter (scored 0) results) 2) /\
    out = [VRef 2%positive; VRef 3%positive].
Proof.
  destruct (@classification_order_is_stable sample_runtime sample_chat_host 0
              sample_documents sample_query sample_world
              (snd (@Qwen.compressDocuments sample_runtime sample_chat_host 0
                      (Some sample_documents) sample_query sample_world))
              [VRef 2%positive; VRef 3%positive]
              ltac:(discriminate) ltac:(vm_compute; reflexivity))
    as (c & results & _ & Hlen & Hshape & _ & Hout).
  eexists _, _, results. split; [vm_compute; reflexivity|].
  split; [|split; [exact Hout | reflexivity]].
  destruct results as [|r0 [|r1 [|r2 [|]]]]; try discriminate.
  destruct (Hshape 0%nat r0 eq_refl) as (? & ? & ? & _ & _ & I0 & _ & S0).
  destruct (Hshape 1%nat r1 eq_refl) as (? & ? & ? & _ & _ & I1 & _ & S1).
  destruct (Hshape 2%nat r2 eq_refl) as (? & ? & ? & _ & _ & I2 & _ & S2).
  destruct r0 as [i0 s0], r1 as [i1 s1], r2 as [i2 s2]. simpl in *. subst i0 i1 i2.
  destruct S0 as [->| ->], S1 as [->| ->], S2 as [->| ->];
    vm_compute in Hout; try discriminate; reflexivity.
Defined.

Lemma scored_VNum (z : Z) (r : RerankResult) :
  relevanceScore r = VNum 1 \/ relevanceScore r = VNum 0 ->
  (z = 1 \/ z = 0)%Z ->
  scored z r = true -> relevanceScore r = VNum (ofZ z).
Proof.
  unfold scored. intros [->| ->] [->| ->]; simpl; intros E;
    first [reflexivity | discriminate].
Qed.

Lemma ranked_ones_first (results : list RerankResult) (n j k : nat) (a b : RerankResult) :
  (forall r, r ∈ results -> relevanceScore r = VNum 1 \/ relevanceScore r = VNum 0) ->
  (j < k)%nat ->
  take n (List.filter (scored 1) results ++ List.filter (scored 0) results) !! j = Some a ->
  take n (List.filter (scored 1) results ++ List.filter (scored 0) results) !! k = Some b ->
  relevanceScore b = VNum 1 -> relevanceScore a = VNum 1.
Proof.
  intros Hs Hjk Ha Hb Eb.
  apply lookup_take_Some in Ha as [Ha _]. apply lookup_take_Some in Hb as [Hb _].
  destruct (Nat.lt_ge_cases k (length (List.filter (scored 1) results))) as [Hk|Hk].
  - rewrite lookup_app_l in Ha by lia.
    apply list_elem_of_lookup_2 in Ha. apply list_elem_of_In in Ha.
    apply filter_In in Ha as [Hin Hone].
    apply (scored_VNum 1 a); auto. apply Hs. apply list_elem_of_In. exact Hin.
  - rewrite lookup_app_r in Hb by lia.
    apply list_elem_of_lookup_2 in Hb. apply list_elem_of_In in Hb.
    apply filter_In in Hb as [Hin Hzero].
    unfold scored in Hzero. rewrite Eb in Hzero. discriminate.
Qed.

Lemma ranking_fields `{Runtime} (fields : list (string * value)) w :
  ranking (VObj fields) w =
  if unconvertible (store w) (field "index" fields) then (inl TypeError, w)
  else (inr {| index := number_sub (number_of (field "index" fields)) (Fin 1);
               relevanceScore := field "score" fields |}, w).
Proof.
  unfold ranking, ToNumber, ToPrimitive, bind, ret. cbn [get_prop].
  destruct (unconvertible (store w) (field "index" fields)); reflexivity.
Qed.

Lemma ranking_number `{Runtime} (fields : list (string * value)) (q : Q) w :
  field "index" fields = VNum q ->
  ranking (VObj fields) w =
  (inr {| index := number_sub (Fin q) (Fin 1);
          relevanceScore := field "score" fields |}, w).
Proof. intros Eq. rewrite ranking_fields, Eq. reflexivity. Qed.

(** C7, as the code has it.  In the classification variant the index of
    every result is a position of the input list.  In the list-ranking
    variants the index of a result is the [index] member of the reply's
    entry minus one, taken as it comes: for an entry whose index is a
    number, it is a position of the input list exactly when that number
    is a whole number between 1 and the number of documents (and then it
    is that number less one). *)
Theorem result_indexes `{Runtime} `{Host} :
  (forall itemIndex docs query w rs w',
     Qwen.rerankQwen itemIndex docs query w = (inr rs, w') ->
     Forall (fun r => valid_index docs (index r) = true) rs) /\
  (forall fields (q : Q) w (docs : list value),
     field "index" fields = VNum q ->
     exists r,
       ranking (VObj fields) w = (inr r, w) /\
       index r = number_sub (Fin q) (Fin 1) /\
       relevanceScore r = field "score" fields /\
       (valid_index docs (index r) = true <->
        exists z : Z, Qeq q (inject_Z z) /\ (1 <= z <= Z.of_nat (length docs))%Z)) /\
  (forall z : Z, number_sub (Fin (ofZ z)) (Fin 1) = Fin (ofZ (z - 1))).
Proof.
  split.
  - intros itemIndex docs query w rs w' E.
    apply rerankQwen_results in E as (results & Hlen & Hshape & ->).
    apply Forall_forall. intros r Hr.
    apply elem_of_slice0 in Hr. apply elem_of_filters in Hr.
    apply list_elem_of_lookup in Hr as [j Hr].
    destruct (Hshape j r Hr) as [-> _].
    apply valid_index_ofZ. apply lookup_lt_Some in Hr. lia.
  - split.
    + intros fields q w docs Eq. eexists.
      split; [apply ranking_number; exact Eq|].
      cbn [index relevanceScore].
      split; [reflexivity|]. split; [reflexivity|].
      apply valid_index_sub_one.
    + intros z. change (Fin 1) with (Fin (ofZ 1)). apply number_sub_ofZ.
Qed.

Lemma result_indexes_witness :
  Forall (fun r => valid_index sample_documents (index r) = true)
    (match fst (@Qwen.rerankQwen sample_runtime sample_chat_host 0
                  sample_documents sample_query sample_world) with
     | inr rs => rs
     | inl _ => []
     end) /\
  exists r,
    @ranking sample_runtime (VObj [("index", VNum 2); ("score", VNum (9 # 10))]) sample_world
      = (inr r, sample_world) /\
    index r = Fin 1 /\
    valid_index sample_documents (index r) = true.
Proof.
  pose proof (@result_indexes sample_runtime sample_chat_host) as (Hq & Hl & _).
  split.
  - destruct (@Qwen.rerankQwen sample_runtime sample_chat_host 0
                sample_documents sample_query sample_world) as [[e|rs] w1] eqn:E;
      [constructor|].
    exact (Hq _ _ _ _ _ _ E).
  - destruct (Hl [("index", VNum 2); ("score", VNum (9 # 10))] 2%Q sample_world
                sample_documents eq_refl) as (r & Er & Ei & _ & Hv).
    exists r. split; [exact Er|]. split; [exact Ei|]. apply Hv.
    exists 2%Z. split; [reflexivity | simpl; lia].
Defined.

(** C7, as the claim has it, fails for the list-ranking variant: with
    one document and the reply of the specification's example, whose
    first entry names document 2, the first result has index 1, which is
    no position of the list; the lookup yields [undefined] and
    [compressDocuments] ends with a [TypeError]. *)
Lemma list_ranking_index_out_of_range :
  exists rs w1,
    @rerank sample_runtime sample_generate_host 0
      [VRef 1%positive] sample_query sample_world = (inr rs, w1) /\
    map index rs = [Fin 1; Fin 0] /\
    ~ Forall (fun r => valid_index [VRef 1%positive] (index r) = true) rs /\
    element [VRef 1%positive] (Fin 1) = VUndef /\
    fst (@Generate.compressDocuments sample_runtime sample_generate_host 0
           (Some [VRef 1%positive]) sample_query sample_world) = inl TypeError.
Proof.
  eexists _, _. split; [vm_compute; reflexivity|].
  split; [reflexivity|]. split; [|split; reflexivity].
  intros F. inversion F as [|r rs Hv _]. vm_compute in Hv. discriminate.
Qed.

(** ** The list-ranking parser *)

Lemma includes_cons (c d : ascii) (s : string) :
  includes (String c EmptyString) (String d s) = false ->
  Ascii.eqb d c = false /\ includes (String c EmptyString) s = false.
Proof.
  cbn [includes startsWith]. intros E. apply orb_false_iff in E as [E1 E2].
  rewrite andb_true_r in E1. rewrite Ascii.eqb_sym. auto.
Qed.

Lemma fromFirstOpen_app (pre s : string) :
  includes "[" pre = false ->
  fromFirstOpen (pre ++ s)%string = fromFirstOpen s.
Proof.
  induction pre as [|c pre IH]; [reflexivity|]. intros E.
  apply includes_cons in E as [Ec E]. simpl. rewrite Ec. auto.
Qed.

Lemma throughLastClose_none (s : string) :
  includes "]" s = false -> throughLastClose s = None.
Proof.
  induction s as [|c s IH]; [reflexivity|]. intros E.
  apply includes_cons in E as [Ec E]. simpl. rewrite (IH E), Ec. reflexivity.
Qed.

Lemma throughLastClose_app (s post : string) :
  includes "]" post = false ->
  throughLastClose s = Some s ->
  throughLastClose (s ++ post)%string = Some s.
Proof.
  intros Hp. induction s as [|c s IH]; [discriminate|]. simpl.
  destruct (throughLastClose s) as [p|] eqn:Es.
  - intros E. inversion E; subst p. rewrite (IH eq_refl). reflexivity.
  - destruct (Ascii.eqb c "]") eqn:Ec; [|discriminate].
    intros E. inversion E as [Es']. clear E IH.
    change (String.append EmptyString post) with post.
    rewrite (throughLastClose_none _ Hp). reflexivity.
Qed.

Lemma matchArray_embedded (pre mid post : string) :
  includes "[" pre = false ->
  startsWith "[" mid = true ->
  throughLastClose mid = Some mid ->
  includes "]" post = false ->
  matchArray (pre ++ mid ++ post)%string = Some mid.
Proof.
  intros Hpre Hopen Hclose Hpost. unfold matchArray.
  rewrite fromFirstOpen_app by exact Hpre.
  destruct mid as [|c mid]; [discriminate|].
  cbn [startsWith] in Hopen. rewrite andb_true_r in Hopen.
  rewrite Ascii.eqb_sym in Hopen.
  change (String c mid ++ post)%string with (String c (mid ++ post)%string).
  unfold fromFirstOpen. rewrite Hopen.
  apply (throughLastClose_app (String c mid) post Hpost Hclose).
Qed.

Section ParserFacts.
Context `{Runtime} `{Host}.

Lemma parse_rankings_text itemIndex topN s w :
  parse_rankings itemIndex topN (VStr s) w =
  match matchArray s with
  | None => (inl (NodeOperationError "Failed to parse reranker output." (Some itemIndex)), w)
  | Some jsonMatch =>
      match JSON_parse jsonMatch with
      | None => (inl (NodeOperationError "Invalid JSON in reranker response." (Some itemIndex)), w)
      | Some (VArr results) =>
          mapM ranking (slice0 results (Z.min topN (Z.of_nat (length results)))) w
      | Some _ => (inl TypeError, w)
      end
  end.
Proof.
  unfold parse_rankings, reply_text, bind. simpl.
  destruct (matchArray s); [|reflexivity].
  destruct (JSON_parse s0) as [[]|]; reflexivity.
Qed.

Lemma reply_text_response fields s w :
  field "response" fields = VStr s -> s <> EmptyString ->
  reply_text (VObj fields) w = (inr (VStr s), w).
Proof.
  intros Er Hs. unfold reply_text, bind, get_prop. rewrite Er. simpl.
  destruct (String.eqb_spec s EmptyString); [contradiction | reflexivity].
Qed.

Lemma rerank_run itemIndex docs query w c passages w1 response :
  getCredentials "rerankerOllamaApi" = inr c ->
  mapM (fun p => passage (fst p) (snd p)) (imap pair docs) w = (inr passages, w1) ->
  httpRequest (length (requests w1)) (rerank_request itemIndex c query passages)
    = inr response ->
  rerank itemIndex docs query w =
  parse_rankings itemIndex (getNodeParameter_number "topN" itemIndex) response
    {| store := store w1;
       requests := requests w1 ++ [rerank_request itemIndex c query passages] |}.
Proof.
  intros Ec Ep Eh. unfold rerank.
  unfold bind at 1. unfold lift. rewrite Ec.
  unfold bind at 1. rewrite Ep.
  unfold bind at 1. unfold call_httpRequest. rewrite Eh. reflexivity.
Qed.
End ParserFacts.

(** C5.  A reply text without a bracketed part, and a bracketed part
    that is not JSON, each end [rerank] with a [NodeOperationError] that
    carries a message and the item index.  That holds for a reply that is
    a string and for a reply object whose [response] is a non-empty
    string.  For a reply object whose [response] is the empty string (and
    that has no [output]), the text is taken to be the reply object
    itself, and [rerank] ends with a [TypeError] instead. *)
Theorem list_ranking_parse_errors `{Runtime} `{Host} :
  (forall itemIndex topN s w,
     matchArray s = None ->
     parse_rankings itemIndex topN (VStr s) w
       = (inl (NodeOperationError "Failed to parse reranker output." (Some itemIndex)), w)) /\
  (forall itemIndex topN s jsonMatch w,
     matchArray s = Some jsonMatch -> JSON_parse jsonMatch = None ->
     parse_rankings itemIndex topN (VStr s) w
       = (inl (NodeOperationError "Invalid JSON in reranker response." (Some itemIndex)), w)) /\
  (forall itemIndex topN fields s w,
     field "response" fields = VStr s -> s <> EmptyString ->
     parse_rankings itemIndex topN (VObj fields) w
       = parse_rankings itemIndex topN (VStr s) w) /\
  matchArray EmptyString = None /\
  (forall itemIndex topN fields w,
     field "response" fields = VStr EmptyString ->
     truthy (field "output" fields) = false ->
     parse_rankings itemIndex topN (VObj fields) w = (inl TypeError, w)) /\
  fst (@rerank sample_runtime sample_silent_host 0
         sample_documents sample_query sample_world) = inl TypeError.
Proof.
  split.
  { intros itemIndex topN s w Em. rewrite parse_rankings_text, Em. reflexivity. }
  split.
  { intros itemIndex topN s j w Em Ej. rewrite parse_rankings_text, Em, Ej. reflexivity. }
  split.
  { intros itemIndex topN fields s w Er Hs. unfold parse_rankings, bind.
    rewrite (reply_text_response _ _ _ Er Hs). reflexivity. }
  split; [reflexivity|].
  split.
  { intros itemIndex topN fields w Er Eo. unfold parse_rankings, reply_text, bind, get_prop.
    rewrite Er. simpl. rewrite Eo. reflexivity. }
  vm_compute. reflexivity.
Qed.

Lemma list_ranking_parse_errors_witness :
  @parse_rankings sample_runtime 7 3 (VStr "I cannot rank these documents.") sample_world
    = (inl (NodeOperationError "Failed to parse reranker output." (Some 7%Z)), sample_world) /\
  @parse_rankings sample_runtime 7 3 (VStr "Ranking: [2, 1 and then 3]") sample_world
    = (inl (NodeOperationError "Invalid JSON in reranker response." (Some 7%Z)), sample_world) /\
  @parse_rankings sample_runtime 7 3 (generate_reply EmptyString) sample_world
    = (inl TypeError, sample_world).
Proof.
  pose proof (@list_ranking_parse_errors sample_runtime sample_silent_host)
    as (Hnone & Hbad & _ & _ & Hempty & _).
  split; [|split].
  - apply Hnone. reflexivity.
  - apply (Hbad 7%Z 3%Z _ "[2, 1 and then 3]"%string); reflexivity.
  - apply Hempty; reflexivity.
Defined.

(** ** The model listers *)

Section ListerFacts.
Context `{Runtime} `{Host}.

Lemma list_tags_run c resp w :
  getCredentials "ollamaApi" = inr c ->
  fetch (length (requests w)) (tags_request c) = inr resp ->
  ok resp = true ->
  list_tags w =
  match json resp with
  | Some data =>
      bind (get_prop data "models")
        (fun models =>
           match models with
           | VArr items => mapM model_option items
           | _ => throw (NodeOperationError missing_models None)
           end)
        {| store := store w; requests := requests w ++ [tags_request c] |}
  | None =>
      (inl SyntaxError, {| store := store w; requests := requests w ++ [tags_request c] |})
  end.
Proof.
  intros Ec Ef Eok. unfold list_tags.
  unfold bind at 1. unfold lift. rewrite Ec.
  unfold bind at 1. unfold call_fetch. rewrite Ef, Eok. simpl.
  destruct (json resp); reflexivity.
Qed.

Lemma getModels_run c resp w :
  getCredentials "ollamaApi" = inr c ->
  fetch (length (requests w)) (OpenAI.models_request c) = inr resp ->
  ok resp = true ->
  OpenAI.getModels w =
  match json resp with
  | Some result =>
      bind (get_prop result "data")
        (fun data =>
           match data with
           | VUndef | VNull => ret []
           | VArr items => mapM OpenAI.model_entry items
           | _ => throw TypeError
           end)
        {| store := store w; requests := requests w ++ [OpenAI.models_request c] |}
  | None =>
      (inl SyntaxError,
       {| store := store w; requests := requests w ++ [OpenAI.models_request c] |})
  end.
Proof.
  intros Ec Ef Eok. unfold OpenAI.getModels.
  unfold bind at 1. unfold lift. rewrite Ec.
  unfold bind at 1. unfold call_fetch. rewrite Ef, Eok. simpl.
  destruct (json resp); reflexivity.
Qed.
End ListerFacts.

(** C6, as the code has it.  The two [/api/tags] listers end with a
    [NodeOperationError] (message: Unexpected response: missing models
    array from Ollama API.) when the reply is an object whose [models]
    is missing or is no array.  The [/models] lister returns the empty
    list when the reply is an object whose [data] is missing or
    [null]. *)
Theorem model_lister_schema_errors `{Runtime} `{Host}
    (c : credentials) (resp : response) (fields : list (string * value)) (w : world) :
  getCredentials "ollamaApi" = inr c ->
  ok resp = true ->
  json resp = Some (VObj fields) ->
  (fetch (length (requests w)) (tags_request c) = inr resp ->
   (forall items, field "models" fields <> VArr items) ->
   fst (Qwen.getModels w) = inl (NodeOperationError missing_models None) /\
   fst (Generate.getModels w) = inl (NodeOperationError missing_models None)) /\
  (fetch (length (requests w)) (OpenAI.models_request c) = inr resp ->
   nullish (field "data" fields) = true ->
   fst (OpenAI.getModels w) = inr []).
Proof.
  intros Ec Eok Ej. split.
  - intros Ef Hm.
    assert (E : fst (list_tags w) = inl (NodeOperationError missing_models None)).
    { rewrite (list_tags_run c resp w Ec Ef Eok), Ej.
      unfold bind, get_prop.
      destruct (field "models" fields) eqn:Em; try reflexivity.
      destruct (Hm items eq_refl). }
    split; [|exact E].
    unfold Qwen.getModels, bind. destruct (list_tags w) as [[e|opts] w1].
    + exact E.
    + discriminate.
  - intros Ef Hd. rewrite (getModels_run c resp w Ec Ef Eok), Ej.
    unfold bind, get_prop. destruct (field "data" fields); try discriminate; reflexivity.
Qed.

Lemma model_lister_schema_errors_witness :
  fst (@Qwen.getModels sample_runtime (sample_page_host (VObj [("models", VStr "none")]))
         sample_world) = inl (NodeOperationError missing_models None) /\
  fst (@Generate.getModels sample_runtime (sample_page_host (VObj []))
         sample_world) = inl (NodeOperationError missing_models None) /\
  fst (@OpenAI.getModels sample_runtime (sample_page_host (VObj [("data", VNull)]))
         sample_world) = inr [].
Proof.
  split; [|split].
  - apply (@model_lister_schema_errors sample_runtime
             (sample_page_host (VObj [("models", VStr "none")]))
             local_credentials (page (VObj [("models", VStr "none")]))
             [("models", VStr "none")] sample_world eq_refl eq_refl eq_refl);
      [reflexivity | discriminate].
  - apply (@model_lister_schema_errors sample_runtime
             (sample_page_host (VObj []))
             local_credentials (page (VObj [])) [] sample_world eq_refl eq_refl eq_refl);
      [reflexivity | discriminate].
  - apply (@model_lister_schema_errors sample_runtime
             (sample_page_host (VObj [("data", VNull)]))
             local_credentials (page (VObj [("data", VNull)]))
             [("data", VNull)] sample_world eq_refl eq_refl eq_refl);
      reflexivity.
Defined.

(** C6, as the claim has it, fails for the [/models] lister: a reply
    without [data] gives the empty list and no error, and a [data] that
    is a string ends the lister with a [TypeError]. *)
Lemma models_lister_missing_data_is_silent :
  fst (@OpenAI.getModels sample_runtime (sample_page_host (VObj [("object", VStr "list")]))
         sample_world) = inr [] /\
  fst (@OpenAI.getModels sample_runtime (sample_page_host (VObj [("data", VStr "none")]))
         sample_world) = inl TypeError.
Proof. split; vm_compute; reflexivity. Qed.

(** ** Request URLs *)

#[export] Instance logged_preorder (u : string) : PreOrder (logged u).
Proof.
  split.
  - intros w. exists []. split; [rewrite app_nil_r; reflexivity | constructor].
  - intros w1 w2 w3 (a & Ea & Fa) (b & Eb & Fb). exists (a ++ b). split.
    + rewrite Eb, Ea, app_assoc. reflexivity.
    + apply Forall_app. auto.
Qed.

Lemma stripTrailingSlashes_spec (s : string) :
  (exists n, s = (stripTrailingSlashes s ++ slashes n)%string) /\
  (forall t, stripTrailingSlashes s <> (t ++ "/")%string).
Proof.
  induction s as [|c s [[n IHn] IHt]].
  - split; [exists 0%nat; reflexivity|]. intros [|d t]; discriminate.
  - simpl. destruct (stripTrailingSlashes s) as [|d r] eqn:Es.
    + destruct (Ascii.eqb_spec c "/") as [->|Hc].
      * split; [exists (S n); simpl; rewrite IHn at 1; reflexivity|].
        intros [|d t]; discriminate.
      * split; [exists n; simpl; rewrite IHn at 1; reflexivity|].
        intros [|d [|e t]]; simpl; intros E; inversion E; subst; contradiction.
    + split; [exists n; simpl; rewrite IHn at 1; reflexivity|].
      intros [|e t]; simpl; intros E; inversion E as [[Ee Et]].
      apply (IHt t). exact Et.
Qed.

Section UrlFacts.
Context `{Runtime} `{Host}.

Lemma call_httpRequest_logged r : keeps (logged (url r)) (call_httpRequest r).
Proof.
  intros w. exists [r]. split; [reflexivity|]. constructor; [reflexivity | constructor].
Qed.

Lemma answer_of_logged u response : keeps (logged u) (Qwen.answer_of response).
Proof.
  unfold Qwen.answer_of. destruct (nullish response); [keeps_step|].
  keeps_step; [keeps_step|]. destruct (nullish a); [keeps_step|].
  keeps_step; [keeps_step|]. destruct (nullish a0); [keeps_step|].
  destruct a0; keeps_step.
Qed.

Lemma keeps_bind_lift {A B} (P : relation world) `{!PreOrder P}
    (r : error + A) (k : A -> M B) :
  (forall a, r = inr a -> keeps P (k a)) -> keeps P (bind (lift r) k).
Proof.
  intros Hk w. unfold bind, lift. destruct r as [e|a]; simpl.
  - reflexivity.
  - apply (Hk a eq_refl).
Qed.

Lemma rerankCall_logged model u headers query i doc :
  keeps (logged u) (Qwen.rerankCall model u headers query i doc).
Proof.
  unfold Qwen.rerankCall. keeps_step; [keeps_step|].
  keeps_step; [apply (call_httpRequest_logged
                 {| method := "POST"; url := u; headers := headers;
                    body := ChatPayload model (Qwen.grading_prompt query a) |})|].
  keeps_step; [apply answer_of_logged|]. keeps_step.
Qed.

Lemma rerankQwen_logged itemIndex docs query c :
  getCredentials "ollamaApi" = inr c ->
  keeps (logged (rerank_baseUrl c ++ "/api/chat")%string)
    (Qwen.rerankQwen itemIndex docs query).
Proof.
  intros Ec. unfold Qwen.rerankQwen.
  apply keeps_bind_lift; [exact _|]. intros a Ea.
  assert (a = c) by congruence. subst a.
  keeps_step; [|keeps_step; keeps_step].
  keeps_step. keeps_step. apply rerankCall_logged.
Qed.

Lemma reply_text_logged u response : keeps (logged u) (reply_text response).
Proof.
  unfold reply_text. keeps_step; [keeps_step|].
  destruct (truthy a); [keeps_step|].
  keeps_step; [keeps_step|]. destruct (truthy a0); keeps_step.
Qed.

Lemma parse_rankings_logged u itemIndex topN response :
  keeps (logged u) (parse_rankings itemIndex topN response).
Proof.
  unfold parse_rankings. keeps_step; [apply reply_text_logged|].
  destruct a; try keeps_step.
  destruct (matchArray s); [|keeps_step].
  destruct (JSON_parse s0) as [[]|]; try keeps_step.
  unfold ranking. repeat keeps_step.
Qed.

Lemma rerank_logged itemIndex docs query c :
  getCredentials "rerankerOllamaApi" = inr c ->
  keeps (logged (rerank_baseUrl c ++ "/api/generate")%string)
    (rerank itemIndex docs query).
Proof.
  intros Ec. unfold rerank.
  apply keeps_bind_lift; [exact _|]. intros a Ea.
  assert (a = c) by congruence. subst a.
  keeps_step; [keeps_step; unfold passage; repeat keeps_step|].
  keeps_step; [apply (call_httpRequest_logged (rerank_request itemIndex c query a))|].
  apply parse_rankings_logged.
Qed.

Lemma model_option_log model : keeps same_log (model_option model).
Proof.
  unfold model_option.
  keeps_step; [keeps_step|].
  keeps_step; [destruct (truthy a); repeat keeps_step|].
  keeps_step; [keeps_step|].
  keeps_step; [destruct (truthy a1); repeat keeps_step|].
  repeat keeps_step.
Qed.

Lemma allowed_log option : keeps same_log (Qwen.allowed option).
Proof.
  unfold Qwen.allowed. keeps_step; [|keeps_step].
  destruct (value_ option) as [| | | | | |fields|l];
    try (keeps_step; fail).
  - destruct (nullish (field "toLowerCase" fields)); keeps_step.
  - keeps_step; [keeps_step|]. destruct (nullish a); keeps_step.
Qed.

Lemma filterM_log {A} (f : A -> M bool) (l : list A) :
  (forall x, keeps same_log (f x)) -> keeps same_log (Qwen.filterM f l).
Proof.
  intros Hf. induction l as [|x l IH]; simpl; [keeps_step|].
  keeps_step; [apply Hf|]. keeps_step; [exact IH|]. keeps_step.
Qed.

Lemma list_tags_requests c w :
  getCredentials "ollamaApi" = inr c ->
  requests (snd (list_tags w)) = requests w ++ [tags_request c].
Proof.
  intros Ec. unfold list_tags.
  unfold bind at 1. unfold lift. rewrite Ec.
  unfold bind at 1. unfold call_fetch.
  destruct (fetch (length (requests w)) (tags_request c)) as [msg|resp]; [reflexivity|].
  destruct (ok resp); simpl; [|reflexivity].
  match goal with
  | |- requests (snd (?m ?w0)) = _ =>
      assert (K : keeps same_log m); [|exact (K w0)]
  end.
  keeps_step; [keeps_step|].
  keeps_step; [keeps_step|].
  destruct a0; try keeps_step. apply model_option_log.
Qed.

Lemma tags_getModels_requests c w :
  getCredentials "ollamaApi" = inr c ->
  requests (snd (Qwen.getModels w)) = requests w ++ [tags_request c] /\
  requests (snd (Generate.getModels w)) = requests w ++ [tags_request c].
Proof.
  intros Ec. split; [|apply list_tags_requests; exact Ec].
  unfold Qwen.getModels, bind.
  pose proof (list_tags_requests c w Ec) as E.
  destruct (list_tags w) as [[e|opts] w1]; simpl in *; [exact E|].
  rewrite <- E. apply (filterM_log Qwen.allowed opts allowed_log w1).
Qed.

Lemma models_getModels_requests c w :
  getCredentials "ollamaApi" = inr c ->
  requests (snd (OpenAI.getModels w)) = requests w ++ [OpenAI.models_request c].
Proof.
  intros Ec. unfold OpenAI.getModels.
  unfold bind at 1. unfold lift. rewrite Ec.
  unfold bind at 1. unfold call_fetch.
  destruct (fetch (length (requests w)) (OpenAI.models_request c)) as [msg|resp];
    [reflexivity|].
  destruct (ok resp); simpl; [|reflexivity].
  match goal with
  | |- requests (snd (?m ?w0)) = _ =>
      assert (K : keeps same_log m); [|exact (K w0)]
  end.
  keeps_step; [keeps_step|].
  keeps_step; [keeps_step|].
  destruct a0; try keeps_step. unfold OpenAI.model_entry. repeat keeps_step.
Qed.
End UrlFacts.

(** C8.  Where the requests of the listers and the rerankers go, for the
    credentials [c] that the host hands out: the model listers make one
    request, to the base URL followed by [/api/tags] (first and second
    listing) or [/models] (third listing); every request of the
    rerankers goes to the base URL followed by [/api/chat] or
    [/api/generate].  The base URL never ends in a slash: it is the
    credential's without its trailing slashes.  For an empty or missing
    credential URL the base is [http://localhost:11434] in the two
    [/api/tags] listers and in the rerankers, but it is the empty string
    in the [/models] lister, whose request then goes to [/models]. *)
Theorem request_base_urls `{Runtime} `{Host}
    (c : credentials) (itemIndex : Z) (docs : list value) (query : value) (w : world) :
  getCredentials "ollamaApi" = inr c ->
  getCredentials "rerankerOllamaApi" = inr c ->
  (requests (snd (Qwen.getModels w)) = requests w ++ [tags_request c] /\
   requests (snd (Generate.getModels w)) = requests w ++ [tags_request c] /\
   requests (snd (OpenAI.getModels w)) = requests w ++ [OpenAI.models_request c] /\
   logged (rerank_baseUrl c ++ "/api/chat")%string w
     (snd (Qwen.rerankQwen itemIndex docs query w)) /\
   logged (rerank_baseUrl c ++ "/api/generate")%string w
     (snd (rerank itemIndex docs query w))) /\
  (forall s,
     (exists n, s = (stripTrailingSlashes s ++ slashes n)%string) /\
     (forall t, stripTrailingSlashes s <> (t ++ "/")%string)) /\
  (forall t,
     tags_baseUrl c <> (t ++ "/")%string /\
     rerank_baseUrl c <> (t ++ "/")%string /\
     OpenAI.models_baseUrl c <> (t ++ "/")%string) /\
  (baseUrl c = None \/ baseUrl c = Some EmptyString ->
   url (tags_request c) = "http://localhost:11434/api/tags"%string /\
   (rerank_baseUrl c ++ "/api/chat")%string = "http://localhost:11434/api/chat"%string /\
   (rerank_baseUrl c ++ "/api/generate")%string
     = "http://localhost:11434/api/generate"%string /\
   url (OpenAI.models_request c) = "/models"%string).
Proof.
  intros Ec Er. split.
  { destruct (tags_getModels_requests c w Ec) as [E1 E2].
    split; [exact E1|]. split; [exact E2|].
    split; [apply models_getModels_requests; exact Ec|].
    split; [apply rerankQwen_logged; exact Ec | apply rerank_logged; exact Er]. }
  split; [exact stripTrailingSlashes_spec|].
  split.
  { intros t. split; [|split].
    - unfold tags_baseUrl, or_else at 1.
      destruct (String.eqb _ EmptyString).
      + apply (proj2 (stripTrailingSlashes_spec default_baseUrl)).
      + apply (proj2 (stripTrailingSlashes_spec _)).
    - apply (proj2 (stripTrailingSlashes_spec _)).
    - apply (proj2 (stripTrailingSlashes_spec _)). }
  intros [E|E]; unfold tags_request, OpenAI.models_request, tags_baseUrl, rerank_baseUrl,
    OpenAI.models_baseUrl; simpl; rewrite E; repeat split.
Qed.

Lemma request_base_urls_witness :
  map url (requests (snd (@Generate.getModels sample_runtime sample_nowhere_host sample_world)))
    = ["http://localhost:11434/api/tags"%string] /\
  map url (requests (snd (@OpenAI.getModels sample_runtime sample_nowhere_host sample_world)))
    = ["/models"%string].
Proof.
  destruct (@request_base_urls sample_runtime sample_nowhere_host empty_credentials 0
              sample_documents sample_query sample_world eq_refl eq_refl)
    as ((_ & E2 & E3 & _) & _ & _ & Hempty).
  destruct (Hempty (or_intror eq_refl)) as (U1 & _ & _ & U4).
  split.
  - rewrite E2. reflexivity.
  - rewrite E3. reflexivity.
Defined.

(** ** When the classification variant returns *)




Section Returns.
Context `{Runtime} `{Host}.


Lemma is_Some_insert (h : heap) (l m : loc) (o : object) :
  is_Some (h !! m) -> is_Some (<[l := o]> h !! m).
Proof.
  intros Hm. destruct (decide (l = m)) as [->|Hne].
  - rewrite lookup_insert_eq. eauto.
  - rewrite lookup_insert_ne by exact Hne. exact Hm.
Qed.

Lemma well_formed_document_attach docs r w d w' d0 :
  attach docs r w = (inr d, w') ->
  well_formed_document (store w) d0 -> well_formed_document (store w') d0.
Proof.
  intros E (l0 & o0 & -> & Hl0 & Hmd).
  apply attach_inr in E
    as (l & o & _ & _ & El & _ & [(m & mo & Eo & Em & ->) | (Et & ->)]).
  - destruct (decide (l0 = m)) as [->|Hne].
    + exists m, (<["relevanceScore" := relevanceScore r]> mo).
      split; [reflexivity|]. split; [apply lookup_insert_eq|].
      assert (o0 = mo) by congruence. subst o0.
      rewrite lookup_insert_ne by discriminate.
      destruct Hmd as [Hf | (m1 & Em1 & Hm1)]; [left; exact Hf|].
      right. exists m1. split; [exact Em1 | apply is_Some_insert; exact Hm1].
    + exists l0, o0. split; [reflexivity|].
      split; [rewrite lookup_insert_ne by congruence; exact Hl0|].
      destruct Hmd as [Hf | (m1 & Em1 & Hm1)]; [left; exact Hf|].
      right. exists m1. split; [exact Em1 | apply is_Some_insert; exact Hm1].
  - pose proof (fresh_store_None (store w)) as Hf.
    assert (Hne : l0 <> fresh (dom (store w))) by congruence.
    destruct (decide (l0 = l)) as [->|Hl].
    + exists l, (<["metadata" := VRef (fresh (dom (store w)))]> o).
      split; [reflexivity|].
      split; [rewrite lookup_insert_ne by congruence; apply lookup_insert_eq|].
      right. exists (fresh (dom (store w))).
      split; [apply lookup_insert_eq|]. rewrite lookup_insert_eq. eauto.
    + exists l0, o0. split; [reflexivity|].
      split; [rewrite !lookup_insert_ne by congruence; exact Hl0|].
      destruct Hmd as [Hfalse | (m1 & Em1 & Hm1)]; [left; exact Hfalse|].
      right. exists m1. split; [exact Em1|].
      apply is_Some_insert. apply is_Some_insert. exact Hm1.
Qed.

Lemma get_prop_ref (l : loc) (o : object) k w :
  store w !! l = Some o ->
  get_prop (VRef l) k w = (inr (default VUndef (o !! k)), w).
Proof. intros Hl. unfold get_prop. rewrite Hl. reflexivity. Qed.

Lemma set_prop_ref (l : loc) (o : object) k x w :
  store w !! l = Some o ->
  set_prop (VRef l) k x w =
  (inr tt, {| store := <[l := <[k := x]> o]> (store w); requests := requests w |}).
Proof. intros Hl. unfold set_prop. rewrite Hl. reflexivity. Qed.



End Returns.



(** ** Failures of [compressDocuments] *)

Lemma mapM_inl {A B} (f : A -> M B) l w e w' :
  mapM f l w = (inl e, w') ->
  exists j x pre wj,
    l !! j = Some x /\ mapM f (take j l) w = (inr pre, wj) /\ f x wj = (inl e, w').
Proof.
  revert w. induction l as [|x l IH]; simpl; intros w E.
  - discriminate.
  - unfold bind at 1 in E. destruct (f x w) as [[e1|y] w1] eqn:Ex.
    + inversion E; subst. exists 0%nat, x, [], w. auto.
    + unfold bind at 1 in E. destruct (mapM f l w1) as [[e2|ys] w2] eqn:El.
      * inversion E; subst.
        destruct (IH _ El) as (j & x' & pre & wj & Hj & Hpre & Hx).
        exists (S j), x', (y :: pre), wj. split; [exact Hj|]. split; [|exact Hx].
        simpl. rewrite (bind_run _ _ _ _ _ Ex), (bind_run _ _ _ _ _ Hpre). reflexivity.
      * discriminate.
Qed.

Lemma set_prop_inl v k x w e w' :
  set_prop v k x w = (inl e, w') -> e = TypeError /\ w' = w.
Proof.
  unfold set_prop. destruct v; try (intros E; inversion E; auto; fail).
  destruct (store w !! l); intros E; inversion E; auto.
Qed.

Lemma get_prop_inl v k w e w' :
  get_prop v k w = (inl e, w') -> e = TypeError /\ w' = w.
Proof.
  unfold get_prop. destruct v; try (intros E; inversion E; auto; fail).
  destruct (store w !! l); intros E; inversion E; auto.
Qed.

Section FailureFacts.
Context `{Runtime} `{Host}.

Lemma attach_inl docs r w e w' :
  attach docs r w = (inl e, w') ->
  e = TypeError /\ store w ⊆ store w' /\ requests w' = requests w.
Proof.
  unfold attach. intros E.
  unfold bind at 1 in E.
  destruct (get_prop (element docs (index r)) "metadata" w) as [[e0|old] w0] eqn:E0.
  { apply get_prop_inl in E0 as [-> ->]. inversion E; subst. auto. }
  apply get_prop_inr in E0 as [-> Hold].
  unfold bind at 1 in E.
  destruct (truthy old) eqn:Et.
  - unfold ret at 1 in E.
    unfold bind at 1 in E.
    destruct (set_prop (element docs (index r)) "metadata" old w) as [[e1|[]] w1] eqn:E1.
    { apply set_prop_inl in E1 as [-> ->]. inversion E; subst. auto. }
    apply set_prop_inr in E1 as (l & o & El & Hl & ->).
    rewrite El in *. destruct Hold as (o1 & Hl1 & ->).
    assert (o1 = o) by congruence. subst o1.
    assert (Ho : o !! "metadata" = Some (default VUndef (o !! "metadata"))).
    { destruct (o !! "metadata"); [reflexivity | discriminate]. }
    assert (Es : <[l := <["metadata" := default VUndef (o !! "metadata")]> o]> (store w)
                 = store w).
    { rewrite (insert_id o) by exact Ho. apply insert_id. exact Hl. }
    rewrite Es in E.
    unfold bind at 1 in E.
    destruct (get_prop (VRef l) "metadata" {| store := store w; requests := requests w |})
      as [[e2|md] w2] eqn:E2.
    { apply get_prop_inl in E2 as [-> ->]. inversion E; subst. auto. }
    apply get_prop_inr in E2 as [-> _].
    unfold bind at 1 in E.
    destruct (set_prop md "relevanceScore" (relevanceScore r)
                {| store := store w; requests := requests w |}) as [[e3|[]] w3] eqn:E3.
    { apply set_prop_inl in E3 as [-> ->]. inversion E; subst. auto. }
    discriminate.
  - unfold new_object at 1 in E.
    pose proof (fresh_store_None (store w)) as Hfresh.
    assert (Hsub : store w ⊆ <[fresh (dom (store w)) := ∅]> (store w)).
    { apply insert_subseteq. exact Hfresh. }
    unfold bind at 1 in E.
    destruct (set_prop (element docs (index r)) "metadata" (VRef (fresh (dom (store w))))
                {| store := <[fresh (dom (store w)) := ∅]> (store w);
                   requests := requests w |}) as [[e1|[]] w1] eqn:E1.
    { apply set_prop_inl in E1 as [-> ->]. inversion E; subst. auto. }
    apply set_prop_inr in E1 as (l & o & El & Hl & ->). simpl in Hl.
    assert (Hne : fresh (dom (store w)) <> l).
    { intros <-. rewrite lookup_insert_eq in Hl.
      rewrite El in Hold. destruct Hold as (o1 & Hl1 & _). congruence. }
    rewrite El in E. unfold bind at 1 in E.
    erewrite get_prop_ref in E; cycle 1.
    { simpl. apply lookup_insert_eq. }
    rewrite lookup_insert_eq in E. simpl default in E.
    unfold bind at 1 in E.
    erewrite set_prop_ref in E; cycle 1.
    { simpl. rewrite lookup_insert_ne by congruence. apply lookup_insert_eq. }
    discriminate.
Qed.

Lemma has_relevanceScore_subseteq (h h' : heap) d :
  h ⊆ h' -> has_relevanceScore h d = true -> has_relevanceScore h' d = true.
Proof.
  intros Hsub. unfold has_relevanceScore, metadata_of.
  destruct d; try discriminate.
  destruct (h !! l) as [o|] eqn:Hl; [|discriminate].
  rewrite (lookup_weaken _ _ _ _ Hl Hsub).
  destruct (o !! "metadata") as [[]|]; try discriminate.
  destruct (h !! l0) as [mo|] eqn:Hm; [|discriminate].
  rewrite (lookup_weaken _ _ _ _ Hm Hsub). auto.
Qed.

Lemma compressDocuments_with_inl reranker docs query w e w' :
  compressDocuments_with reranker (Some docs) query w = (inl e, w') ->
  docs <> [] /\
  (reranker docs query w = (inl e, w') \/
   exists results w1,
     reranker docs query w = (inr results, w1) /\
     mapM (attach docs) results w1 = (inl e, w')).
Proof.
  destruct docs as [|d docs]; simpl; intros E; [discriminate|].
  split; [discriminate|].
  unfold bind in E. destruct (reranker (d :: docs) query w) as [[e1|results] w1].
  - left. inversion E. reflexivity.
  - right. eauto.
Qed.

Lemma listings_share itemIndex reranker compress :
  In (reranker, compress)
     [(Qwen.rerankQwen itemIndex, Qwen.compressDocuments itemIndex);
      (rerank itemIndex, Generate.compressDocuments itemIndex);
      (rerank itemIndex, OpenAI.compressDocuments itemIndex)] ->
  compress = compressDocuments_with reranker /\
  forall docs query, keeps same_store (reranker docs query).
Proof.
  simpl. intros [Hp|[Hp|[Hp|[]]]]; inversion Hp; subst;
    (split; [reflexivity|]); auto using rerankQwen_store, rerank_store.
Qed.
End FailureFacts.

(** X3. When the reranker of a listing fails, [compressDocuments] fails
    with the same error in the same world, and the store is as it was
    before the call: no document has been touched. *)
Theorem reranker_failure_leaves_store `{Runtime} `{Host}
    (itemIndex : Z) (docs : list value) (query : value) (w w1 : world) (e : error)
    (reranker : list value -> value -> M (list RerankResult))
    (compress : option (list value) -> value -> M (list value)) :
  In (reranker, compress)
     [(Qwen.rerankQwen itemIndex, Qwen.compressDocuments itemIndex);
      (rerank itemIndex, Generate.compressDocuments itemIndex);
      (rerank itemIndex, OpenAI.compressDocuments itemIndex)] ->
  docs <> [] ->
  reranker docs query w = (inl e, w1) ->
  compress (Some docs) query w = (inl e, w1) /\ store w1 = store w.
Proof.
  intros Hin Hne E. apply listings_share in Hin as [-> Hkeep].
  split.
  - destruct docs as [|d docs]; [contradiction|].
    simpl. apply bind_fail. exact E.
  - pose proof (Hkeep docs query w) as Hs. rewrite E in Hs. exact Hs.
Qed.

Lemma reranker_failure_leaves_store_witness :
  let failed :=
    @rerank sample_runtime sample_silent_host 0 sample_documents sample_query sample_world in
  @Generate.compressDocuments sample_runtime sample_silent_host 0
    (Some sample_documents) sample_query sample_world = (inl TypeError, snd failed) /\
  store (snd failed) = sample_store.
Proof.
  apply (@reranker_failure_leaves_store sample_runtime sample_silent_host 0
           sample_documents sample_query sample_world _ TypeError
           (@rerank sample_runtime sample_silent_host 0)
           (@Generate.compressDocuments sample_runtime sample_silent_host 0)).
  - simpl. auto.
  - discriminate.
  - vm_compute. reflexivity.
Defined.

(** X4. A failure of [compressDocuments] after the reranker has returned
    is a [TypeError] raised for one of the results, and nothing is rolled
    back: the results before it have been written, every object of the
    store is as those writes left it, and the documents of those results
    keep their [relevanceScore]. *)
Theorem attach_failure_is_not_rolled_back `{Runtime} `{Host}
    (itemIndex : Z) (docs : list value) (query : value) (w w1 w' : world) (e : error)
    (results : list RerankResult)
    (reranker : list value -> value -> M (list RerankResult))
    (compress : option (list value) -> value -> M (list value)) :
  In (reranker, compress)
     [(Qwen.rerankQwen itemIndex, Qwen.compressDocuments itemIndex);
      (rerank itemIndex, Generate.compressDocuments itemIndex);
      (rerank itemIndex, OpenAI.compressDocuments itemIndex)] ->
  reranker docs query w = (inr results, w1) ->
  compress (Some docs) query w = (inl e, w') ->
  e = TypeError /\
  exists (j : nat) (r : RerankResult) (wj : world),
    results !! j = Some r /\
    mapM (attach docs) (take j results) w1
      = (inr (map (fun r => element docs (index r)) (take j results)), wj) /\
    attach docs r wj = (inl TypeError, w') /\
    store wj ⊆ store w' /\
    Forall (fun d => has_relevanceScore (store w') d = true)
      (map (fun r => element docs (index r)) (take j results)).
Proof.
  intros Hin E1 E. apply listings_share in Hin as [-> _].
  apply compressDocuments_with_inl in E as [_ [E | (results' & w1' & E1' & E)]];
    [congruence|].
  rewrite E1 in E1'. inversion E1'; subst results' w1'. clear E1'.
  apply mapM_inl in E as (j & r & pre & wj & Hj & Hpre & Hr).
  pose proof (attach_inl _ _ _ _ _ Hr) as (-> & Hsub & _).
  split; [reflexivity|]. exists j, r, wj.
  pose proof (mapM_attach _ _ _ _ _ Hpre) as (-> & _ & _ & Hs & _).
  repeat split; auto.
  eapply Forall_impl; [exact Hs|]. intros d Hd.
  eapply has_relevanceScore_subseteq; eauto.
Qed.

Lemma attach_failure_is_not_rolled_back_witness :
  exists w',
    @Generate.compressDocuments sample_runtime sample_stray_host 0
      (Some sample_documents) sample_query sample_world = (inl TypeError, w') /\
    exists (j : nat) (r : RerankResult) (wj : world),
      [ {| index := Fin 0; relevanceScore := VNum (4 # 5) |};
        {| index := Fin 6; relevanceScore := VNum (1 # 2) |} ] !! j = Some r /\
      has_relevanceScore (store w') (VRef 1%positive) = true.
Proof.
  eexists. split; [vm_compute; reflexivity|].
  destruct (@attach_failure_is_not_rolled_back sample_runtime sample_stray_host 0
           sample_documents sample_query sample_world _ _ TypeError _
           (@rerank sample_runtime sample_stray_host 0)
           (@Generate.compressDocuments sample_runtime sample_stray_host 0)
           ltac:(simpl; auto) ltac:(vm_compute; reflexivity)
           ltac:(vm_compute; reflexivity))
    as (_ & j & r & wj & Hj & _ & _ & _ & _).
  exists j, r, wj. split; [exact Hj|]. vm_compute. reflexivity.
Defined.

(** ** What no run touches *)

#[export] Instance content_kept_preorder : PreOrder content_kept.
Proof.
  split.
  - intros w l o Hl. eauto.
  - intros w1 w2 w3 H12 H23 l o Hl.
    destruct (H12 l o Hl) as (o2 & Hl2 & K2).
    destruct (H23 l o2 Hl2) as (o3 & Hl3 & K3).
    exists o3. split; [exact Hl3|]. intros k Hm Hr.
    rewrite K3, K2 by assumption. reflexivity.
Qed.

Lemma same_store_content_kept {A} (m : M A) :
  keeps same_store m -> keeps content_kept m.
Proof.
  intros Hm w l o Hl. specialize (Hm w). unfold same_store in Hm.
  rewrite Hm. eauto.
Qed.

Lemma set_prop_content_kept v k x :
  k = "metadata" \/ k = "relevanceScore" ->
  keeps content_kept (set_prop v k x).
Proof.
  intros Hk w. unfold set_prop.
  destruct v; try reflexivity.
  destruct (store w !! l) as [o|] eqn:Hl; [|reflexivity].
  intros l0 o0 Hl0. simpl.
  destruct (decide (l = l0)) as [->|Hne].
  - rewrite lookup_insert_eq. eexists. split; [reflexivity|].
    intros k0 Hm Hr. rewrite lookup_insert_ne by (destruct Hk; congruence).
    congruence.
  - rewrite lookup_insert_ne by exact Hne. eauto.
Qed.

Lemma new_object_content_kept : keeps content_kept new_object.
Proof.
  intros w l o Hl. simpl.
  rewrite lookup_insert_ne; [eauto|].
  intros <-. rewrite fresh_store_None in Hl. discriminate.
Qed.

Section ContentFacts.
Context `{Runtime} `{Host}.

Lemma attach_content_kept docs r : keeps content_kept (attach docs r).
Proof.
  unfold attach.
  keeps_step; [keeps_step|].
  keeps_step; [destruct (truthy a); [keeps_step | apply new_object_content_kept]|].
  keeps_step; [apply set_prop_content_kept; auto|].
  keeps_step; [keeps_step|].
  keeps_step; [apply set_prop_content_kept; auto|].
  keeps_step.
Qed.

Lemma compressDocuments_with_content_kept reranker documents query :
  (forall docs, keeps same_store (reranker docs query)) ->
  keeps content_kept (compressDocuments_with reranker documents query).
Proof.
  intros Hr. unfold compressDocuments_with.
  destruct documents as [[|d docs]|].
  - keeps_step.
  - keeps_step; [apply same_store_content_kept, Hr|].
    keeps_step. apply attach_content_kept.
  - keeps_step.
Qed.
End ContentFacts.

(** X5. Whatever the outcome of [compressDocuments], a result or an
    error at any point, in each of the three listings: every object that
    was in the store is still there, and each of its properties other
    than [metadata] and [relevanceScore] (the [pageContent] of a
    document, the other entries of a metadata object) has the value it
    had. *)
Theorem compressDocuments_keeps_content `{Runtime} `{Host}
    (itemIndex : Z) (documents : option (list value)) (query : value) :
  keeps content_kept (Qwen.compressDocuments itemIndex documents query) /\
  keeps content_kept (Generate.compressDocuments itemIndex documents query) /\
  keeps content_kept (OpenAI.compressDocuments itemIndex documents query).
Proof.
  repeat split; apply compressDocuments_with_content_kept; intros docs;
    auto using rerankQwen_store, rerank_store.
Qed.

(** ** The score that a document ends up with *)

Section ScoreFacts.
Context `{Runtime} `{Host}.

Lemma attach_score docs r w d w' :
  attach docs r w = (inr d, w') ->
  exists (l m : loc) (o mo : object),
    d = VRef l /\ store w' !! l = Some o /\ o !! "metadata" = Some (VRef m) /\
    store w' !! m = Some mo /\ mo !! "relevanceScore" = Some (relevanceScore r).
Proof.
  intros E.
  apply attach_inr in E
    as (l & o & -> & _ & Hl & _ & [(m & mo & Eo & Em & ->) | (Et & ->)]).
  - destruct (decide (l = m)) as [->|Hne].
    + assert (o = mo) by congruence. subst o.
      exists m, m, (<["relevanceScore" := relevanceScore r]> mo),
        (<["relevanceScore" := relevanceScore r]> mo).
      rewrite !lookup_insert_eq. rewrite lookup_insert_ne by discriminate. auto.
    + exists l, m, o, (<["relevanceScore" := relevanceScore r]> mo).
      rewrite lookup_insert_ne by congruence.
      rewrite !lookup_insert_eq. auto.
  - pose proof (fresh_store_None (store w)) as Hf.
    assert (Hne : fresh (dom (store w)) <> l) by congruence.
    exists l, (fresh (dom (store w))),
      (<["metadata" := VRef (fresh (dom (store w)))]> o),
      ({["relevanceScore" := relevanceScore r]}).
    rewrite lookup_insert_ne by exact Hne.
    rewrite !lookup_insert_eq. rewrite lookup_singleton_eq. auto.
Qed.

Lemma mapM_attach_scores docs results w out w' :
  mapM (attach docs) results w = (inr out, w') ->
  forall (j : nat) (r : RerankResult), results !! j = Some r ->
    exists (l m : loc) (o mo : object),
      out !! j = Some (VRef l) /\
      store w' !! l = Some o /\ o !! "metadata" = Some (VRef m) /\
      store w' !! m = Some mo /\
      (mo !! "relevanceScore" = Some (relevanceScore r) \/
       exists (k : nat) (d : value),
         (j < k)%nat /\ out !! k = Some d /\ metadata_of (store w') d = Some (VRef m)).
Proof.
  revert w out. induction results as [|r0 results IH]; intros w out E j r Hj.
  - destruct j; discriminate.
  - simpl in E. apply bind_inr in E as (d & w1 & Ed & E).
    apply bind_inr in E as (outs & w2 & Etl & E). inversion E; subst out w2. clear E.
    destruct j as [|j]; simpl in Hj.
    + inversion Hj; subst r0. clear Hj.
      apply attach_score in Ed as (l & m & o1 & mo1 & -> & Hl & Hmd & Hm & Hs).
      apply mapM_attach in Etl as (_ & _ & _ & _ & F & _).
      destruct (F l o1 Hl) as (o' & Hl' & Kl).
      destruct (F m mo1 Hm) as (mo' & Hm' & Km).
      exists l, m, o', mo'. split; [reflexivity|]. split; [exact Hl'|].
      split.
      { destruct (Kl "metadata") as [E | [(Ek & _) | (_ & _ & Ht & _)]].
        - congruence.
        - discriminate.
        - rewrite Hmd in Ht. discriminate. }
      split; [exact Hm'|].
      destruct (Km "relevanceScore") as [E | [(_ & _ & d & Hd & Md) | (Ek & _)]].
      * left. congruence.
      * right. apply list_elem_of_lookup in Hd as (k & Hk).
        exists (S k), d. split; [lia|]. auto.
      * discriminate.
    + destruct (IH _ _ Etl j r Hj) as (l & m & o & mo & Ho & Hl & Hmd & Hm & Hs).
      exists l, m, o, mo. repeat (split; [assumption|]).
      destruct Hs as [Hs | (k & d' & Hk & Hd & Md)]; [left; exact Hs|].
      right. exists (S k), d'. split; [lia|]. auto.
Qed.
End ScoreFacts.

(** X6. The score that a returned document carries.  After a successful
    [compressDocuments], in each of the three listings, the document
    returned for the j-th result of the reranker is an object of the
    store whose [metadata] is an object of the store, and the
    [relevanceScore] of that object is the score of the j-th result,
    unless a document returned for a later result has the same metadata
    object: the assignments are made in the order of the results and the
    last one stays. *)
Theorem stored_score_is_last_written `{Runtime} `{Host}
    (itemIndex : Z) (docs : list value) (query : value) (w w' : world)
    (out : list value)
    (reranker : list value -> value -> M (list RerankResult))
    (compress : option (list value) -> value -> M (list value)) :
  In (reranker, compress)
     [(Qwen.rerankQwen itemIndex, Qwen.compressDocuments itemIndex);
      (rerank itemIndex, Generate.compressDocuments itemIndex);
      (rerank itemIndex, OpenAI.compressDocuments itemIndex)] ->
  docs <> [] ->
  compress (Some docs) query w = (inr out, w') ->
  exists (results : list RerankResult) (w1 : world),
    reranker docs query w = (inr results, w1) /\
    forall (j : nat) (r : RerankResult), results !! j = Some r ->
      exists (l m : loc) (o mo : object),
        out !! j = Some (VRef l) /\
        store w' !! l = Some o /\ o !! "metadata" = Some (VRef m) /\
        store w' !! m = Some mo /\
        (mo !! "relevanceScore" = Some (relevanceScore r) \/
         exists (k : nat) (d : value),
           (j < k)%nat /\ out !! k = Some d /\
           metadata_of (store w') d = Some (VRef m)).
Proof.
  intros Hin Hne E. apply listings_share in Hin as [-> _].
  apply compressDocuments_with_inr in E as [(? & _) | (_ & results & w1 & E1 & E2)];
    [contradiction|].
  exists results, w1. split; [exact E1|].
  eapply mapM_attach_scores; eauto.
Qed.

Lemma stored_score_is_last_written_witness :
  exists (out : list value) (w' : world) (results : list RerankResult) (w1 : world),
    @Qwen.compressDocuments sample_runtime sample_chat_host 0
      (Some sample_documents) sample_query sample_world = (inr out, w') /\
    @Qwen.rerankQwen sample_runtime sample_chat_host 0
      sample_documents sample_query sample_world = (inr results, w1) /\
    forall (j : nat) (r : RerankResult), results !! j = Some r ->
      exists (l m : loc) (o mo : object),
        out !! j = Some (VRef l) /\
        store w' !! l = Some o /\ o !! "metadata" = Some (VRef m) /\
        store w' !! m = Some mo /\
        (mo !! "relevanceScore" = Some (relevanceScore r) \/
         exists (k : nat) (d : value),
           (j < k)%nat /\ out !! k = Some d /\
           metadata_of (store w') d = Some (VRef m)).
Proof.
  destruct (@stored_score_is_last_written sample_runtime sample_chat_host 0
           sample_documents sample_query sample_world _ _
           (@Qwen.rerankQwen sample_runtime sample_chat_host 0)
           (@Qwen.compressDocuments sample_runtime sample_chat_host 0)
           ltac:(simpl; auto) ltac:(discriminate) ltac:(vm_compute; reflexivity))
    as (results & w1 & E & Hs).
  eexists _, _, results, w1. split; [vm_compute; reflexivity|].
  split; [exact E | exact Hs].
Defined.

(** ** How many documents, and which *)

Lemma slice0_length_exact {A} (l : list A) (e : Z) :
  Z.of_nat (length (slice0 l e)) =
  (if (e <? 0)%Z then Z.max (Z.of_nat (length l) + e) 0
   else Z.min e (Z.of_nat (length l)))%Z.
Proof.
  unfold slice0. rewrite length_take.
  destruct (e <? 0)%Z eqn:He; lia.
Qed.

Lemma slice0_topN_length {A} (l : list A) (topN : Z) :
  Z.of_nat (length (slice0 l (Z.min topN (Z.of_nat (length l))))) =
  (if (topN <? 0)%Z then Z.max (Z.of_nat (length l) + topN) 0
   else Z.min topN (Z.of_nat (length l)))%Z.
Proof.
  rewrite slice0_length_exact.
  destruct (topN <? 0)%Z eqn:Ht, (Z.min topN (Z.of_nat (length l)) <? 0)%Z eqn:Hm; lia.
Qed.

Lemma filters_Permutation {A} (f g : A -> bool) (l : list A) :
  (forall x, x ∈ l -> f x = negb (g x)) ->
  List.filter f l ++ List.filter g l ≡ₚ l.
Proof.
  induction l as [|x l IH]; intros Hfg; [reflexivity|].
  assert (IH' : List.filter f l ++ List.filter g l ≡ₚ l).
  { apply IH. intros y Hy. apply Hfg. right. exact Hy. }
  simpl. rewrite (Hfg x) by left.
  destruct (g x); simpl.
  - rewrite <- Permutation_middle. constructor. exact IH'.
  - constructor. exact IH'.
Qed.

Lemma map_element_positions (docs : list value) (results : list RerankResult) :
  length results = length docs ->
  (forall j r, results !! j = Some r -> index r = Fin (ofZ (Z.of_nat j))) ->
  map (fun r => element docs (index r)) results = docs.
Proof.
  intros Hlen Hi. apply list_eq. intros j.
  change (map (fun r => element docs (index r)) results)
    with ((fun r => element docs (index r)) <$> results).
  rewrite list_lookup_fmap.
  destruct (results !! j) as [r|] eqn:Hr; simpl.
  - destruct (docs !! j) as [d|] eqn:Hd.
    + rewrite (Hi j r Hr). f_equal. apply element_ofZ. exact Hd.
    + apply lookup_lt_Some in Hr. apply lookup_ge_None in Hd. lia.
  - symmetry. apply lookup_ge_None. apply lookup_ge_None in Hr. lia.
Qed.

(** X7. The classification variant returns part of its input.  For any
    [topN], the number of documents returned is what [slice(0, Math.min(topN, n))]
    keeps of [n] documents: [min(topN, n)] when [topN] is not negative,
    and [max(n + topN, 0)] when it is.  The documents returned are
    documents of the input, each position of the input being used at most
    once, so that the output followed by the documents that were left
    out is a rearrangement of the input; with [topN] at least [n] the
    output is a rearrangement of the whole input. *)
Theorem classification_returns_part_of_input `{Runtime} `{Host}
    (itemIndex : Z) (docs : list value) (query : value) (w w' : world)
    (out : list value) :
  docs <> [] ->
  Qwen.compressDocuments itemIndex (Some docs) query w = (inr out, w') ->
  let topN := getNodeParameter_number "topN" itemIndex in
  let n := Z.of_nat (length docs) in
  Z.of_nat (length out) = (if (topN <? 0)%Z then Z.max (n + topN) 0 else Z.min topN n) /\
  (exists rest : list value, docs ≡ₚ out ++ rest) /\
  ((n <= topN)%Z -> docs ≡ₚ out).
Proof.
  intros Hne E topN n.
  apply compressDocuments_with_inr in E as [(? & _) | (_ & results & w1 & E1 & E2)];
    [contradiction|].
  apply mapM_attach in E2 as (-> & _).
  apply rerankQwen_results in E1 as (all & Hlen & Hall & ->).
  set (ranked := List.filter (scored 1) all ++ List.filter (scored 0) all).
  assert (Hperm : ranked ≡ₚ all).
  { apply filters_Permutation. intros r Hr.
    apply list_elem_of_lookup in Hr as (j & Hj).
    destruct (Hall j r Hj) as (_ & [Hs | Hs]); unfold scored; rewrite Hs; reflexivity. }
  assert (Hrl : length ranked = length docs).
  { rewrite <- Hlen. apply Permutation_length. exact Hperm. }
  assert (Hdocs : map (fun r => element docs (index r)) ranked ≡ₚ docs).
  { rewrite Hperm. rewrite map_element_positions; [reflexivity | exact Hlen |].
    intros j r Hj. apply (Hall j r Hj). }
  assert (Hcount :
    Z.of_nat (length (map (fun r => element docs (index r))
                        (slice0 ranked (Z.min topN (Z.of_nat (length docs))))))
    = (if (topN <? 0)%Z then Z.max (n + topN) 0 else Z.min topN n)).
  { rewrite length_map. rewrite <- Hrl. rewrite slice0_topN_length.
    subst n. rewrite Hrl. reflexivity. }
  destruct (slice0_prefix ranked (Z.min topN (Z.of_nat (length docs)))) as (k & Hk).
  assert (Hrest : docs ≡ₚ
    map (fun r => element docs (index r))
      (slice0 ranked (Z.min topN (Z.of_nat (length docs))))
    ++ map (fun r => element docs (index r)) (drop k ranked)).
  { rewrite Hk, <- map_app, take_drop. symmetry. exact Hdocs. }
  split; [exact Hcount|]. split; [eexists; exact Hrest|].
  intros Hall_kept.
  rewrite <- Hrl, slice0_more by lia. symmetry. exact Hdocs.
Qed.

Lemma classification_returns_part_of_input_witness :
  exists (out : list value) (w' : world),
    @Qwen.compressDocuments sample_runtime sample_chat_host 0
      (Some sample_documents) sample_query sample_world = (inr out, w') /\
    Z.of_nat (length out) = 2%Z /\
    (exists rest : list value, sample_documents ≡ₚ out ++ rest).
Proof.
  eexists _, _. split; [vm_compute; reflexivity|].
  pose proof (@classification_returns_part_of_input sample_runtime sample_chat_host 0
           sample_documents sample_query sample_world _ _
           ltac:(discriminate) ltac:(vm_compute; reflexivity)) as (Hc & Hr & _).
  split; [exact Hc | exact Hr].
Defined.

(** ** A successful list ranking, read backwards *)

Lemma mapM_same_world {A B} (f : A -> M B) (l : list A) w rs w' :
  (forall x w0 r w1, f x w0 = (inr r, w1) -> w1 = w0) ->
  mapM f l w = (inr rs, w') -> w' = w.
Proof.
  intros Hf. revert w rs. induction l as [|x l IH]; simpl; intros w rs E.
  - inversion E. reflexivity.
  - apply bind_inr in E as (y & w1 & Ey & E).
    apply bind_inr in E as (ys & w2 & Eys & E). inversion E; subst.
    apply Hf in Ey. apply IH in Eys. congruence.
Qed.

Section SuccessFacts.
Context `{Runtime} `{Host}.

Lemma passage_inr i doc w s w' : passage i doc w = (inr s, w') -> w' = w.
Proof.
  unfold passage. intros E. apply bind_inr in E as (c & w1 & E1 & E).
  apply get_prop_inr in E1 as [-> _]. inversion E. reflexivity.
Qed.

Lemma ToPrimitive_inr v w p w' :
  ToPrimitive v w = (inr p, w') ->
  w' = w /\ p = v /\ unconvertible (store w) v = false.
Proof.
  unfold ToPrimitive. destruct (unconvertible (store w) v); intros E; inversion E; auto.
Qed.

Lemma ToNumber_inr v w n w' :
  ToNumber v w = (inr n, w') ->
  w' = w /\ n = number_of v /\ unconvertible (store w) v = false.
Proof.
  unfold ToNumber. intros E. apply bind_inr in E as (p & w1 & E1 & E).
  apply ToPrimitive_inr in E1 as (-> & -> & Hu). inversion E; subst. auto.
Qed.

Lemma ranking_inr r w x w' : ranking r w = (inr x, w') -> w' = w.
Proof.
  unfold ranking. intros E. apply bind_inr in E as (i & w1 & E1 & E).
  apply bind_inr in E as (n & w2 & E2 & E).
  apply bind_inr in E as (s & w3 & E3 & E).
  apply get_prop_inr in E1 as [-> _]. apply ToNumber_inr in E2 as (-> & _ & _).
  apply get_prop_inr in E3 as [-> _].
  inversion E. reflexivity.
Qed.

Lemma reply_text_inr response w text w' :
  reply_text response w = (inr text, w') -> w' = w.
Proof.
  unfold reply_text. intros E. apply bind_inr in E as (r & w1 & E1 & E).
  apply get_prop_inr in E1 as [-> _].
  destruct (truthy r); [inversion E; reflexivity|].
  apply bind_inr in E as (o & w2 & E2 & E).
  apply get_prop_inr in E2 as [-> _].
  destruct (truthy o); inversion E; reflexivity.
Qed.

Lemma parse_rankings_inr itemIndex topN response w results w' :
  parse_rankings itemIndex topN response w = (inr results, w') ->
  w' = w /\
  exists (s jsonMatch : string) (items : list value),
    reply_text response w = (inr (VStr s), w) /\
    matchArray s = Some jsonMatch /\
    JSON_parse jsonMatch = Some (VArr items) /\
    mapM ranking (slice0 items (Z.min topN (Z.of_nat (length items)))) w
      = (inr results, w).
Proof.
  unfold parse_rankings. intros E.
  apply bind_inr in E as (text & w1 & Et & E).
  pose proof (reply_text_inr _ _ _ _ Et). subst w1.
  destruct text; try discriminate.
  destruct (matchArray s) as [jsonMatch|] eqn:Em; [|discriminate].
  destruct (JSON_parse jsonMatch) as [[]|] eqn:Ej; try discriminate.
  pose proof (mapM_same_world _ _ _ _ _ ranking_inr E). subst w'.
  split; [reflexivity|]. exists s, jsonMatch, items. auto.
Qed.

Lemma rerank_inr itemIndex docs query w results w' :
  rerank itemIndex docs query w = (inr results, w') ->
  exists (c : credentials) (passages : list string) (response : value),
    getCredentials "rerankerOllamaApi" = inr c /\
    mapM (fun p => passage (fst p) (snd p)) (imap pair docs) w = (inr passages, w) /\
    httpRequest (length (requests w)) (rerank_request itemIndex c query passages)
      = inr response /\
    w' = {| store := store w;
            requests := requests w ++ [rerank_request itemIndex c query passages] |} /\
    parse_rankings itemIndex (getNodeParameter_number "topN" itemIndex) response w'
      = (inr results, w').
Proof.
  unfold rerank. intros E.
  apply bind_inr in E as (c & w1 & Ec & E).
  unfold lift in Ec. inversion Ec as [[Ec' Ew]]. subst w1.
  apply bind_inr in E as (passages & w2 & Ep & E).
  assert (w2 = w).
  { eapply mapM_same_world; [|exact Ep]. intros [i d] w0 r w3. apply passage_inr. }
  subst w2.
  apply bind_inr in E as (response & w3 & Eh & E).
  unfold call_httpRequest in Eh. inversion Eh as [[Eh' Ew]].
  rewrite Eh' in *. clear Eh.
  pose proof (parse_rankings_inr _ _ _ _ _ _ E) as [-> _].
  exists c, passages, response. subst w3. auto.
Qed.
End SuccessFacts.

(** X8. What a successful list ranking implies, in the second and in the
    third listing.  When [compressDocuments] returns, exactly one
    request has been made, a POST to [/api/generate] whose prompt holds
    one passage per document; the reply had a text (its [response], its
    [output] or the reply itself) of which the part from the first
    opening to the last closing bracket parsed as a JSON array; the
    results are the conversions of the entries that
    [slice(0, Math.min(topN, entries))] keeps, so that the number of
    documents returned is [min(topN, entries)] for a [topN] that is not
    negative, and [max(entries + topN, 0)] for a negative one, whatever
    the number of input documents. *)
Theorem list_ranking_success `{Runtime} `{Host}
    (itemIndex : Z) (docs : list value) (query : value) (w w' : world)
    (out : list value)
    (compress : option (list value) -> value -> M (list value)) :
  In compress [Generate.compressDocuments itemIndex;
               OpenAI.compressDocuments itemIndex] ->
  docs <> [] ->
  compress (Some docs) query w = (inr out, w') ->
  let topN := getNodeParameter_number "topN" itemIndex in
  exists (c : credentials) (passages : list string) (response : value)
         (s jsonMatch : string) (items : list value) (results : list RerankResult),
    let request := rerank_request itemIndex c query passages in
    let w1 := {| store := store w; requests := requests w ++ [request] |} in
    getCredentials "rerankerOllamaApi" = inr c /\
    length passages = length docs /\
    requests w' = requests w ++ [request] /\
    httpRequest (length (requests w)) request = inr response /\
    reply_text response w1 = (inr (VStr s), w1) /\
    matchArray s = Some jsonMatch /\
    JSON_parse jsonMatch = Some (VArr items) /\
    mapM ranking (slice0 items (Z.min topN (Z.of_nat (length items)))) w1
      = (inr results, w1) /\
    out = map (fun r => element docs (index r)) results /\
    Z.of_nat (length out) =
      (if (topN <? 0)%Z then Z.max (Z.of_nat (length items) + topN) 0
       else Z.min topN (Z.of_nat (length items)))%Z.
Proof.
  intros Hin Hne E topN.
  assert (compress = compressDocuments_with (rerank itemIndex)) as ->.
  { simpl in Hin. destruct Hin as [<-|[<-|[]]]; reflexivity. }
  apply compressDocuments_with_inr in E as [(? & _) | (_ & results & w1 & E1 & E2)];
    [contradiction|].
  apply rerank_inr in E1 as (c & passages & response & Ec & Ep & Eh & -> & E1).
  apply parse_rankings_inr in E1 as (_ & s & jsonMatch & items & Et & Em & Ej & Er).
  pose proof (mapM_inr _ _ _ _ _ Ep) as Hpl. rewrite length_imap in Hpl.
  pose proof (mapM_inr _ _ _ _ _ Er) as Hrl.
  apply mapM_attach in E2 as (-> & _ & _ & _ & _ & Hreq).
  exists c, passages, response, s, jsonMatch, items, results.
  repeat (split; [assumption|]). split; [reflexivity|].
  rewrite length_map, Hrl. apply slice0_topN_length.
Qed.

Lemma list_ranking_success_witness :
  exists (out : list value) (w' : world),
    @Generate.compressDocuments sample_runtime sample_generate_host 0
      (Some sample_documents) sample_query sample_world = (inr out, w') /\
    exists (items : list value),
      JSON_parse sample_array = Some (VArr items) /\
      Z.of_nat (length out) = Z.min 3 (Z.of_nat (length items)).
Proof.
  eexists _, _. split; [vm_compute; reflexivity|].
  destruct (@list_ranking_success sample_runtime sample_generate_host 0
           sample_documents sample_query sample_world _ _
           (@Generate.compressDocuments sample_runtime sample_generate_host 0)
           ltac:(simpl; auto) ltac:(discriminate) ltac:(vm_compute; reflexivity))
    as (c & passages & response & s & jsonMatch & items & results
        & _ & _ & _ & Eh & Et & Em & Ej & _ & _ & Hc).
  exists items. split; [|exact Hc].
  vm_compute in Eh. inversion Eh; subst response.
  vm_compute in Et. inversion Et; subst s.
  vm_compute in Em. inversion Em; subst jsonMatch.
  exact Ej.
Defined.

(** ** The requests of the classification variant *)



Lemma get_prop_read doc w :
  get_prop doc "pageContent" w =
  (match read_pageContent (store w) doc with
   | Some content => inr content
   | None => inl TypeError
   end, w).
Proof.
  unfold read_pageContent, get_prop. destruct doc; try reflexivity.
  simpl. destruct (store w !! l); reflexivity.
Qed.

Section RequestFacts.
Context `{Runtime} `{Host}.


Lemma answer_of_log response : keeps same_log (Qwen.answer_of response).
Proof.
  unfold Qwen.answer_of. destruct (nullish response); [keeps_step|].
  keeps_step; [keeps_step|]. destruct (nullish a); [keeps_step|].
  keeps_step; [keeps_step|]. destruct (nullish a0); [keeps_step|].
  destruct a0; keeps_step.
Qed.

Lemma rerankCall_requests model u hs query i doc w :
  requests (snd (Qwen.rerankCall model u hs query i doc w)) =
  requests w ++
  match read_pageContent (store w) doc with
  | Some content =>
      [{| method := "POST"; url := u; headers := hs;
          body := ChatPayload model (Qwen.grading_prompt query content) |}]
  | None => []
  end.
Proof.
  unfold Qwen.rerankCall. unfold bind at 1. rewrite get_prop_read.
  destruct (read_pageContent (store w) doc) as [content|].
  - unfold bind at 1. unfold call_httpRequest at 1.
    match goal with
    | |- context [httpRequest ?n ?r] => destruct (httpRequest n r) as [e|response]
    end.
    + simpl. reflexivity.
    + unfold bind at 1.
      match goal with
      | |- context [Qwen.answer_of ?v ?w0] =>
          pose proof (answer_of_log v w0) as Hl;
          destruct (Qwen.answer_of v w0) as [[e|a] w1]
      end; simpl in *; exact Hl.
  - simpl. rewrite app_nil_r. reflexivity.
Qed.

Lemma rerankCalls_requests model u hs query (l : list (nat * value)) w outcome w' :
  mapM (fun p => attempt (Qwen.rerankCall model u hs query (fst p) (snd p))) l w
    = (outcome, w') ->
  store w' = store w /\
  requests w' =
  requests w ++
  omap (fun p =>
          (fun content =>
             {| method := "POST"; url := u; headers := hs;
                body := ChatPayload model (Qwen.grading_prompt query content) |})
          <$> read_pageContent (store w) (snd p)) l.
Proof.
  revert w outcome w'. induction l as [|[i doc] l IH]; intros w outcome w' E; simpl in E.
  - inversion E; subst. split; [reflexivity | simpl; rewrite app_nil_r; reflexivity].
  - unfold bind at 1 in E. unfold attempt at 1 in E.
    pose proof (rerankCall_requests model u hs query i doc w) as Hr.
    pose proof (rerankCall_store model u hs query i doc w) as Hs.
    destruct (Qwen.rerankCall model u hs query i doc w) as [r w1].
    simpl in Hr, Hs. unfold same_store in Hs.
    unfold bind at 1 in E.
    destruct (mapM (fun p => attempt (Qwen.rerankCall model u hs query (fst p) (snd p)))
                l w1) as [[e|rs] w2] eqn:El;
      apply IH in El as [IHs IHr]; inversion E; subst w';
      rewrite IHs, IHr, Hs, Hr; (split; [reflexivity|]); simpl;
      destruct (read_pageContent (store w) doc); simpl;
      rewrite <- ?app_assoc; reflexivity.
Qed.

Lemma omap_imap_shift {A B} (f : A -> option B) (l : list A) (g : nat -> nat) :
  omap (fun p : nat * A => f (snd p)) (imap (fun i x => (g i, x)) l) = omap f l.
Proof.
  revert g. induction l as [|x l IH]; intros g; simpl; [reflexivity|].
  specialize (IH (fun i => g (S i))).
  destruct (f x); [f_equal|]; exact IH.
Qed.

Lemma omap_imap_pair {A B} (f : A -> option B) (l : list A) :
  omap (fun p : nat * A => f (snd p)) (imap pair l) = omap f l.
Proof. exact (omap_imap_shift f l (fun i => i)). Qed.

Lemma rerankQwen_requests itemIndex docs query c w :
  getCredentials "ollamaApi" = inr c ->
  requests (snd (Qwen.rerankQwen itemIndex docs query w)) =
  requests w ++
  omap (fun doc => chat_request itemIndex c query <$> read_pageContent (store w) doc) docs.
Proof.
  intros Ec. unfold Qwen.rerankQwen.
  unfold bind at 1. unfold lift at 1. rewrite Ec.
  unfold bind at 1.
  match goal with
  | |- context [mapM ?f ?l w] =>
      destruct (mapM f l w) as [[e|outcomes] w1] eqn:Em
  end; apply rerankCalls_requests in Em as [_ Hr].
  - simpl. rewrite Hr. rewrite (omap_imap_pair
      (fun doc => _ <$> read_pageContent (store w) doc)). reflexivity.
  - unfold bind. unfold lift. destruct (Qwen.all outcomes); simpl;
      rewrite Hr; rewrite (omap_imap_pair
        (fun doc => _ <$> read_pageContent (store w) doc)); reflexivity.
Qed.
End RequestFacts.



(** ** The bracketed part of a reply, both ways *)

Lemma string_append_assoc (a b c : string) :
  (a ++ (b ++ c))%string = ((a ++ b) ++ c)%string.
Proof.
  induction a as [|x a IH]; [reflexivity|].
  change (String x (a ++ (b ++ c))%string = String x ((a ++ b) ++ c)%string).
  rewrite IH. reflexivity.
Qed.

Lemma includes_app_r (c : ascii) (a b : string) :
  includes (String c EmptyString) (a ++ b)%string = false ->
  includes (String c EmptyString) b = false.
Proof.
  induction a as [|d a IH]; [auto|]. intros E.
  change (String d a ++ b)%string with (String d (a ++ b)%string) in E.
  apply includes_cons in E as [_ E]. auto.
Qed.

Lemma fromFirstOpen_Some (s t : string) :
  fromFirstOpen s = Some t ->
  exists pre rest : string,
    s = (pre ++ t)%string /\ includes "[" pre = false /\ t = String "[" rest.
Proof.
  induction s as [|c s IH]; [discriminate|]. simpl.
  destruct (Ascii.eqb c "[") eqn:Ec.
  - intros E. inversion E; subst t. apply Ascii.eqb_eq in Ec. subst c.
    exists EmptyString, s. auto.
  - intros E. destruct (IH E) as (pre & rest & -> & Hpre & ->).
    exists (String c pre), rest. split; [reflexivity|]. split; [|reflexivity].
    cbn [includes startsWith]. rewrite Hpre, Ascii.eqb_sym, Ec. reflexivity.
Qed.

Lemma fromFirstOpen_None (s : string) :
  fromFirstOpen s = None -> includes "[" s = false.
Proof.
  induction s as [|c s IH]; [reflexivity|]. cbn [fromFirstOpen].
  destruct (Ascii.eqb c "[") eqn:Ec; [discriminate|]. intros E.
  cbn [includes startsWith]. rewrite (IH E), Ascii.eqb_sym, Ec. reflexivity.
Qed.

Lemma throughLastClose_None (s : string) :
  throughLastClose s = None -> includes "]" s = false.
Proof.
  induction s as [|c s IH]; [reflexivity|]. cbn [throughLastClose].
  destruct (throughLastClose s); [discriminate|].
  destruct (Ascii.eqb c "]") eqn:Ec; [discriminate|]. intros _.
  cbn [includes startsWith]. rewrite (IH eq_refl), Ascii.eqb_sym, Ec. reflexivity.
Qed.

Lemma throughLastClose_Some (t p : string) :
  throughLastClose t = Some p ->
  exists q post : string,
    p = (q ++ "]")%string /\ t = (p ++ post)%string /\ includes "]" post = false.
Proof.
  revert p. induction t as [|c t IH]; intros p; [discriminate|]. simpl.
  destruct (throughLastClose t) as [p'|] eqn:Et.
  - intros E. inversion E; subst p.
    destruct (IH p' eq_refl) as (q & post & -> & Ht & Hpost).
    exists (String c q), post. split; [reflexivity|]. split; [|exact Hpost].
    rewrite Ht at 1. reflexivity.
  - destruct (Ascii.eqb c "]") eqn:Ec; [|discriminate].
    intros E. inversion E; subst p. apply Ascii.eqb_eq in Ec. subst c.
    exists EmptyString, t. split; [reflexivity|]. split; [reflexivity|].
    apply throughLastClose_None. exact Et.
Qed.

Lemma throughLastClose_closed (q : string) :
  throughLastClose (q ++ "]")%string = Some (q ++ "]")%string.
Proof.
  induction q as [|c q IH]; [reflexivity|].
  change (String c q ++ "]")%string with (String c (q ++ "]")%string).
  simpl. rewrite IH. reflexivity.
Qed.

Lemma first_open_is_first (pre' rest' pre rest : string) :
  (pre' ++ String "[" rest')%string = (pre ++ String "[" rest)%string ->
  includes "[" pre' = false ->
  exists mid : string, rest' = (mid ++ rest)%string.
Proof.
  revert pre. induction pre' as [|c pre' IH]; intros pre E Hpre.
  - destruct pre as [|d pre]; simpl in E; inversion E.
    + exists EmptyString. reflexivity.
    + exists (pre ++ "[")%string. rewrite <- string_append_assoc. reflexivity.
  - apply includes_cons in Hpre as [Hc Hpre].
    destruct pre as [|d pre]; simpl in E; inversion E; subst.
    + rewrite Ascii.eqb_refl in Hc. discriminate.
    + eauto.
Qed.

(** X10. The bracketed part of a reply is characterised both ways.
    [text.match(/\[[\s\S]*\]/)] yields [m] exactly when [m] is an opening
    bracket, any text and a closing bracket, and the reply is [m] with
    text without an opening bracket before it and text without a closing
    bracket after it; so the match is unique, starts at the first opening
    bracket and ends at the last closing one.  There is no match exactly
    when no opening bracket of the reply is followed, anywhere after it,
    by a closing bracket. *)
Theorem matchArray_characterised (s : string) :
  (forall m : string,
     matchArray s = Some m <->
     exists pre body post : string,
       m = ("[" ++ body ++ "]")%string /\
       s = (pre ++ m ++ post)%string /\
       includes "[" pre = false /\ includes "]" post = false) /\
  (matchArray s = None <->
   forall pre rest : string,
     s = (pre ++ "[" ++ rest)%string -> includes "]" rest = false).
Proof.
  assert (Hsome : forall m : string,
     matchArray s = Some m <->
     exists pre body post : string,
       m = ("[" ++ body ++ "]")%string /\
       s = (pre ++ m ++ post)%string /\
       includes "[" pre = false /\ includes "]" post = false).
  { intros m. split.
    - unfold matchArray. destruct (fromFirstOpen s) as [t|] eqn:Eo; [|discriminate].
      intros Ec.
      apply fromFirstOpen_Some in Eo as (pre & rest & -> & Hpre & ->).
      apply throughLastClose_Some in Ec as (q & post & -> & Ht & Hpost).
      destruct q as [|c q]; [discriminate Ht|].
      change (String "[" rest = String c ((q ++ "]") ++ post)%string) in Ht.
      injection Ht as <- ->.
      exists pre, q, post. auto.
    - intros (pre & body & post & -> & -> & Hpre & Hpost).
      apply matchArray_embedded; auto.
      apply (throughLastClose_closed (String "[" body)). }
  split; [exact Hsome|]. split.
  - intros En pre rest ->. unfold matchArray in En.
    destruct (fromFirstOpen (pre ++ "[" ++ rest)%string) as [t|] eqn:Eo.
    + apply fromFirstOpen_Some in Eo as (pre' & rest' & Es & Hpre' & ->).
      apply throughLastClose_None in En.
      symmetry in Es. apply first_open_is_first in Es as (mid & ->); [|exact Hpre'].
      apply includes_cons in En as [_ En].
      eapply includes_app_r. exact En.
    + apply fromFirstOpen_None in Eo. apply includes_app_r in Eo. discriminate.
  - intros Hno. destruct (matchArray s) as [m|] eqn:Em; [|reflexivity].
    destruct (proj1 (Hsome m) eq_refl) as (pre & body & post & -> & -> & _ & _).
    specialize (Hno pre (body ++ "]" ++ post)%string).
    rewrite <- !string_append_assoc in Hno. specialize (Hno eq_refl).
    apply includes_app_r in Hno. discriminate.
Qed.

(** ** Every outcome of the list-ranking parser *)

Lemma rooted_cons (f : JS.frame) (stack : list JS.frame) :
  rooted (f :: stack) = true ->
  match f with
  | FArr _ => stack = [] \/ rooted stack = true
  | FObj _ _ => rooted stack = true
  end.
Proof.
  unfold rooted. destruct stack as [|g stack].
  - destruct f; simpl; [auto | discriminate].
  - rewrite last_cons_cons. destruct f; auto.
Qed.

Lemma rooted_push (f : JS.frame) (stack : list JS.frame) :
  rooted stack = true -> rooted (f :: stack) = true.
Proof.
  unfold rooted. destruct stack as [|g stack]; [discriminate|].
  rewrite last_cons_cons. auto.
Qed.

Lemma complete_array_rooted (v : value) (stack : list JS.frame) :
  json_entry v = true ->
  Forall (fun e => json_entry e = true) (gathered stack) ->
  rooted stack = true \/
  (stack = [] /\ exists items, v = VArr items /\ Forall (fun e => json_entry e = true) items) ->
  array_rooted (complete v stack).
Proof.
  intros Hv Hg Hr. destruct stack as [|[done|done key] stack]; simpl.
  - destruct Hr as [Hr | (_ & Hr)]; [discriminate | exact Hr].
  - destruct Hr as [Hr | (Hr & _)]; [|discriminate].
    split; [apply (rooted_cons (FArr done)); exact Hr|].
    unfold gathered in Hg. simpl in Hg. rewrite <- app_assoc.
    apply Forall_app in Hg as [Hd Hg].
    apply Forall_app. split; [exact Hd|]. apply Forall_app. split; [|exact Hg].
    constructor; [exact Hv | constructor].
  - destruct Hr as [Hr | (Hr & _)]; [|discriminate].
    split; [apply (rooted_cons (FObj done key)); exact Hr|].
    exact Hg.
Qed.

Lemma word_value_entry (w : string) (v : value) :
  word_value w = Some v -> json_entry v = true.
Proof.
  unfold word_value.
  destruct (String.eqb w "true"); [intros E; inversion E; reflexivity|].
  destruct (String.eqb w "false"); [intros E; inversion E; reflexivity|].
  destruct (String.eqb w "null"); [intros E; inversion E; reflexivity|].
  destruct (parse_number w); intros E; inversion E; reflexivity.
Qed.

Lemma value_start_array_rooted (t : token) (stack : list JS.frame) (st : pstate) :
  rooted stack = true ->
  Forall (fun e => json_entry e = true) (gathered stack) ->
  value_start t stack = Some st -> array_rooted st.
Proof.
  intros Hr Hg. destruct t; simpl; try discriminate.
  - intros E. inversion E. simpl. auto.
  - intros E. inversion E. simpl. auto.
  - intros E. inversion E. apply complete_array_rooted; auto.
  - destruct (word_value w) as [v|] eqn:Ew; [|discriminate].
    intros E. inversion E. apply complete_array_rooted; eauto using word_value_entry.
Qed.

Lemma parse_step_array_rooted (st st' : pstate) (t : token) :
  array_rooted st -> parse_step st t = Some st' -> array_rooted st'.
Proof.
  destruct st as [stack|stack|done stack|stack|done stack|done stack|done key stack|v];
    simpl; intros Hinv E.
  - destruct Hinv as [Hr Hg]. eapply value_start_array_rooted; eauto.
  - destruct Hinv as [Hr Hg].
    assert (Hpush : rooted (FArr [] :: stack) = true).
    { destruct Hr as [-> | Hr]; [reflexivity | apply rooted_push; exact Hr]. }
    assert (Hstart : forall st0, value_start t (FArr [] :: stack) = Some st0 ->
                                 array_rooted st0).
    { intros st0. apply value_start_array_rooted; [exact Hpush | exact Hg]. }
    destruct t; try (apply Hstart; exact E).
    inversion E. apply complete_array_rooted; [reflexivity | exact Hg |].
    destruct Hr as [-> | Hr]; [right | left; exact Hr].
    split; [reflexivity|]. exists []. split; [reflexivity | constructor].
  - destruct Hinv as [Hr Hg]. destruct t; try discriminate.
    + inversion E. apply Forall_app in Hg as [Hd Hg].
      apply complete_array_rooted; [reflexivity | exact Hg |].
      destruct Hr as [-> | Hr]; [right | left; exact Hr].
      split; [reflexivity|]. exists done. auto.
    + inversion E. simpl. split; [|exact Hg].
      destruct Hr as [-> | Hr]; [reflexivity | apply rooted_push; exact Hr].
  - destruct Hinv as [Hr Hg]. destruct t; try discriminate.
    + inversion E. apply complete_array_rooted; auto.
    + inversion E. simpl. auto.
  - destruct Hinv as [Hr Hg]. destruct t; try discriminate.
    + inversion E. apply complete_array_rooted; auto.
    + inversion E. simpl. auto.
  - destruct Hinv as [Hr Hg]. destruct t; try discriminate.
    inversion E. simpl. auto.
  - destruct Hinv as [Hr Hg]. destruct t; try discriminate.
    inversion E. simpl. split; [apply rooted_push; exact Hr | exact Hg].
  - discriminate.
Qed.

Lemma parse_tokens_array_rooted (ts : list token) (st : pstate) (v : value) :
  array_rooted st -> parse_tokens st ts = Some v ->
  exists items, v = VArr items /\ Forall (fun e => json_entry e = true) items.
Proof.
  revert st. induction ts as [|t ts IH]; intros st Hinv; simpl.
  - destruct st; try discriminate. intros E. inversion E; subst. exact Hinv.
  - destruct (parse_step st t) as [st'|] eqn:Es; [|discriminate].
    apply IH. eapply parse_step_array_rooted; eauto.
Qed.

Lemma JSON_parse_bracketed (rest : string) (v : value) :
  JSON_parse (String "[" rest) = Some v ->
  exists items, v = VArr items /\ Forall (fun e => json_entry e = true) items.
Proof.
  unfold JSON_parse.
  assert (Hlex : lex LStart (String "[" rest) =
                 match lex LStart rest with
                 | Some ts => Some (TLBracket :: ts)
                 | None => None
                 end) by reflexivity.
  rewrite Hlex. destruct (lex LStart rest) as [ts|]; [|discriminate].
  change (parse_tokens (SValue []) (TLBracket :: ts))
    with (parse_tokens (SArrFirst []) ts).
  apply parse_tokens_array_rooted. simpl. split; [auto | constructor].
Qed.

Lemma matchArray_opens (s m : string) :
  matchArray s = Some m -> exists rest : string, m = String "[" rest.
Proof.
  unfold matchArray. destruct (fromFirstOpen s) as [t|] eqn:Eo; [|discriminate].
  intros Ec.
  apply fromFirstOpen_Some in Eo as (pre & rest & _ & _ & ->).
  apply throughLastClose_Some in Ec as (q & post & -> & Ht & _).
  destruct q as [|c q]; [discriminate Ht|].
  change (String "[" rest = String c ((q ++ "]") ++ post)%string) in Ht.
  injection Ht as <- _. eexists. reflexivity.
Qed.

Section OutcomeFacts.
Context `{Runtime} `{Host}.

Lemma ranking_entry (r : value) w :
  json_entry r = true ->
  (entry_throws (store w) r = true /\ ranking r w = (inl TypeError, w)) \/
  (entry_throws (store w) r = false /\ exists x, ranking r w = (inr x, w)).
Proof.
  destruct r; try discriminate; intros _;
    try (right; split; [reflexivity | eexists; reflexivity]).
  - left. auto.
  - rewrite ranking_fields. cbn [entry_throws].
    destruct (unconvertible (store w) (field "index" fields)); [left | right]; eauto.
Qed.

Lemma mapM_ranking_entries (kept : list value) w :
  Forall (fun e => json_entry e = true) kept ->
  (Exists (fun e => entry_throws (store w) e = true) kept /\
   mapM ranking kept w = (inl TypeError, w)) \/
  (Forall (fun e => entry_throws (store w) e = false) kept /\
   exists results,
     mapM ranking kept w = (inr results, w) /\
     Forall2 (fun e r => ranking e w = (inr r, w)) kept results).
Proof.
  induction 1 as [|r kept Hr Hk IH].
  - right. split; [constructor|]. exists []. split; [reflexivity | constructor].
  - destruct (ranking_entry r w Hr) as [(Ht & E) | (Hn & x & E)].
    + left. split; [left; exact Ht|]. simpl. apply bind_fail. exact E.
    + simpl. rewrite (bind_run _ _ _ _ _ E).
      destruct IH as [(Hin & E') | (Hnin & results & E' & Hf)].
      * left. split; [right; exact Hin|]. apply bind_fail. exact E'.
      * right. split; [constructor; assumption|].
        exists (x :: results). rewrite (bind_run _ _ _ _ _ E').
        split; [reflexivity | constructor; assumption].
Qed.
End OutcomeFacts.

(** X11. Every outcome of the list-ranking parser on a reply that is a
    text.  The world is left as it was, and exactly one of these holds:
    there is no bracketed part and the error is "Failed to parse
    reranker output."; the bracketed part is not JSON and the error is
    "Invalid JSON in reranker response."; or the bracketed part parses,
    and then it parses to an array (a text that starts with an opening
    bracket cannot parse to anything else, so that [results.slice] is
    always applied to an array).  In the last case the call ends with a
    [TypeError] when one of the entries kept by the cut to [topN] cannot
    be converted, being [null], whose [index] cannot be read, or having
    an [index] that does not convert to a primitive, so that
    [r.index - 1] throws; otherwise it returns the conversions of the
    kept entries, one result per entry and in their order. *)
Theorem list_ranking_outcomes `{Runtime} `{Host}
    (itemIndex topN : Z) (s : string) (w : world) :
  exists outcome : error + list RerankResult,
    parse_rankings itemIndex topN (VStr s) w = (outcome, w) /\
    ((matchArray s = None /\
      outcome = inl (NodeOperationError "Failed to parse reranker output."
                       (Some itemIndex)))
     \/ (exists m : string,
           matchArray s = Some m /\ JSON_parse m = None /\
           outcome = inl (NodeOperationError "Invalid JSON in reranker response."
                            (Some itemIndex)))
     \/ (exists (m : string) (items : list value),
           matchArray s = Some m /\ JSON_parse m = Some (VArr items) /\
           let kept := slice0 items (Z.min topN (Z.of_nat (length items))) in
           (Exists (fun e => entry_throws (store w) e = true) kept /\
            outcome = inl TypeError)
           \/ (Forall (fun e => entry_throws (store w) e = false) kept /\
               exists results : list RerankResult,
                 outcome = inr results /\
                 Forall2 (fun e r => ranking e w = (inr r, w)) kept results))).
Proof.
  rewrite parse_rankings_text.
  destruct (matchArray s) as [m|] eqn:Em; [|eexists; split; [reflexivity|]; auto].
  destruct (JSON_parse m) as [v|] eqn:Ej;
    [|eexists; split; [reflexivity|]; right; left; eauto].
  destruct (matchArray_opens _ _ Em) as (rest & ->).
  destruct (JSON_parse_bracketed _ _ Ej) as (items & -> & Hitems).
  set (kept := slice0 items (Z.min topN (Z.of_nat (length items)))).
  assert (Hkept : Forall (fun e => json_entry e = true) kept).
  { destruct (slice0_prefix items (Z.min topN (Z.of_nat (length items)))) as (n & Hn).
    subst kept. rewrite Hn. apply Forall_take. exact Hitems. }
  destruct (mapM_ranking_entries kept w Hkept)
    as [(Hin & E) | (Hnin & results & E & Hf)].
  - exists (inl TypeError). split; [exact E|]. right. right.
    exists (String "[" rest), items. auto.
  - exists (inr results). split; [exact E|]. right. right.
    exists (String "[" rest), items. split; [reflexivity|]. split; [exact Ej|].
    right. split; [exact Hnin|]. exists results. split; [reflexivity | exact Hf].
Qed.

Lemma list_ranking_outcomes_witness :
  fst (@parse_rankings sample_runtime 0 3
         (VStr (json_text "[{'index':{'toString':1},'score':0.9}]")) sample_world)
    = inl TypeError /\
  fst (@parse_rankings sample_runtime 0 3
         (VStr (json_text "[{'index':'first','score':0.9}]")) sample_world)
    = inr [{| index := NaN; relevanceScore := VNum (9 # 10) |}].
Proof.
  split.
  - destruct (@list_ranking_outcomes sample_runtime sample_generate_host 0 3
                (json_text "[{'index':{'toString':1},'score':0.9}]") sample_world)
      as (outcome & E & _).
    rewrite E. vm_compute in E. inversion E. reflexivity.
  - vm_compute. reflexivity.
Defined.

(** ** The model lists *)


Section ListFacts.
Context `{Runtime} `{Host}.


End ListFacts.



(** ** Failures before the answer *)

Section ListerFailures.
Context `{Runtime} `{Host}.

Lemma list_tags_network (c : credentials) (message : string) w :
  getCredentials "ollamaApi" = inr c ->
  fetch (length (requests w)) (tags_request c) = inl message ->
  list_tags w =
  (inl (NodeOperationError
          ("Network error connecting to Ollama at " ++ tags_baseUrl c ++ ": " ++ message)%string
          None),
   {| store := store w; requests := requests w ++ [tags_request c] |}).
Proof.
  intros Ec Ef. unfold list_tags.
  unfold bind at 1. unfold lift. rewrite Ec.
  unfold bind at 1. unfold call_fetch. rewrite Ef. reflexivity.
Qed.

Lemma list_tags_status (c : credentials) (resp : response) w :
  getCredentials "ollamaApi" = inr c ->
  fetch (length (requests w)) (tags_request c) = inr resp ->
  ok resp = false ->
  list_tags w =
  (inl (NodeOperationError
          ("Failed to fetch Ollama models (" ++ ToString (VNum (ofZ (status resp)))
           ++ " " ++ statusText resp ++ ") from " ++ tags_baseUrl c)%string None),
   {| store := store w; requests := requests w ++ [tags_request c] |}).
Proof.
  intros Ec Ef Eok. unfold list_tags.
  unfold bind at 1. unfold lift. rewrite Ec.
  unfold bind at 1. unfold call_fetch. rewrite Ef, Eok. reflexivity.
Qed.

Lemma tags_listers_fail (e : error) w w' :
  list_tags w = (inl e, w') ->
  Qwen.getModels w = (inl e, w') /\ Generate.getModels w = (inl e, w').
Proof.
  intros E. split; [|exact E]. unfold Qwen.getModels. apply bind_fail. exact E.
Qed.
End ListerFailures.

(** X13. The failures of the model listers before the reply is read,
    once the credentials are at hand.  When [fetch] throws, the two
    [/api/tags] listers raise a node error whose message names the base
    URL and carries the message of the thrown error, while the
    [/models] lister, which has no handler, lets the thrown error
    through as it is.  When the status of the reply is not ok, the
    [/api/tags] listers raise a node error with the status, its text
    and the base URL and no item index; the [/models] lister raises one
    with the status, its text and item index 0.  A body that is not
    JSON is a [SyntaxError] in all three.  In every case the one
    request has been made and the store is as it was. *)
Theorem lister_failures `{Runtime} `{Host} (c : credentials) (w : world) :
  getCredentials "ollamaApi" = inr c ->
  let wt := {| store := store w; requests := requests w ++ [tags_request c] |} in
  let wm := {| store := store w; requests := requests w ++ [OpenAI.models_request c] |} in
  (forall message : string,
     fetch (length (requests w)) (tags_request c) = inl message ->
     let e := NodeOperationError
                ("Network error connecting to Ollama at " ++ tags_baseUrl c
                 ++ ": " ++ message)%string None in
     Qwen.getModels w = (inl e, wt) /\ Generate.getModels w = (inl e, wt)) /\
  (forall message : string,
     fetch (length (requests w)) (OpenAI.models_request c) = inl message ->
     OpenAI.getModels w = (inl (HostError message), wm)) /\
  (forall resp : response,
     fetch (length (requests w)) (tags_request c) = inr resp -> ok resp = false ->
     let e := NodeOperationError
                ("Failed to fetch Ollama models (" ++ ToString (VNum (ofZ (status resp)))
                 ++ " " ++ statusText resp ++ ") from " ++ tags_baseUrl c)%string None in
     Qwen.getModels w = (inl e, wt) /\ Generate.getModels w = (inl e, wt)) /\
  (forall resp : response,
     fetch (length (requests w)) (OpenAI.models_request c) = inr resp -> ok resp = false ->
     OpenAI.getModels w =
       (inl (NodeOperationError
               ("Failed to fetch models: " ++ ToString (VNum (ofZ (status resp)))
                ++ " " ++ statusText resp)%string (Some 0%Z)), wm)) /\
  (forall resp : response,
     ok resp = true -> json resp = None ->
     (fetch (length (requests w)) (tags_request c) = inr resp ->
      Qwen.getModels w = (inl SyntaxError, wt) /\
      Generate.getModels w = (inl SyntaxError, wt)) /\
     (fetch (length (requests w)) (OpenAI.models_request c) = inr resp ->
      OpenAI.getModels w = (inl SyntaxError, wm))).
Proof.
  intros Ec wt wm.
  split; [intros message Ef e; apply tags_listers_fail, list_tags_network; assumption|].
  split.
  { intros message Ef. unfold OpenAI.getModels.
    unfold bind at 1. unfold lift. rewrite Ec.
    unfold bind at 1. unfold call_fetch. rewrite Ef. reflexivity. }
  split; [intros resp Ef Eok e; apply tags_listers_fail, list_tags_status; assumption|].
  split.
  { intros resp Ef Eok. unfold OpenAI.getModels.
    unfold bind at 1. unfold lift. rewrite Ec.
    unfold bind at 1. unfold call_fetch. rewrite Ef, Eok. reflexivity. }
  intros resp Eok Ej. split; intros Ef.
  - apply tags_listers_fail. rewrite (list_tags_run c resp w Ec Ef Eok), Ej. reflexivity.
  - rewrite (getModels_run c resp w Ec Ef Eok), Ej. reflexivity.
Qed.

Lemma lister_failures_witness :
  fst (@Generate.getModels sample_runtime
         (scripted_host local_credentials 3 [] []) sample_world)
    = inl (NodeOperationError
             "Network error connecting to Ollama at http://localhost:11434: fetch failed"
             None) /\
  fst (@OpenAI.getModels sample_runtime
         (scripted_host local_credentials 3 [] []) sample_world)
    = inl (HostError "fetch failed").
Proof.
  destruct (@lister_failures sample_runtime (scripted_host local_credentials 3 [] [])
              local_credentials sample_world eq_refl)
    as (Htags & Hmodels & _).
  destruct (Htags "fetch failed" eq_refl) as [_ Eg].
  rewrite Eg, (Hmodels "fetch failed" eq_refl). split; reflexivity.
Defined.

(** X14. Without credentials nothing is requested.  Each operation asks
    the host for credentials first and by a name of its own: the three
    model listers and the classification reranker for [ollamaApi], the
    list-ranking reranker for [rerankerOllamaApi].  When the host
    refuses, the operation fails with the host's error in the world as
    it was: no request has been made and no document touched. *)
Theorem no_credentials_no_request `{Runtime} `{Host}
    (itemIndex : Z) (docs : list value) (query : value) (e : error) (w : world) :
  docs <> [] ->
  (getCredentials "ollamaApi" = inl e ->
   Qwen.getModels w = (inl e, w) /\
   Generate.getModels w = (inl e, w) /\
   OpenAI.getModels w = (inl e, w) /\
   Qwen.compressDocuments itemIndex (Some docs) query w = (inl e, w)) /\
  (getCredentials "rerankerOllamaApi" = inl e ->
   Generate.compressDocuments itemIndex (Some docs) query w = (inl e, w) /\
   OpenAI.compressDocuments itemIndex (Some docs) query w = (inl e, w)).
Proof.
  intros Hne.
  assert (Hc : forall reranker,
            reranker docs query w = (inl e, w) ->
            compressDocuments_with reranker (Some docs) query w = (inl e, w)).
  { intros reranker E. destruct docs as [|d docs]; [contradiction|].
    simpl. apply bind_fail. exact E. }
  split; intros Ec.
  - assert (El : list_tags w = (inl e, w)).
    { unfold list_tags, bind, lift. rewrite Ec. reflexivity. }
    split; [apply tags_listers_fail; exact El|]. split; [exact El|].
    split.
    + unfold OpenAI.getModels, bind, lift. rewrite Ec. reflexivity.
    + apply Hc. unfold Qwen.rerankQwen, bind, lift. rewrite Ec. reflexivity.
  - assert (Er : rerank itemIndex docs query w = (inl e, w)).
    { unfold rerank, bind, lift. rewrite Ec. reflexivity. }
    split; apply Hc; exact Er.
Qed.

Lemma no_credentials_no_request_witness :
  @Qwen.compressDocuments sample_runtime sample_locked_host 0
    (Some sample_documents) sample_query sample_world
    = (inl (HostError "Credentials not found"), sample_world) /\
  @Generate.compressDocuments sample_runtime sample_locked_host 0
    (Some sample_documents) sample_query sample_world
    = (inl (HostError "Credentials not found"), sample_world).
Proof.
  destruct (@no_credentials_no_request sample_runtime sample_locked_host 0
              sample_documents sample_query (HostError "Credentials not found")
              sample_world ltac:(discriminate)) as [Ho Hr].
  split; [apply (Ho eq_refl) | apply (Hr eq_refl)].
Defined.

(** ** The verdict of the classification variant *)

Lemma append_nil_r (s : string) : (s ++ EmptyString)%string = s.
Proof.
  induction s as [|c s IH]; [reflexivity|].
  change (String c (s ++ EmptyString)%string = String c s). rewrite IH. reflexivity.
Qed.

Lemma startsWith_spec (p s : string) :
  startsWith p s = true <-> exists b : string, s = (p ++ b)%string.
Proof.
  revert s. induction p as [|a p IH]; intros s.
  - split; [exists s; reflexivity | reflexivity].
  - destruct s as [|c s]; cbn [startsWith].
    + split; [discriminate | intros (b & E); discriminate E].
    + rewrite andb_true_iff, IH, Ascii.eqb_eq. split.
      * intros (-> & b & ->). exists b. reflexivity.
      * intros (b & E).
        change (String c s = String a (p ++ b)%string) in E.
        injection E as -> ->. eauto.
Qed.

Lemma includes_unfold (p s : string) :
  includes p s =
  startsWith p s || match s with String _ r => includes p r | EmptyString => false end.
Proof. destruct s; reflexivity. Qed.

Lemma includes_spec (p s : string) :
  includes p s = true <-> exists a b : string, s = (a ++ p ++ b)%string.
Proof.
  split.
  - induction s as [|c s IH]; rewrite includes_unfold, orb_true_iff.
    + intros [E | E]; [|discriminate].
      apply startsWith_spec in E as (b & ->). exists EmptyString, b. reflexivity.
    + intros [E | E].
      * apply startsWith_spec in E as (b & ->). exists EmptyString, b. reflexivity.
      * destruct (IH E) as (a & b & ->). exists (String c a), b. reflexivity.
  - intros (a & b & ->). induction a as [|c a IH].
    + change (EmptyString ++ p ++ b)%string with (p ++ b)%string.
      rewrite includes_unfold.
      rewrite (proj2 (startsWith_spec p (p ++ b)%string)) by eauto. reflexivity.
    + change (String c a ++ p ++ b)%string with (String c (a ++ p ++ b)%string).
      rewrite includes_unfold, IH. apply orb_true_r.
Qed.

Lemma rev_app_spec (s acc : string) :
  String.rev_app s acc = (String.rev s ++ acc)%string.
Proof.
  revert acc. induction s as [|a s IH]; intros acc; [reflexivity|].
  unfold String.rev. cbn [String.rev_app].
  rewrite (IH (String a acc)), (IH (String a EmptyString)).
  rewrite <- string_append_assoc. reflexivity.
Qed.

Lemma rev_cons (a : ascii) (s : string) :
  String.rev (String a s) = (String.rev s ++ String a EmptyString)%string.
Proof. unfold String.rev at 1. cbn [String.rev_app]. apply rev_app_spec. Qed.

Lemma rev_append (a b : string) :
  String.rev (a ++ b)%string = (String.rev b ++ String.rev a)%string.
Proof.
  induction a as [|c a IH].
  - change (String.rev EmptyString) with EmptyString. rewrite append_nil_r. reflexivity.
  - change (String c a ++ b)%string with (String c (a ++ b)%string).
    rewrite !rev_cons, IH, string_append_assoc. reflexivity.
Qed.

Lemma rev_involutive (s : string) : String.rev (String.rev s) = s.
Proof.
  induction s as [|c s IH]; [reflexivity|].
  rewrite rev_cons, rev_append, IH. reflexivity.
Qed.

Lemma includes_rev (p s : string) :
  includes p (String.rev s) = includes (String.rev p) s.
Proof.
  apply Bool.eq_iff_eq_true. rewrite !includes_spec. split.
  - intros (a & b & E). exists (String.rev b), (String.rev a).
    rewrite <- (rev_involutive s), E, !rev_append, string_append_assoc. reflexivity.
  - intros (a & b & ->). exists (String.rev b), (String.rev a).
    rewrite !rev_append, rev_involutive, string_append_assoc. reflexivity.
Qed.

Lemma lower_letters_append (a b : string) :
  lower_letters (a ++ b)%string = (lower_letters a ++ lower_letters b)%string.
Proof.
  induction a as [|c a IH]; [reflexivity|].
  change (String c a ++ b)%string with (String c (a ++ b)%string).
  cbn [lower_letters]. rewrite IH. reflexivity.
Qed.

Lemma lower_letters_rev (s : string) :
  lower_letters (String.rev s) = String.rev (lower_letters s).
Proof.
  induction s as [|c s IH]; [reflexivity|].
  cbn [lower_letters]. rewrite !rev_cons, lower_letters_append, IH. reflexivity.
Qed.

Lemma lower_char_space (c : ascii) : is_space c = true -> lower_char c = c.
Proof.
  destruct c as [[] [] [] [] [] [] [] []]; intros E; try discriminate E; reflexivity.
Qed.

(** Leading white space does not matter to the search for a word that
    starts with another character. *)
Lemma includes_trimStart (a : ascii) (p s : string) :
  is_space a = false ->
  includes (String a p) (lower_letters (trimStart s))
    = includes (String a p) (lower_letters s).
Proof.
  intros Ha. induction s as [|c s IH]; [reflexivity|].
  cbn [trimStart]. destruct (is_space c) eqn:Ec; [|reflexivity].
  rewrite IH. cbn [lower_letters]. rewrite (lower_char_space c Ec).
  rewrite (includes_unfold (String a p) (String c (lower_letters s))).
  cbn [startsWith].
  destruct (Ascii.eqb a c) eqn:Eac; [|reflexivity].
  apply Ascii.eqb_eq in Eac. congruence.
Qed.

Lemma includes_trim_letters (s : string) :
  includes "yes" (lower_letters (trim s)) = includes "yes" (lower_letters s).
Proof.
  unfold trim.
  rewrite lower_letters_rev, includes_rev.
  change (String.rev "yes") with "sey".
  rewrite (includes_trimStart "s" "ey") by reflexivity.
  rewrite lower_letters_rev, includes_rev.
  change (String.rev "sey") with "yes".
  apply (includes_trimStart "y" "es"). reflexivity.
Qed.

Lemma lower_letters_split (s x y : string) :
  lower_letters s = (x ++ y)%string ->
  exists a b : string, s = (a ++ b)%string /\ lower_letters a = x /\ lower_letters b = y.
Proof.
  revert s. induction x as [|c x IH]; intros s E.
  - exists EmptyString, s. auto.
  - destruct s as [|d s]; [discriminate E|].
    change (String (lower_char d) (lower_letters s) = String c (x ++ y)%string) in E.
    injection E as Hd E. destruct (IH s E) as (a & b & -> & <- & <-).
    exists (String d a), b. cbn [lower_letters]. rewrite Hd. auto.
Qed.

(** How [toLowerCase] goes through a string: past the two bytes of
    U+0130, past the three bytes of the Kelvin sign, or past one byte. *)
Lemma toLowerCase_cases (s : string) :
  s = EmptyString
  \/ (exists r : string,
        s = String (ascii_of_N 196) (String (ascii_of_N 176) r) /\
        toLowerCase s
          = String "i" (String (ascii_of_N 204) (String (ascii_of_N 135) (toLowerCase r))))
  \/ (exists r : string,
        s = String (ascii_of_N 226) (String (ascii_of_N 132) (String (ascii_of_N 170) r)) /\
        toLowerCase s = String "k" (toLowerCase r))
  \/ (exists (c : ascii) (r : string),
        s = String c r /\ toLowerCase s = String (lower_char c) (toLowerCase r)).
Proof.
  destruct s as [|c [|d r2]]; [left; reflexivity | right; right; right; eauto |].
  cbn [toLowerCase].
  destruct (Ascii.eqb c (ascii_of_N 196) && Ascii.eqb d (ascii_of_N 176)) eqn:E1.
  { apply andb_true_iff in E1 as [Ec Ed].
    apply Ascii.eqb_eq in Ec. apply Ascii.eqb_eq in Ed. subst.
    right. left. eauto. }
  destruct r2 as [|e r3]; [right; right; right; eauto|].
  destruct (Ascii.eqb c (ascii_of_N 226) && Ascii.eqb d (ascii_of_N 132)
            && Ascii.eqb e (ascii_of_N 170)) eqn:E2.
  { apply andb_true_iff in E2 as [E2 Ee]. apply andb_true_iff in E2 as [Ec Ed].
    apply Ascii.eqb_eq in Ec. apply Ascii.eqb_eq in Ed. apply Ascii.eqb_eq in Ee. subst.
    right. right. left. eauto. }
  right. right. right. eauto.
Qed.

Lemma startsWith_other (a x : ascii) (p t : string) :
  Ascii.eqb a x = false -> startsWith (String a p) (String x t) = false.
Proof. intros E. cbn [startsWith]. rewrite E. reflexivity. Qed.

Lemma includes_other (a x : ascii) (p t : string) :
  Ascii.eqb a x = false -> includes (String a p) (String x t) = includes (String a p) t.
Proof.
  intros E. rewrite (includes_unfold (String a p) (String x t)).
  rewrite (startsWith_other a x p t E). reflexivity.
Qed.

Lemma plain_cons (a : ascii) (p : string) :
  plain (String a p) = true -> special_byte a = false /\ plain p = true.
Proof.
  cbn [plain]. intros E. apply andb_true_iff in E as [Ea Ep].
  apply negb_true_iff in Ea. auto.
Qed.

Lemma special_byte_false (a : ascii) :
  special_byte a = false ->
  Ascii.eqb a "i" = false /\ Ascii.eqb a "k" = false /\
  Ascii.eqb a (ascii_of_N 196) = false /\ Ascii.eqb a (ascii_of_N 176) = false /\
  Ascii.eqb a (ascii_of_N 204) = false /\ Ascii.eqb a (ascii_of_N 135) = false /\
  Ascii.eqb a (ascii_of_N 226) = false /\ Ascii.eqb a (ascii_of_N 132) = false /\
  Ascii.eqb a (ascii_of_N 170) = false.
Proof.
  unfold special_byte. intros E.
  repeat (apply orb_false_iff in E as [E ?]). repeat split; assumption.
Qed.

(** A word without the bytes of the two special characters starts the
    lower case of a string exactly when it starts the string with its
    letters lowered. *)
Lemma startsWith_lowered (q s : string) :
  plain q = true ->
  startsWith q (toLowerCase s) = startsWith q (lower_letters s).
Proof.
  revert s. induction q as [|a q IH]; intros s Hq; [reflexivity|].
  apply plain_cons in Hq as [Ha Hq].
  apply special_byte_false in Ha as (Hi & Hk & H196 & _ & _ & _ & H226 & _ & _).
  destruct (toLowerCase_cases s)
    as [-> | [(r & -> & E) | [(r & -> & E) | (c & r & -> & E)]]]; [reflexivity | | |];
    rewrite E; cbn [lower_letters].
  - rewrite !startsWith_other by assumption. reflexivity.
  - rewrite !startsWith_other by assumption. reflexivity.
  - cbn [startsWith]. rewrite (IH r Hq). reflexivity.
Qed.

Lemma includes_lowered_upto (n : nat) (a : ascii) (p s : string) :
  plain (String a p) = true ->
  (String.length s <= n)%nat ->
  includes (String a p) (toLowerCase s) = includes (String a p) (lower_letters s).
Proof.
  intros Hp. pose proof Hp as Hq. apply plain_cons in Hq as [Ha Hq].
  apply special_byte_false in Ha
    as (Hi & Hk & H196 & H176 & H204 & H135 & H226 & H132 & H170).
  revert s. induction n as [|n IH]; intros s Hn.
  - destruct s; [reflexivity | simpl in Hn; lia].
  - destruct (toLowerCase_cases s)
      as [-> | [(r & -> & E) | [(r & -> & E) | (c & r & -> & E)]]]; [reflexivity | | |];
      rewrite E; cbn [lower_letters]; cbn [String.length] in Hn.
    + change (lower_char (ascii_of_N 196)) with (ascii_of_N 196).
      change (lower_char (ascii_of_N 176)) with (ascii_of_N 176).
      rewrite !includes_other by assumption. apply IH. lia.
    + change (lower_char (ascii_of_N 226)) with (ascii_of_N 226).
      change (lower_char (ascii_of_N 132)) with (ascii_of_N 132).
      change (lower_char (ascii_of_N 170)) with (ascii_of_N 170).
      rewrite !includes_other by assumption. apply IH. lia.
    + rewrite (includes_unfold _ (String (lower_char c) (toLowerCase r))).
      rewrite (includes_unfold _ (String (lower_char c) (lower_letters r))).
      cbn [startsWith]. rewrite (startsWith_lowered p r Hq).
      rewrite (IH r) by lia. reflexivity.
Qed.

Lemma includes_lowered (a : ascii) (p s : string) :
  plain (String a p) = true ->
  includes (String a p) (toLowerCase s) = includes (String a p) (lower_letters s).
Proof. intros Hp. exact (includes_lowered_upto (String.length s) a p s Hp (le_n _)). Qed.

Lemma includes_trim (s : string) :
  includes "yes" (toLowerCase (trim s)) = includes "yes" (toLowerCase s).
Proof.
  rewrite !(includes_lowered "y" "es") by reflexivity. apply includes_trim_letters.
Qed.

(** X15. The verdict.  The score that the classification variant gives
    to a reply whose content is the text [s] is 1 exactly when [s]
    contains the letters y, e, s in a row, each in either case, at any
    place: at the start, after other words or inside a word.  The call
    of [trim] has no bearing on the score. *)
Theorem yes_verdict (s : string) :
  Qwen.score_of (Some (toLowerCase (trim s))) = Qwen.score_of (Some (toLowerCase s)) /\
  (Qwen.score_of (Some (toLowerCase (trim s))) = 1%Z <->
   exists (a b : string) (c1 c2 c3 : ascii),
     s = (a ++ String c1 (String c2 (String c3 b)))%string /\
     (c1 = "y" \/ c1 = "Y")%char /\ (c2 = "e" \/ c2 = "E")%char /\
     (c3 = "s" \/ c3 = "S")%char) /\
  (Qwen.score_of (Some (toLowerCase (trim s))) = 1%Z \/
   Qwen.score_of (Some (toLowerCase (trim s))) = 0%Z).
Proof.
  assert (Hlower : forall (c : ascii) (l : ascii),
            l = "y"%char \/ l = "e"%char \/ l = "s"%char ->
            lower_char c = l <-> c = l \/ c = ascii_of_N (N_of_ascii l - 32)).
  { intros c l Hl. split.
    - intros E.
      destruct c as [[] [] [] [] [] [] [] []];
        destruct Hl as [-> | [-> | ->]]; try discriminate E; auto.
    - intros [-> | ->]; destruct Hl as [-> | [-> | ->]]; reflexivity. }
  unfold Qwen.score_of. rewrite includes_trim.
  split; [reflexivity|].
  rewrite (includes_lowered "y" "es") by reflexivity. split.
  - destruct (includes "yes" (lower_letters s)) eqn:Ei.
    + split; [intros _ | reflexivity].
      apply includes_spec in Ei as (x & y & E).
      apply lower_letters_split in E as (a & rest & -> & _ & E).
      apply (lower_letters_split rest "yes" y) in E as (m & b & -> & E & _).
      destruct m as [|c1 [|c2 [|c3 [|c4 m]]]]; try discriminate E.
      cbn [lower_letters] in E. injection E as E1 E2 E3.
      exists a, b, c1, c2, c3. split; [reflexivity|].
      apply (Hlower c1 "y"%char) in E1; [|auto].
      apply (Hlower c2 "e"%char) in E2; [|auto].
      apply (Hlower c3 "s"%char) in E3; [|auto]. auto.
    + split; [discriminate|]. intros (a & b & c1 & c2 & c3 & -> & H1 & H2 & H3).
      assert (includes "yes" (lower_letters (a ++ String c1 (String c2 (String c3 b)))%string)
              = true) as Et; [|congruence].
      apply includes_spec. exists (lower_letters a), (lower_letters b).
      rewrite lower_letters_append. cbn [lower_letters].
      rewrite (proj2 (Hlower c1 "y"%char ltac:(auto)) H1).
      rewrite (proj2 (Hlower c2 "e"%char ltac:(auto)) H2).
      rewrite (proj2 (Hlower c3 "s"%char ltac:(auto)) H3). reflexivity.
  - destruct (includes "yes" (lower_letters s)); auto.
Qed.

Lemma yes_verdict_witness :
  Qwen.score_of (Some (toLowerCase (trim "My eyes are tired."))) = 1%Z.
Proof.
  apply (proj1 (proj2 (yes_verdict "My eyes are tired."))).
  exists "My e", " are tired.", "y"%char, "e"%char, "s"%char. auto.
Defined.

(** ** Numbers in the prompt and indexes in the reply *)



(** ** Running again *)

#[export] Instance documents_kept_preorder : PreOrder documents_kept.
Proof.
  split.
  - intros w d Hd. exact Hd.
  - intros w1 w2 w3 H12 H23 d Hd. apply H23, H12, Hd.
Qed.

Lemma well_formed_document_subseteq (h h' : heap) (d : value) :
  h ⊆ h' -> well_formed_document h d -> well_formed_document h' d.
Proof.
  intros Hsub (l & o & -> & Hl & Hmd).
  exists l, o. split; [reflexivity|].
  split; [eapply lookup_weaken; eauto|].
  destruct Hmd as [Hf | (m & Em & mo & Hm)]; [left; exact Hf|].
  right. exists m. split; [exact Em|]. exists mo. eapply lookup_weaken; eauto.
Qed.

Lemma same_store_documents_kept {A} (m : M A) :
  keeps same_store m -> keeps documents_kept m.
Proof.
  intros Hm w d Hd. specialize (Hm w). unfold same_store in Hm.
  rewrite Hm. exact Hd.
Qed.

Section AgainFacts.
Context `{Runtime} `{Host}.

Lemma attach_documents_kept docs r : keeps documents_kept (attach docs r).
Proof.
  intros w d0 Hd0.
  destruct (attach docs r w) as [[e|d] w'] eqn:E; simpl.
  - apply attach_inl in E as (_ & Hsub & _).
    eapply well_formed_document_subseteq; eauto.
  - eapply well_formed_document_attach; eauto.
Qed.

Lemma compressDocuments_with_documents_kept reranker documents query :
  (forall docs, keeps same_store (reranker docs query)) ->
  keeps documents_kept (compressDocuments_with reranker documents query).
Proof.
  intros Hr. unfold compressDocuments_with.
  destruct documents as [[|d docs]|].
  - keeps_step.
  - keeps_step; [apply same_store_documents_kept, Hr|].
    keeps_step. apply attach_documents_kept.
  - keeps_step.
Qed.


End AgainFacts.

(** X17. Documents stay fit for another run.  A well-formed document
    is an object of the store whose [metadata] is missing, falsy, or an
    object of the store.  Whatever the outcome of [compressDocuments],
    in each of the three listings, every value that was a well-formed
    document before the call is one after it, so that the same
    documents can be handed to the reranker again. *)
Theorem compressDocuments_keeps_documents_well_formed `{Runtime} `{Host}
    (itemIndex : Z) (documents : option (list value)) (query : value) :
  keeps documents_kept (Qwen.compressDocuments itemIndex documents query) /\
  keeps documents_kept (Generate.compressDocuments itemIndex documents query) /\
  keeps documents_kept (OpenAI.compressDocuments itemIndex documents query).
Proof.
  repeat split; apply compressDocuments_with_documents_kept; intros docs;
    auto using rerankQwen_store, rerank_store.
Qed.



(** ** The base URL of the lister and of the reranker *)

Lemma stripTrailingSlashes_slashes (n : nat) :
  stripTrailingSlashes (slashes n) = EmptyString.
Proof.
  induction n as [|n IH]; [reflexivity|].
  cbn [slashes stripTrailingSlashes]. rewrite IH. reflexivity.
Qed.

Lemma stripTrailingSlashes_empty (s : string) :
  stripTrailingSlashes s = EmptyString <-> exists n, s = slashes n.
Proof.
  split.
  - intros E. destruct (stripTrailingSlashes_spec s) as [(n & Hn) _].
    rewrite E in Hn. exists n. exact Hn.
  - intros (n & ->). apply stripTrailingSlashes_slashes.
Qed.

(** X19. The lister and the reranker of a listing do not always agree
    on the base URL.  The [/api/tags] listers strip the slashes first
    and take the default when nothing is left; the rerankers take the
    default first, when the base URL is missing or empty, and strip
    afterwards.  So the lister's base URL is never empty, and the two
    agree whenever the reranker's is not empty; but for a base URL that
    is one or more slashes and nothing else, the lister asks the default
    server while the reranker's base URL is empty and its request goes
    to the bare path [/api/chat] or [/api/generate].  The base URL of
    the [/models] lister is empty for a missing base URL as well. *)
Theorem base_urls_agree (c : credentials) :
  tags_baseUrl c <> EmptyString /\
  (rerank_baseUrl c = EmptyString <-> exists n, baseUrl c = Some (slashes (S n))) /\
  (rerank_baseUrl c <> EmptyString -> tags_baseUrl c = rerank_baseUrl c) /\
  (rerank_baseUrl c = EmptyString -> tags_baseUrl c = default_baseUrl) /\
  (OpenAI.models_baseUrl c = EmptyString <->
   baseUrl c = None \/ exists n, baseUrl c = Some (slashes n)).
Proof.
  unfold tags_baseUrl, rerank_baseUrl, OpenAI.models_baseUrl.
  destruct c as [[b|] k]; cbn [baseUrl or_else].
  - destruct (String.eqb_spec b EmptyString) as [->|Hb].
    + cbn. split; [discriminate|].
      split; [split; [discriminate | intros (n & E); discriminate E]|].
      split; [reflexivity|]. split; [discriminate|].
      split; [|reflexivity]. intros _. right. exists 0%nat. reflexivity.
    + destruct (stripTrailingSlashes b) as [|d r] eqn:Es.
      * apply stripTrailingSlashes_empty in Es as (n & ->).
        destruct n as [|n]; [contradiction|].
        cbn [String.eqb]. split; [discriminate|].
        split; [split; [eauto | reflexivity]|].
        split; [contradiction|]. split; [reflexivity|].
        split; [|reflexivity]. intros _. right. eauto.
      * assert (Hn : forall n, b <> slashes n).
        { intros n ->. rewrite stripTrailingSlashes_slashes in Es. discriminate. }
        cbn [String.eqb]. split; [discriminate|].
        split.
        { split; [discriminate|]. intros (n & E). injection E as E.
          destruct (Hn (S n) E). }
        split; [reflexivity|]. split; [discriminate|].
        split; [discriminate|].
        intros [E | (n & E)]; [discriminate|]. injection E as E.
        destruct (Hn n E).
  - cbn. split; [discriminate|].
    split; [split; [discriminate | intros (n & E); discriminate E]|].
    split; [reflexivity|]. split; [discriminate|].
    split; [auto | reflexivity].
Qed.

Lemma base_urls_agree_witness :
  tags_baseUrl slash_credentials = "http://localhost:11434" /\
  (rerank_baseUrl slash_credentials ++ "/api/chat")%string = "/api/chat".
Proof.
  destruct (base_urls_agree slash_credentials) as (_ & _ & _ & Hd & _).
  split; [apply Hd|]; reflexivity.
Defined.

(** ** All or nothing *)

Lemma mapM_attempt_total {A B} (f : A -> M B) (l : list A) w :
  exists os w', mapM (fun x => attempt (f x)) l w = (inr os, w').
Proof.
  revert w. induction l as [|x l IH]; intros w; simpl.
  - eexists _, _. reflexivity.
  - unfold bind at 1. unfold attempt at 1. destruct (f x w) as [o w1].
    destruct (IH w1) as (os & w' & E). rewrite (bind_run _ _ _ _ _ E).
    eexists _, _. reflexivity.
Qed.

Lemma mapM_attempt_lookup {A B} (f : A -> M B) (l : list A) w (j : nat) (x : A) :
  l !! j = Some x ->
  exists os w',
    mapM (fun x => attempt (f x)) l w = (inr os, w') /\
    os !! j = Some (fst (f x (snd (mapM (fun x => attempt (f x)) (take j l) w)))).
Proof.
  revert w j. induction l as [|y l IH]; intros w j Hj; [destruct j; discriminate|].
  destruct j as [|j]; simpl in Hj.
  - inversion Hj; subst y. simpl.
    unfold bind at 1. unfold attempt at 1. destruct (f x w) as [o w1].
    destruct (mapM_attempt_total f l w1) as (os & w' & E).
    rewrite (bind_run _ _ _ _ _ E). eexists _, _. split; reflexivity.
  - cbn [take mapM].
    unfold bind at 1 3. unfold attempt at 1 3. destruct (f y w) as [o w1].
    destruct (IH w1 j Hj) as (os & w' & E & Ho).
    rewrite (bind_run _ _ _ _ _ E).
    destruct (mapM_attempt_total f (take j l) w1) as (os1 & w1' & E1).
    rewrite E1 in Ho. rewrite (bind_run _ _ _ _ _ E1).
    eexists _, _. split; [reflexivity|]. exact Ho.
Qed.

Lemma all_inl {A} (outcomes : list (error + A)) (j : nat) (e : error) :
  outcomes !! j = Some (inl e) -> exists e', Qwen.all outcomes = inl e'.
Proof.
  revert j. induction outcomes as [|[e0|a] outcomes IH]; intros j Hj.
  - destruct j; discriminate.
  - eexists. reflexivity.
  - destruct j as [|j]; [discriminate|]. simpl in Hj.
    destruct (IH j Hj) as (e' & E). exists e'. simpl. rewrite E. reflexivity.
Qed.

(** X20. All or nothing.  In the classification variant the calls for
    the documents are gathered with [Promise.all]: when the call for one
    document fails (in the world as the calls for the documents before
    it have left it), the reranker fails, and so does
    [compressDocuments], with the same error in the same world; the
    store is as it was, so that no document carries a score of this
    run. *)
Theorem one_failed_call_fails_all `{Runtime} `{Host}
    (itemIndex : Z) (docs : list value) (query : value) (c : credentials) (w : world)
    (j : nat) (doc : value) (e : error) :
  getCredentials "ollamaApi" = inr c ->
  docs !! j = Some doc ->
  let call := fun p : nat * value =>
    Qwen.rerankCall (getNodeParameter_string "model" itemIndex)
      (rerank_baseUrl c ++ "/api/chat")%string (request_headers c) query (fst p) (snd p) in
  let wj := snd (mapM (fun p => attempt (call p)) (take j (imap pair docs)) w) in
  fst (call (j, doc) wj) = inl e ->
  exists (e' : error) (w' : world),
    Qwen.rerankQwen itemIndex docs query w = (inl e', w') /\
    Qwen.compressDocuments itemIndex (Some docs) query w = (inl e', w') /\
    store w' = store w.
Proof.
  intros Ec Hj call wj Hcall.
  assert (Hp : imap pair docs !! j = Some (j, doc)).
  { rewrite list_lookup_imap, Hj. reflexivity. }
  destruct (mapM_attempt_lookup call (imap pair docs) w j (j, doc) Hp)
    as (os & w' & E & Ho).
  fold wj in Ho. rewrite Hcall in Ho.
  destruct (all_inl os j e Ho) as (e' & Eall).
  assert (Er : Qwen.rerankQwen itemIndex docs query w = (inl e', w')).
  { unfold Qwen.rerankQwen. unfold bind at 1. unfold lift at 1. rewrite Ec.
    fold call. rewrite (bind_run _ _ _ _ _ E).
    unfold bind, lift. rewrite Eall. reflexivity. }
  exists e', w'. split; [exact Er|]. split.
  - destruct docs as [|d docs]; [discriminate Hj|].
    simpl. apply bind_fail. exact Er.
  - pose proof (rerankQwen_store itemIndex docs query w) as Hs.
    rewrite Er in Hs. exact Hs.
Qed.

Lemma one_failed_call_fails_all_witness :
  exists (e' : error) (w' : world),
    @Qwen.compressDocuments sample_runtime
      (scripted_host local_credentials 2
         [chat_reply "Yes"; chat_reply "No"] []) 0
      (Some sample_documents) sample_query sample_world = (inl e', w') /\
    length (requests w') = 3%nat /\
    store w' = sample_store.
Proof.
  destruct (@one_failed_call_fails_all sample_runtime
              (scripted_host local_credentials 2 [chat_reply "Yes"; chat_reply "No"] [])
              0 sample_documents sample_query local_credentials sample_world
              2%nat (VRef 3%positive) (HostError "connect ECONNREFUSED")
              eq_refl eq_refl ltac:(vm_compute; reflexivity))
    as (e' & w' & _ & Ec & Hs).
  exists e', w'. split; [exact Ec|]. split; [|exact Hs].
  vm_compute in Ec. inversion Ec. reflexivity.
Defined.

(** * The claims that depend on the whole run *)

(** ** Replies that can be read *)




(** ** At most [topN] documents *)

Section CountBound.
Context `{Runtime} `{Host}.

Lemma classification_count itemIndex docs query w rs w' :
  Qwen.rerankQwen itemIndex docs query w = (inr rs, w') ->
  let topN := getNodeParameter_number "topN" itemIndex in
  let n := Z.of_nat (length docs) in
  Z.of_nat (length rs) = (if (topN <? 0)%Z then Z.max (n + topN) 0 else Z.min topN n).
Proof.
  intros E topN n.
  apply rerankQwen_inr in E as (c & results & _ & Hcalls & ->).
  apply Forall2_length in Hcalls. rewrite length_imap in Hcalls.
  rewrite slice0_topN_length, sort_length, <- Hcalls. reflexivity.
Qed.
End CountBound.

(** C1.  The claim is right where [topN] is a count, and every returned
    document carries a score whatever [topN] is: for a non-empty list of
    documents, whatever [compressDocuments] returns, in each of the
    three listings, is made of documents that have a metadata object
    with a [relevanceScore] property in the store that the call leaves;
    and for a [topN] that is not negative there are at most [topN] of
    them.  The code does not keep to the bound for a negative [topN],
    which the node accepts: [slice(0, Math.min(topN, length))] then
    counts from the end, so that the classification variant returns
    [max(n + topN, 0)] of its [n] documents; with [topN] = -1 and the
    three sample documents it returns two documents, which is more than
    [topN]. *)
Theorem compressDocuments_at_most_topN_scored `{Runtime} `{Host} :
  (forall (itemIndex : Z) (docs : list value) (query : value) (w w' : world)
          (out : list value)
          (compress : option (list value) -> value -> M (list value)),
     docs <> [] ->
     In compress [Qwen.compressDocuments itemIndex;
                  Generate.compressDocuments itemIndex;
                  OpenAI.compressDocuments itemIndex] ->
     compress (Some docs) query w = (inr out, w') ->
     Forall (fun d => has_relevanceScore (store w') d = true) out /\
     ((0 <= getNodeParameter_number "topN" itemIndex)%Z ->
      (Z.of_nat (length out) <= getNodeParameter_number "topN" itemIndex)%Z)) /\
  (forall (itemIndex : Z) (docs : list value) (query : value) (w w' : world)
          (out : list value),
     docs <> [] ->
     Qwen.compressDocuments itemIndex (Some docs) query w = (inr out, w') ->
     (getNodeParameter_number "topN" itemIndex < 0)%Z ->
     Z.of_nat (length out)
       = Z.max (Z.of_nat (length docs) + getNodeParameter_number "topN" itemIndex) 0) /\
  (exists (out : list value) (w' : world),
     @Qwen.compressDocuments sample_runtime sample_minus_one_chat_host 0
       (Some sample_documents) sample_query sample_world = (inr out, w') /\
     @getNodeParameter_number sample_minus_one_chat_host "topN" 0 = (-1)%Z /\
     length out = 2%nat /\
     ~ (Z.of_nat (length out) <= -1)%Z).
Proof.
  split; [|split].
  - intros itemIndex docs query w w' out compress Hne Hin E.
    assert (exists reranker,
      compress = compressDocuments_with reranker /\
      forall results w0 w1, reranker docs query w0 = (inr results, w1) ->
        (0 <= getNodeParameter_number "topN" itemIndex)%Z ->
        (Z.of_nat (length results) <= getNodeParameter_number "topN" itemIndex)%Z)
      as (reranker & -> & Hlen).
    { simpl in Hin. destruct Hin as [<-|[<-|[<-|[]]]].
      - exists (Qwen.rerankQwen itemIndex). split; [reflexivity|].
        intros. eapply rerankQwen_length; eauto.
      - exists (rerank itemIndex). split; [reflexivity|].
        intros. eapply rerank_length; eauto.
      - exists (rerank itemIndex). split; [reflexivity|].
        intros. eapply rerank_length; eauto. }
    apply compressDocuments_with_inr in E as [(? & _) | (_ & results & w1 & E1 & E2)];
      [contradiction|].
    pose proof (mapM_inr _ _ _ _ _ E2) as Hl.
    apply mapM_attach in E2 as (_ & _ & _ & Hs & _).
    split; [exact Hs|]. intros Hn. rewrite Hl. eauto.
  - intros itemIndex docs query w w' out Hne E Hneg.
    apply compressDocuments_with_inr in E as [(? & _) | (_ & results & w1 & E1 & E2)];
      [contradiction|].
    apply mapM_inr in E2. rewrite E2.
    rewrite (classification_count _ _ _ _ _ _ E1).
    destruct (Z.ltb_spec (getNodeParameter_number "topN" itemIndex) 0); [reflexivity | lia].
  - eexists _, _. split; [vm_compute; reflexivity|].
    split; [reflexivity|]. split; [reflexivity|]. simpl. lia.
Qed.

Lemma compressDocuments_at_most_topN_scored_witness :
  exists out w',
    @Qwen.compressDocuments sample_runtime sample_chat_host 0
      (Some sample_documents) sample_query sample_world = (inr out, w') /\
    (Z.of_nat (length out) <= 2)%Z /\
    Forall (fun d => has_relevanceScore (store w') d = true) out.
Proof.
  eexists _, _. split; [vm_compute; reflexivity|].
  destruct (@compressDocuments_at_most_topN_scored sample_runtime sample_chat_host)
    as (Hbound & _ & _).
  destruct (Hbound 0%Z sample_documents sample_query sample_world _ _
              (@Qwen.compressDocuments sample_runtime sample_chat_host 0)
              ltac:(discriminate) ltac:(simpl; auto) ltac:(vm_compute; reflexivity))
    as (Hs & Hn).
  split; [apply Hn; simpl; lia | exact Hs].
Defined.

(** ** The scores of the classification variant *)

Lemma get_prop_optional v k w x w' :
  get_prop v k w = (inr x, w') -> w' = w /\ x = optional_prop (store w) v k.
Proof.
  intros E. apply get_prop_inr in E as [-> Hx]. split; [reflexivity|].
  destruct v; simpl; try contradiction; try exact Hx.
  destruct Hx as (o & -> & ->). reflexivity.
Qed.

Lemma answer_of_spec reply w a w' :
  Qwen.answer_of reply w = (inr a, w') ->
  w' = w /\
  a = (fun s => toLowerCase (trim s)) <$> reply_message (store w) reply /\
  Qwen.score_of a = spec_score (reply_message (store w) reply).
Proof.
  unfold Qwen.answer_of, reply_message. intros E.
  destruct (nullish reply) eqn:Nr.
  { injection E as Ea Ew. subst a w'. destruct reply; try discriminate Nr; auto. }
  apply bind_inr in E as (message & w1 & E1 & E).
  apply get_prop_optional in E1 as [-> ->].
  destruct (nullish (optional_prop (store w) reply "message")) eqn:Nm.
  { injection E as Ea Ew. subst a w'.
    destruct (optional_prop (store w) reply "message"); try discriminate Nm; auto. }
  apply bind_inr in E as (content & w1 & E1 & E).
  apply get_prop_optional in E1 as [-> ->].
  destruct (optional_prop (store w) (optional_prop (store w) reply "message") "content");
    simpl in E; try discriminate E; injection E as Ea Ew; subst a w'; auto.
Qed.

Lemma answer_of_text reply w :
  text_or_nothing reply = true ->
  Qwen.answer_of reply w =
  (inr ((fun s => toLowerCase (trim s)) <$> reply_message (store w) reply), w).
Proof.
  unfold Qwen.answer_of, reply_message.
  destruct reply as [| |b|q|s|items|fields|l]; cbn [text_or_nothing]; intros Ht;
    try discriminate Ht; try reflexivity.
  unfold bind. cbn [nullish get_prop optional_prop].
  destruct (field "message" fields) as [| |b|q|s|items|message|l];
    try discriminate Ht; try reflexivity.
  cbn [nullish get_prop optional_prop].
  destruct (field "content" message); try discriminate Ht; reflexivity.
Qed.

Section ReplyScores.
Context `{Runtime} `{Host}.

Lemma rerankCalls_scores model u hs query (l : list (nat * value)) w results w' :
  mapM (fun p => attempt (Qwen.rerankCall model u hs query (fst p) (snd p))) l w
    = (inr (map inr results), w') ->
  forall j p, l !! j = Some p ->
    exists content reply,
      read_pageContent (store w) (snd p) = Some content /\
      httpRequest (length (requests w) + j)
        {| method := "POST"; url := u; headers := hs;
           body := ChatPayload model (Qwen.grading_prompt query content) |} = inr reply /\
      results !! j =
        Some {| index := Fin (ofZ (Z.of_nat (fst p)));
                relevanceScore := VNum (ofZ (spec_score (reply_message (store w) reply))) |}.
Proof.
  revert w results w'.
  induction l as [|[i doc] l IH]; intros w results w' E j p Hj;
    [destruct j; discriminate|].
  simpl in E.
  apply bind_inr in E as (o & w1 & E1 & E).
  apply bind_inr in E as (os & w2 & E2 & E).
  inversion E as [[Eo Ew]]; clear E. subst w2.
  destruct results as [|r results]; [discriminate|].
  simpl in Eo. inversion Eo; subst o os; clear Eo.
  unfold attempt in E1.
  destruct (Qwen.rerankCall model u hs query i doc w) as [o w1'] eqn:Ecall.
  inversion E1; subst o w1'; clear E1.
  apply rerankCall_inr in Ecall as (content & reply & answer & Eg & Eh & Ea & Er).
  cbv zeta in Eh, Ea.
  apply answer_of_spec in Ea as (Ew1 & _ & Escore). simpl in Escore.
  assert (Ec : read_pageContent (store w) doc = Some content).
  { pose proof (get_prop_read doc w) as Hread. rewrite Eg in Hread.
    destruct (read_pageContent (store w) doc); inversion Hread; reflexivity. }
  destruct j as [|j]; simpl in Hj.
  - inversion Hj; subst p. simpl. exists content, reply.
    rewrite Nat.add_0_r. rewrite <- Escore, Er. auto.
  - destruct (IH w1 results w' E2 j p Hj) as (content' & reply' & Hc & Hh & Hr).
    subst w1. simpl in Hc, Hh, Hr. rewrite length_app in Hh. simpl in Hh.
    exists content', reply'.
    replace (length (requests w) + S j)%nat with (length (requests w) + 1 + j)%nat by lia.
    auto.
Qed.
End ReplyScores.

(** C2.  The classification variant scores every document from the reply
    to its own request.  When [rerankQwen] returns, the credentials have
    resolved and there is a list [collected] with one result for each
    document, in the order of the documents: the j-th document has a
    page content, the host has answered the request made for it (the
    j-th request of the run, carrying the grading prompt for that
    content) with a reply, and the j-th result carries the index j and
    the score 1 when the text of that reply, trimmed and in lower case,
    contains [yes], and 0 otherwise ([spec_score], with the text the
    [message.content] of the reply when it is a string, and no text
    otherwise).  What is returned is [collected] with the results of
    score 1 before those of score 0, each class in the order of the
    documents, cut by [slice(0, Math.min(topN, length))]; so no result
    of score 0 precedes one of score 1, and every score is 1 or 0.  The
    store is left as it was and the requests made are those of the
    documents, in order.  The answer read off any reply, where reading
    it does not throw, gives the score of the specification; it does not
    throw on a reply that has a text or none.  The score of a text is 1
    exactly when the lowered, trimmed text contains [yes], and 0
    otherwise: 1 for [Yes, relevant.] and 0 for [No.]. *)
Theorem classification_scores_and_order `{Runtime} `{Host} :
  (forall itemIndex docs query w rs w',
     Qwen.rerankQwen itemIndex docs query w = (inr rs, w') ->
     exists (c : credentials) (collected : list RerankResult),
       getCredentials "ollamaApi" = inr c /\
       length collected = length docs /\
       (forall j doc, docs !! j = Some doc ->
          exists content reply,
            read_pageContent (store w) doc = Some content /\
            httpRequest (length (requests w) + j)
              (chat_request itemIndex c query content) = inr reply /\
            collected !! j =
              Some {| index := Fin (ofZ (Z.of_nat j));
                      relevanceScore :=
                        VNum (ofZ (spec_score (reply_message (store w) reply))) |}) /\
       rs = slice0 (List.filter (scored 1) collected ++ List.filter (scored 0) collected)
              (Z.min (getNodeParameter_number "topN" itemIndex)
                     (Z.of_nat (length docs))) /\
       store w' = store w /\
       requests w' =
         requests w ++
         omap (fun doc => chat_request itemIndex c query <$> read_pageContent (store w) doc)
              docs /\
       (forall j k a b, (j < k)%nat -> rs !! j = Some a -> rs !! k = Some b ->
          relevanceScore b = VNum 1 -> relevanceScore a = VNum 1) /\
       Forall (fun r => relevanceScore r = VNum 1 \/ relevanceScore r = VNum 0) rs) /\
  (forall reply w a w',
     Qwen.answer_of reply w = (inr a, w') ->
     w' = w /\ Qwen.score_of a = spec_score (reply_message (store w) reply)) /\
  (forall reply w,
     text_or_nothing reply = true ->
     exists a, Qwen.answer_of reply w = (inr a, w) /\
       Qwen.score_of a = spec_score (reply_message (store w) reply)) /\
  (forall fields message s h,
     field "message" fields = VObj message -> field "content" message = VStr s ->
     reply_message h (VObj fields) = Some s) /\
  (forall s, (spec_score (Some s) = 1 <-> includes "yes" (toLowerCase (trim s)) = true) /\
             (spec_score (Some s) = 0 <-> includes "yes" (toLowerCase (trim s)) = false)) /\
  spec_score None = 0 /\
  spec_score (Some "Yes, relevant.") = 1 /\
  spec_score (Some "No.") = 0.
Proof.
  split.
  { intros itemIndex docs query w rs w' E.
    pose proof (rerankQwen_store itemIndex docs query w) as Hstore.
    rewrite E in Hstore. simpl in Hstore. unfold same_store in Hstore.
    pose proof E as E0.
    unfold Qwen.rerankQwen in E.
    apply bind_inr in E as (c & w1 & E1 & E).
    apply bind_inr in E as (outcomes & w2 & E2 & E).
    apply bind_inr in E as (collected & w3 & E3 & E).
    injection E as Ers Ew.
    unfold lift in E1, E3. injection E1 as Ec Ew1. injection E3 as Ea Ew3.
    subst w1 w3 w2. apply all_inr in Ea. subst outcomes.
    pose proof (rerankQwen_requests itemIndex docs query c w Ec) as Hreq.
    rewrite E0 in Hreq. simpl in Hreq.
    assert (Hlen : length collected = length docs).
    { eapply mapM_attempt in E2; [|reflexivity].
      apply Forall2_length in E2. rewrite length_imap in E2. congruence. }
    assert (Hj : forall j doc, docs !! j = Some doc ->
              exists content reply,
                read_pageContent (store w) doc = Some content /\
                httpRequest (length (requests w) + j)
                  (chat_request itemIndex c query content) = inr reply /\
                collected !! j =
                  Some {| index := Fin (ofZ (Z.of_nat j));
                          relevanceScore :=
                            VNum (ofZ (spec_score (reply_message (store w) reply))) |}).
    { intros j doc Hd.
      apply (rerankCalls_scores _ _ _ _ _ _ _ _ E2 j (j, doc)).
      rewrite list_lookup_imap, Hd. reflexivity. }
    assert (Hshape : forall r, r ∈ collected ->
              exists z, relevanceScore r = VNum (ofZ z) /\ (z = 1 \/ z = 0)%Z).
    { intros r Hr. apply list_elem_of_lookup in Hr as [j Hr].
      destruct (docs !! j) as [doc|] eqn:Hd.
      - destruct (Hj j doc Hd) as (content & reply & _ & _ & Hr').
        rewrite Hr in Hr'. inversion Hr'. simpl.
        exists (spec_score (reply_message (store w) reply)). split; [reflexivity|].
        unfold spec_score. destruct (reply_message (store w) reply) as [s|]; auto.
        destruct (includes "yes" (toLowerCase (trim s))); auto.
      - apply lookup_lt_Some in Hr. apply lookup_ge_None in Hd. lia. }
    assert (Hs : forall r, r ∈ collected ->
              relevanceScore r = VNum 1 \/ relevanceScore r = VNum 0).
    { intros r Hr. destruct (Hshape r Hr) as (z & -> & [->| ->]); auto. }
    assert (Esort : sort Qwen.before collected =
                    List.filter (scored 1) collected ++ List.filter (scored 0) collected).
    { apply sort_two_classes.
      - intros x Hx. destruct (Hshape x Hx) as (z & Ez & Hz).
        eapply (before_scores x x z z); eauto.
      - intros x y Hx Hy.
        destruct (Hshape x Hx) as (z & Ez & Hz). destruct (Hshape y Hy) as (z' & Ez' & Hz').
        eapply (before_scores x y z z'); eauto. }
    assert (Ers' : rs = slice0 (List.filter (scored 1) collected ++
                                List.filter (scored 0) collected)
                          (Z.min (getNodeParameter_number "topN" itemIndex)
                                 (Z.of_nat (length docs)))).
    { rewrite <- Ers, sort_length, Hlen, Esort. reflexivity. }
    exists c, collected.
    split; [exact Ec|]. split; [exact Hlen|]. split; [exact Hj|].
    split; [exact Ers'|]. split; [exact Hstore|]. split; [exact Hreq|].
    split.
    - intros j k a b Hjk Ha Hb Eb.
      destruct (slice0_prefix
                  (List.filter (scored 1) collected ++ List.filter (scored 0) collected)
                  (Z.min (getNodeParameter_number "topN" itemIndex)
                         (Z.of_nat (length docs)))) as [n En].
      rewrite Ers', En in Ha, Hb. eapply ranked_ones_first; eauto.
    - apply Forall_forall. intros r Hr. apply Hs.
      rewrite Ers' in Hr. apply elem_of_slice0 in Hr. apply elem_of_filters in Hr.
      exact Hr. }
  split.
  { intros reply w a w' E. apply answer_of_spec in E as (Ew & _ & Es). auto. }
  split.
  { intros reply w Ht. eexists. split; [apply answer_of_text; exact Ht|].
    unfold Qwen.score_of, spec_score.
    destruct (reply_message (store w) reply); reflexivity. }
  split.
  { intros fields message s h Em Ec. unfold reply_message. simpl.
    rewrite Em. simpl. rewrite Ec. reflexivity. }
  split.
  { intros s. unfold spec_score.
    destruct (includes "yes" (toLowerCase (trim s))); split; split; intros E;
      try reflexivity; try discriminate E. }
  split; [reflexivity|]. split; reflexivity.
Qed.

Lemma classification_scores_and_order_witness :
  exists rs w' collected,
    @Qwen.rerankQwen sample_runtime sample_chat_host 0 sample_documents sample_query
       sample_world = (inr rs, w') /\
    map relevanceScore collected = [VNum 0; VNum 1; VNum 1] /\
    rs = slice0 (List.filter (scored 1) collected ++ List.filter (scored 0) collected) 2 /\
    map index rs = [Fin 1; Fin 2] /\
    map relevanceScore rs = [VNum 1; VNum 1].
Proof.
  destruct (@classification_scores_and_order sample_runtime sample_chat_host)
    as (Hrun & _).
  destruct (@Qwen.rerankQwen sample_runtime sample_chat_host 0 sample_documents
              sample_query sample_world) as [[e|rs] w'] eqn:E;
    [vm_compute in E; discriminate|].
  destruct (Hrun _ _ _ _ _ _ E) as (c & collected & Ec & Hlen & Hj & Ers & _).
  exists rs, w', collected. split; [reflexivity|].
  assert (Hc : map relevanceScore collected = [VNum 0; VNum 1; VNum 1]).
  { destruct collected as [|r0 [|r1 [|r2 [|r3 rest]]]]; try discriminate Hlen.
    destruct (Hj 0%nat _ eq_refl) as (c0 & p0 & Hc0 & Hp0 & Hr0).
    destruct (Hj 1%nat _ eq_refl) as (c1 & p1 & Hc1 & Hp1 & Hr1).
    destruct (Hj 2%nat _ eq_refl) as (c2 & p2 & Hc2 & Hp2 & Hr2).
    vm_compute in Hc0, Hc1, Hc2.
    injection Hc0 as <-. injection Hc1 as <-. injection Hc2 as <-.
    vm_compute in Ec. injection Ec as <-.
    vm_compute in Hp0, Hp1, Hp2.
    injection Hp0 as <-. injection Hp1 as <-. injection Hp2 as <-.
    simpl in Hr0, Hr1, Hr2.
    injection Hr0 as ->. injection Hr1 as ->. injection Hr2 as ->.
    reflexivity. }
  split; [exact Hc|]. split; [exact Ers|].
  vm_compute in E. injection E as <- _. split; reflexivity.
Defined.

(** ** The parser of the list-ranking variant *)

Lemma slice0_min_regimes {A} (l : list A) (topN : Z) :
  slice0 l (Z.min topN (Z.of_nat (length l))) =
  if (topN <? 0)%Z then take (length l - Z.to_nat (- topN)) l
  else take (Z.to_nat topN) l.
Proof.
  destruct (Z.ltb_spec topN 0) as [Hneg|Hpos].
  - unfold slice0.
    destruct (Z.ltb_spec (Z.min topN (Z.of_nat (length l))) 0) as [_|Hge]; [|lia].
    f_equal. lia.
  - apply slice0_min_take. exact Hpos.
Qed.

Section BracketParser.
Context `{Runtime}.

Lemma parse_rankings_reply itemIndex topN response s w :
  reply_text response w = (inr (VStr s), w) ->
  parse_rankings itemIndex topN response w =
  match matchArray s with
  | None => (inl (NodeOperationError "Failed to parse reranker output." (Some itemIndex)), w)
  | Some jsonMatch =>
      match JSON_parse jsonMatch with
      | None => (inl (NodeOperationError "Invalid JSON in reranker response." (Some itemIndex)), w)
      | Some (VArr items) =>
          mapM ranking (slice0 items (Z.min topN (Z.of_nat (length items)))) w
      | Some _ => (inl TypeError, w)
      end
  end.
Proof.
  intros Et. unfold parse_rankings. rewrite (bind_run _ _ _ _ _ Et).
  destruct (matchArray s) as [jsonMatch|]; [|reflexivity].
  destruct (JSON_parse jsonMatch) as [[]|]; reflexivity.
Qed.

Lemma mapM_ranking_numbered (entries : list (Z * value)) w :
  mapM ranking
    (map (fun e => VObj [("index", VNum (ofZ (fst e))); ("score", snd e)]) entries) w
  = (inr (map (fun e => {| index := Fin (ofZ (fst e - 1)); relevanceScore := snd e |})
              entries), w).
Proof.
  induction entries as [|[z s] entries IH]; [reflexivity|].
  cbn [map mapM fst snd].
  rewrite (bind_run _ _ _ _ _
             (ranking_number [("index", VNum (ofZ z)); ("score", s)] (ofZ z) w eq_refl)).
  rewrite (bind_run _ _ _ _ _ IH).
  change (Fin 1) with (Fin (ofZ 1)). rewrite number_sub_ofZ.
  replace (field "score" [("index", VNum (ofZ z)); ("score", s)]) with s
    by (destruct s; reflexivity).
  reflexivity.
Qed.

Lemma matchArray_bracketed (pre body post : string) :
  includes "[" pre = false -> includes "]" post = false ->
  matchArray (pre ++ ("[" ++ body ++ "]") ++ post)%string = Some ("[" ++ body ++ "]")%string.
Proof.
  intros Hpre Hpost. apply matchArray_embedded; [exact Hpre | reflexivity | | exact Hpost].
  change ("[" ++ body ++ "]")%string with (String "[" body ++ "]")%string.
  apply (throughLastClose_closed (String "[" body)).
Qed.
End BracketParser.

(** C3.  The parser of the list-ranking variant, on the reply objects
    that the request returns.  The text of a reply is its [response]
    when that is a non-empty string, its [output] when there is no
    [response] and that is a non-empty string, and a reply that is a
    string is its own text.  On every reply that has a text,
    [parse_rankings] takes the bracketed part of the text, parses it,
    cuts the entries by [slice(0, Math.min(topN, length))] and converts
    the entries kept.  The bracketed part is the array, from its opening
    to its closing bracket, whatever text without an opening bracket
    comes before it and whatever text without a closing bracket comes
    after it.  The cut keeps the first [topN] entries when [topN] is not
    negative; for a negative [topN], which the node accepts, it drops
    the last [-topN] entries instead.  An entry's index is lowered by
    one and its score kept (an index that does not convert to a
    primitive is a [TypeError]).  [rerank] applies the parser to the
    reply of its request.  For a reply whose [response] has the array of
    the specification's example between such texts, [rerank] returns
    index 1 with score 0.9 first, followed by index 0 with score 0.4,
    for a [topN] of 2 or more, the first of the two alone for a [topN]
    of 1 and of -1, and nothing for any other [topN]; with [topN] = -1
    and the reply of the example, one result is returned, which is more
    than [topN]. *)
Theorem list_ranking_parser `{Runtime} `{Host} :
  (forall fields s w,
     field "response" fields = VStr s -> s <> EmptyString ->
     reply_text (VObj fields) w = (inr (VStr s), w)) /\
  (forall fields s w,
     truthy (field "response" fields) = false ->
     field "output" fields = VStr s -> s <> EmptyString ->
     reply_text (VObj fields) w = (inr (VStr s), w)) /\
  (forall s w, reply_text (VStr s) w = (inr (VStr s), w)) /\
  (forall itemIndex topN response s w,
     reply_text response w = (inr (VStr s), w) ->
     parse_rankings itemIndex topN response w =
     match matchArray s with
     | None =>
         (inl (NodeOperationError "Failed to parse reranker output." (Some itemIndex)), w)
     | Some jsonMatch =>
         match JSON_parse jsonMatch with
         | None =>
             (inl (NodeOperationError "Invalid JSON in reranker response."
                     (Some itemIndex)), w)
         | Some (VArr items) =>
             mapM ranking (slice0 items (Z.min topN (Z.of_nat (length items)))) w
         | Some _ => (inl TypeError, w)
         end
     end) /\
  (forall pre body post,
     includes "[" pre = false -> includes "]" post = false ->
     matchArray (pre ++ ("[" ++ body ++ "]") ++ post)%string
       = Some ("[" ++ body ++ "]")%string) /\
  (forall (items : list value) (topN : Z),
     slice0 items (Z.min topN (Z.of_nat (length items))) =
     if (topN <? 0)%Z then take (length items - Z.to_nat (- topN)) items
     else take (Z.to_nat topN) items) /\
  (forall fields w,
     ranking (VObj fields) w =
     if unconvertible (store w) (field "index" fields) then (inl TypeError, w)
     else (inr {| index := number_sub (number_of (field "index" fields)) (Fin 1);
                  relevanceScore := field "score" fields |}, w)) /\
  (forall (entries : list (Z * value)) w,
     mapM ranking
       (map (fun e => VObj [("index", VNum (ofZ (fst e))); ("score", snd e)]) entries) w
     = (inr (map (fun e => {| index := Fin (ofZ (fst e - 1)); relevanceScore := snd e |})
                 entries), w)) /\
  (forall itemIndex docs query w c passages w1 response,
     getCredentials "rerankerOllamaApi" = inr c ->
     mapM (fun p => passage (fst p) (snd p)) (imap pair docs) w = (inr passages, w1) ->
     httpRequest (length (requests w1)) (rerank_request itemIndex c query passages)
       = inr response ->
     rerank itemIndex docs query w =
     parse_rankings itemIndex (getNodeParameter_number "topN" itemIndex) response
       {| store := store w1;
          requests := requests w1 ++ [rerank_request itemIndex c query passages] |}) /\
  sample_ranking_text = ("Some text " ++ sample_array ++ " trailing")%string /\
  (forall itemIndex docs query w c passages w1 fields pre post,
     getCredentials "rerankerOllamaApi" = inr c ->
     mapM (fun p => passage (fst p) (snd p)) (imap pair docs) w = (inr passages, w1) ->
     httpRequest (length (requests w1)) (rerank_request itemIndex c query passages)
       = inr (VObj fields) ->
     field "response" fields = VStr (pre ++ sample_array ++ post)%string ->
     includes "[" pre = false -> includes "]" post = false ->
     rerank itemIndex docs query w =
     (inr (if (2 <=? getNodeParameter_number "topN" itemIndex)%Z
           then [{| index := Fin 1; relevanceScore := VNum (9 # 10) |};
                 {| index := Fin 0; relevanceScore := VNum (2 # 5) |}]
           else if (getNodeParameter_number "topN" itemIndex =? 1)%Z
                   || (getNodeParameter_number "topN" itemIndex =? -1)%Z
                then [{| index := Fin 1; relevanceScore := VNum (9 # 10) |}]
                else []),
      {| store := store w1;
         requests := requests w1 ++ [rerank_request itemIndex c query passages] |})) /\
  (exists w',
     @rerank sample_runtime sample_minus_one_generate_host 0
       sample_documents sample_query sample_world
     = (inr [{| index := Fin 1; relevanceScore := VNum (9 # 10) |}], w') /\
     @getNodeParameter_number sample_minus_one_generate_host "topN" 0 = (-1)%Z).
Proof.
  split; [exact reply_text_response|].
  split.
  { intros fields s w Er Eo Hs. unfold reply_text, bind. cbn [get_prop].
    rewrite Er, Eo. simpl.
    destruct (String.eqb_spec s EmptyString); [contradiction | reflexivity]. }
  split; [reflexivity|].
  split; [exact parse_rankings_reply|].
  split; [exact matchArray_bracketed|].
  split; [intros items topN; apply slice0_min_regimes|].
  split; [exact ranking_fields|].
  split; [exact mapM_ranking_numbered|].
  split; [exact rerank_run|].
  split; [reflexivity|].
  split.
  { intros itemIndex docs query w c passages w1 fields pre post Ec Ep Eh Er Hpre Hpost.
    rewrite (rerank_run _ _ _ _ _ _ _ _ Ec Ep Eh).
    generalize (getNodeParameter_number "topN" itemIndex). intros topN.
    set (w2 := {| store := store w1;
                  requests := requests w1 ++ [rerank_request itemIndex c query passages] |}).
    assert (Hs : (pre ++ sample_array ++ post)%string <> EmptyString).
    { destruct pre; discriminate. }
    rewrite (parse_rankings_reply _ _ _ _ _ (reply_text_response _ _ w2 Er Hs)).
    rewrite (matchArray_embedded pre sample_array post Hpre eq_refl eq_refl Hpost).
    replace (JSON_parse sample_array)
      with (Some (VArr [VObj [("index", VNum 2); ("score", VNum (9 # 10))];
                        VObj [("index", VNum 1); ("score", VNum (2 # 5))]]))
      by (vm_compute; reflexivity).
    rewrite slice0_min_regimes.
    destruct (Z.ltb_spec topN 0) as [Hneg|Hpos].
    - destruct (Z.leb_spec 2 topN) as [?|_]; [lia|].
      destruct (Z.eqb_spec topN 1) as [?|_]; [lia|].
      destruct (Z.eqb_spec topN (-1)) as [->|Hne]; [reflexivity|].
      replace (length [VObj [("index", VNum 2); ("score", VNum (9 # 10))];
                       VObj [("index", VNum 1); ("score", VNum (2 # 5))]]
               - Z.to_nat (- topN))%nat with 0%nat by (simpl; lia).
      reflexivity.
    - destruct (Z.leb_spec 2 topN) as [Hge|Hlt].
      + rewrite take_ge by (simpl; lia). reflexivity.
      + destruct (Z.eqb_spec topN 1) as [->|Hne]; [reflexivity|].
        replace topN with 0%Z by lia. reflexivity. }
  eexists. split; [vm_compute; reflexivity | reflexivity].
Qed.

Lemma list_ranking_parser_witness :
  (exists w',
     @rerank sample_runtime sample_generate_host 0
       sample_documents sample_query sample_world
     = (inr [{| index := Fin 1; relevanceScore := VNum (9 # 10) |};
             {| index := Fin 0; relevanceScore := VNum (2 # 5) |}], w')) /\
  @parse_rankings sample_runtime 0 1 (generate_reply sample_ranking_text) sample_world
  = (inr [{| index := Fin 1; relevanceScore := VNum (9 # 10) |}], sample_world).
Proof.
  pose proof (@list_ranking_parser sample_runtime sample_generate_host)
    as (_ & _ & _ & Hparse & _ & _ & _ & _ & _ & _ & Hexample & _).
  split.
  - eexists.
    apply (Hexample 0%Z sample_documents sample_query sample_world local_credentials
             _ sample_world _ "Some text "%string " trailing"%string
             eq_refl ltac:(vm_compute; reflexivity) eq_refl eq_refl eq_refl eq_refl).
  - rewrite (Hparse 0%Z 1%Z (generate_reply sample_ranking_text) sample_ranking_text
               sample_world ltac:(vm_compute; reflexivity)).
    vm_compute. reflexivity.
Defined.
